(** * docstring_to_text: a shallow embedding of the line pipeline

    The development follows the package layout:
    - [Py]        the fragment of Python's [str] and exceptions the code uses;
    - [Regex]     a backtracking matcher with capture groups, and the
                  patterns of [__regex_line_parse.py];
    - [Line]      [ParsedLine] and [BlockType] of [__internal_parsed_line.py];
    - [Tabs]      [SpaceToTabsConverter] of [__internal_spaces_to_tabs.py];
    - [Processor] [_ArgsKey] and [DocstringToText] of [_processor.py];
    - [Notions]   what the statements speak of and the code has no name for.

    Strings are lists of Unicode code points (Python's [str]), integers are
    [Z] (Python's unbounded [int]).  A raised exception is a value of
    [result]; an [assert] raises [AssertionError] when the interpreter runs
    with assertions switched on (the default, [__debug__ = True]) and is
    skipped under [python -O]: the functions that contain one take that
    switch as their first argument [dbg]. *)

From Stdlib Require Import String Ascii.
From Stdlib Require Import ZArith List Bool Lia.
From Stdlib Require Import Floats.SpecFloat.
Import ListNotations.

Local Open Scope Z_scope.

(* ================================================================== *)
(** ** Python strings and exceptions *)

Module Py.

(** A character is its code point. *)
Abbreviation char := Z (only parsing).
Definition str := list char.

Definition TAB : char := 9.
Definition LF : char := 10.
Definition SP : char := 32.

(** An ASCII literal as a [str]. *)
Definition lit (s : string) : str :=
  map (fun a => Z.of_N (N_of_ascii a)) (list_ascii_of_string s).

Definition in_range (lo hi c : char) : bool := (lo <=? c) && (c <=? hi).

(** [str.isspace] on one character, which is also what [str.split()],
    [str.rstrip()] and the pattern [\s] use. *)
Definition is_space (c : char) : bool :=
  in_range 9 13 c || in_range 28 32 c || (c =? 133) || (c =? 160)
  || (c =? 5760) || in_range 8192 8202 c || in_range 8232 8233 c
  || (c =? 8239) || (c =? 8287) || (c =? 12288).

Definition is_ascii_letter (c : char) : bool :=
  in_range 97 122 c || in_range 65 90 c.

Definition is_ascii_digit (c : char) : bool := in_range 48 57 c.

Definition mem (c : char) (s : str) : bool := existsb (Z.eqb c) s.

(** [len(s)] *)
Definition len (s : str) : Z := Z.of_nat (length s).

Fixpoint drop_while {A} (p : A -> bool) (l : list A) : list A :=
  match l with
  | x :: l' => if p x then drop_while p l' else l
  | [] => []
  end.

(** [s.rstrip()] *)
Definition rstrip (s : str) : str := rev (drop_while is_space (rev s)).

(** [''.join(s.split())]: the string without its whitespace. *)
Definition remove_whitespace (s : str) : str :=
  filter (fun c => negb (is_space c)) s.

(** [sep.join(parts)] *)
Fixpoint join (sep : str) (parts : list str) : str :=
  match parts with
  | [] => []
  | [p] => p
  | p :: rest => p ++ sep ++ join sep rest
  end.

(** Truthiness of a string or list: [bool(s)]. *)
Definition truthy {A} (l : list A) : bool :=
  match l with [] => false | _ => true end.

Inductive exn :=
| AssertionError
| ValueError
| AttributeError
| IndexError.

(** What a call ends in: a value, a raised exception, or [OutOfFuel] when a
    loop of the embedding has used up its iteration budget before the
    Python loop has ended. *)
Inductive result (A : Type) :=
| Ok (a : A)
| Raise (e : exn)
| OutOfFuel.
Arguments Ok {A} a.
Arguments Raise {A} e.
Arguments OutOfFuel {A}.

Definition bind {A B} (m : result A) (k : A -> result B) : result B :=
  match m with
  | Ok a => k a
  | Raise e => Raise e
  | OutOfFuel => OutOfFuel
  end.

(** [assert cond] *)
Definition assert (dbg : bool) (cond : bool) : result unit :=
  if dbg && negb cond then Raise AssertionError else Ok tt.

Fixpoint mapM {A B} (f : A -> result B) (l : list A) : result (list B) :=
  match l with
  | [] => Ok []
  | x :: l' =>
      bind (f x) (fun y => bind (mapM f l') (fun ys => Ok (y :: ys)))
  end.

(** The longest prefix of [l] whose elements satisfy [p]: what
    [drop_while] drops. *)
Fixpoint take_while {A} (p : A -> bool) (l : list A) : list A :=
  match l with
  | x :: l' => if p x then x :: take_while p l' else []
  | [] => []
  end.




End Py.

Import Py.

Notation "x <- m ;; k" := (Py.bind m (fun x => k))
  (at level 61, m at next level, right associativity).
Notation "m ;;; k" := (Py.bind m (fun _ => k))
  (at level 61, right associativity).

(* ================================================================== *)
(** ** Regular expressions: [re.compile(...).match] *)

Module Regex.

(** The constructs the package's patterns use.  [Star true r] is the greedy
    [r*], [Star false r] the lazy [r*?]; [Group i r] is the [i]-th capturing
    group; [Eos] is [$] without [re.MULTILINE]. *)
Inductive regex :=
| Class (p : char -> bool)
| Cat (r1 r2 : regex)
| Alt (r1 r2 : regex)
| Star (greedy : bool) (r : regex)
| Group (i : nat) (r : regex)
| Eos.

Definition Plus (greedy : bool) (r : regex) : regex := Cat r (Star greedy r).

Definition captures := list (nat * str).

Definition orelse {A} (a b : option A) : option A :=
  match a with Some _ => a | None => b end.

(** The text consumed between the input [s] and its suffix [s']. *)
Definition consumed (s s' : str) : str :=
  firstn (length s - length s') s.

Definition cont := str -> captures -> option captures.

(** The iterations of a star whose body is matched by [body]: one more
    iteration is tried first when the star is greedy, the continuation [k]
    first when it is lazy.  An iteration has to consume input, so the
    length of the input bounds their number. *)
Fixpoint star_loop (greedy : bool) (body : str -> captures -> cont -> option captures)
    (k : cont) (fuel : nat) (s : str) (c : captures) {struct fuel}
    : option captures :=
  match fuel with
  | O => k s c
  | S fuel' =>
      let again :=
        body s c (fun s1 c1 =>
          if (length s1 <? length s)%nat
          then star_loop greedy body k fuel' s1 c1
          else None) in
      if greedy then orelse again (k s c) else orelse (k s c) again
  end.

(** Backtracking matcher in continuation-passing style: [k] is what has to
    match after [r].  Alternatives are tried in the order the engine tries
    them, the left branch of an alternation first. *)
Fixpoint run (r : regex) (s : str) (c : captures) (k : cont) {struct r}
    : option captures :=
  match r with
  | Class p =>
      match s with
      | x :: s' => if p x then k s' c else None
      | [] => None
      end
  | Cat r1 r2 => run r1 s c (fun s1 c1 => run r2 s1 c1 k)
  | Alt r1 r2 => orelse (run r1 s c k) (run r2 s c k)
  | Star greedy r1 => star_loop greedy (run r1) k (length s) s c
  | Group i r1 => run r1 s c (fun s1 c1 => k s1 ((i, consumed s s1) :: c1))
  | Eos =>
      match s with
      | [] => k s c
      | [x] => if x =? LF then k s c else None
      | _ => None
      end
  end.

(** [pattern.match(s)]: anchored at the start, anything may follow. *)
Definition re_match (r : regex) (s : str) : option captures :=
  run r s [] (fun _ c => Some c).

(** [pattern.search(s)]: the first position where the pattern matches. *)
Fixpoint re_search (r : regex) (s : str) : option captures :=
  match re_match r s with
  | Some c => Some c
  | None => match s with
            | [] => None
            | _ :: s' => re_search r s'
            end
  end.

(** [match.group(i)]; [None] for a group that took no part in the match. *)
Fixpoint group (i : nat) (c : captures) : option str :=
  match c with
  | [] => None
  | (j, v) :: c' => if Nat.eqb i j then Some v else group i c'
  end.

(** Truthiness of a match result: [None] is false, a match is true. *)
Definition matched (m : option captures) : bool :=
  match m with Some _ => true | None => false end.

(** [x if x else ''] over a group. *)
Definition group_or_empty (i : nat) (c : captures) : str :=
  match group i c with Some v => v | None => [] end.

(** [[x if x else '' for x in m.groups()]] for a pattern of [n] groups,
    as the tests of the patterns read a match; [None] for no match. *)
Definition groups (n : nat) (r : regex) (s : str) : option (list str) :=
  option_map (fun c => map (fun i => group_or_empty i c) (seq 1 n))
             (re_match r s).

Definition dot : regex := Class (fun c => negb (c =? LF)).
Definition ws : regex := Class is_space.
Definition tab : regex := Class (fun c => c =? TAB).
Definition not_tab : regex := Class (fun c => negb (c =? TAB)).

(** [_re_indent_match_]: the pattern [( \s* ) ( .*? ) $], written with
    blanks between its parts here and below. *)
Definition _re_indent_match_ : regex :=
  Cat (Group 1 (Star true ws))
      (Cat (Group 2 (Star false dot)) Eos).

(** [_re_indent_parse_]: [( \t* ) ( [^\t]* ) ( .*? ) $] *)
Definition _re_indent_parse_ : regex :=
  Cat (Group 1 (Star true tab))
      (Cat (Group 2 (Star true not_tab))
           (Cat (Group 3 (Star false dot)) Eos)).

(** [_re_has_whitespaces]: [\s+], used through [search] *)
Definition _re_has_whitespaces : regex := Plus true ws.

(** [_re_has_alphanumeric]: [[a-zA-Z0-9]+], used through [search] *)
Definition _re_has_alphanumeric : regex :=
  Plus true (Class (fun c => is_ascii_letter c || is_ascii_digit c)).

(** The pattern [_re_bullet_match_factory] compiles for a bullet set B:
    [( [B]+ ) (?: \s+ ( .*? ) | \s* ) $] *)
Definition bullet_pattern (in_bullets : str) : regex :=
  Cat (Group 1 (Plus true (Class (fun c => mem c in_bullets))))
      (Cat (Alt (Cat (Plus true ws) (Group 2 (Star false dot)))
                (Star true ws))
           Eos).

Section Number.

(** [\d] of a [str] pattern is Unicode's decimal-digit category, a table of
    the interpreter and not of the package. *)
Variable unicode_decimal : char -> bool.

(** [(?: \d+ | [a-zA-Z] )] *)
Definition number_or_letter : regex :=
  Alt (Plus true (Class unicode_decimal)) (Class is_ascii_letter).

(** The separator class of the repeated prefix: underscore, apostrophe,
    backtick, acute accent, comma, full stop, colon, closing parenthesis,
    tilde, em dash, en dash, hyphen. *)
Definition separators : str :=
  [95; 39; 96; 180; 44; 46; 58; 41; 126; 8212; 8211; 45].

(** The closing separator class: full stop, colon, closing parenthesis. *)
Definition end_separators : str := [46; 58; 41].

(** [_re_number_match_]: group 1 is the repeated prefix
    [(?: \s* numlet [separators]+ )*] followed by
    [\s* numlet [end_separators]+]; after it [\s* ( .*? ) $]. *)
Definition _re_number_match_ : regex :=
  Cat (Group 1
         (Cat (Star true
                 (Cat (Star true ws)
                      (Cat number_or_letter
                           (Plus true (Class (fun c => mem c separators))))))
              (Cat (Star true ws)
                   (Cat number_or_letter
                        (Plus true (Class (fun c => mem c end_separators)))))))
      (Cat (Star true ws)
           (Cat (Group 2 (Star false dot)) Eos)).

End Number.

End Regex.

Import Regex.

(* ================================================================== *)
(** ** [__internal_parsed_line.py] *)

Module Line.

Inductive BlockType := Indent | Bullet | Number.

Definition BlockType_eqb (a b : BlockType) : bool :=
  match a, b with
  | Indent, Indent | Bullet, Bullet | Number, Number => true
  | _, _ => false
  end.

Record ParsedLine := mkLine {
  indent : Z;
  is_empty : bool;
  is_list : bool;
  list_level : Z;
  bullet : str;
  number : str;
  text : str
}.

(** The dataclass constructor followed by [__post_init__], on arguments of
    the annotated types: only [list_level] is changed, clamped at -1. *)
Definition ParsedLine_init (indent : Z) (is_empty is_list : bool)
    (list_level : Z) (bullet number text : str) : ParsedLine :=
  mkLine indent is_empty is_list (Z.max list_level (-1)) bullet number text.

(** [line.indent = v] *)
Definition set_indent (v : Z) (l : ParsedLine) : ParsedLine :=
  mkLine v (is_empty l) (is_list l) (list_level l) (bullet l) (number l)
         (text l).

(** [line.list_level = v] *)
Definition set_list_level (v : Z) (l : ParsedLine) : ParsedLine :=
  mkLine (indent l) (is_empty l) (is_list l) v (bullet l) (number l) (text l).

(** [ParsedLine.offset_indent].  The records are mutated in place; the
    function returns the records after the call, in the order of [lines]
    (which is taken to hold each record once). *)
Definition offset_indent (lines : list ParsedLine) (offset : Z)
    (clamp_negative : bool) : list ParsedLine :=
  if (offset =? 0) || negb (truthy lines) then lines
  else if clamp_negative then
    map (fun line => set_indent (Z.max (indent line + offset) 0) line) lines
  else
    map (fun line => set_indent (indent line + offset) line) lines.

(** [min(x.indent for x in first :: rest)] *)
Definition min_indent_of (first : ParsedLine) (rest : list ParsedLine) : Z :=
  fold_left (fun m x => if indent x <? m then indent x else m) rest
            (indent first).

(** [ParsedLine.unindent]: the removed common indent and the records after
    the call. *)
Definition unindent (lines : list ParsedLine) (offset : Z)
    (clamp_negative : bool) : Z * list ParsedLine :=
  let lines_with_text := filter (fun x => negb (is_empty x)) lines in
  match lines_with_text with
  | [] => (0, lines)
  | first :: rest =>
      let common_indent := min_indent_of first rest in
      let lines' := offset_indent lines (offset - common_indent) true in
      let common_indent :=
        if clamp_negative then Z.max common_indent 0 else common_indent in
      (common_indent, lines')
  end.

(** [ParsedLine.block_type] *)
Definition block_type (dbg : bool) (self : ParsedLine) : result BlockType :=
  if negb (is_list self) then Ok Indent
  else if truthy (bullet self) then Ok Bullet
  else assert dbg (truthy (number self)) ;;; Ok Number.

(** [ParsedLine.block_id] *)
Definition block_id (self : ParsedLine) : Z * bool * bool * bool * bool :=
  (indent self, is_empty self, is_list self,
   truthy (bullet self), truthy (number self)).

Definition block_id_eqb (a b : Z * bool * bool * bool * bool) : bool :=
  match a, b with
  | (i1, e1, l1, b1, n1), (i2, e2, l2, b2, n2) =>
      (i1 =? i2) && Bool.eqb e1 e2 && Bool.eqb l1 l2 && Bool.eqb b1 b2
      && Bool.eqb n1 n2
  end.

End Line.

Import Line.

(* ================================================================== *)
(** ** [__internal_spaces_to_tabs.py] *)

Module Tabs.

(** [_t_lines_chunk]: pre-classified lines. *)
Definition lines_chunk := list (BlockType * ParsedLine).

Module StackLevelBlock.

Record _StackLevelBlock := mk {
  indent_spaces_abs : Z;
  indent_spaces_rel : Z;
  indent_tabs_abs : Z;
  list_level : Z;
  in_list : BlockType;
  block_type : BlockType;
  pending_lines : lines_chunk
}.

(** [_StackLevelBlock(pending_lines=...)]: the other fields at their
    defaults. *)
Definition root (pending_lines : lines_chunk) : _StackLevelBlock :=
  mk 0 0 0 (-1) Indent Indent pending_lines.

(** [self.copy(list_level=..., in_list=..., block_type=...,
    pending_lines=...)], the one way [copy] is called. *)
Definition copy (self : _StackLevelBlock) (list_level : Z)
    (in_list block_type : BlockType) (pending_lines : lines_chunk)
    : _StackLevelBlock :=
  mk (indent_spaces_abs self) (indent_spaces_rel self) (indent_tabs_abs self)
     list_level in_list block_type pending_lines.

End StackLevelBlock.

Import StackLevelBlock.

Module FirstExtractedSubBlock.

Record _FirstExtractedSubBlock := mk {
  common_indent : Z;
  extracted_is_final : bool;
  block_type : BlockType;
  extracted : lines_chunk;
  pending : lines_chunk
}.

(** The loop of [__detect_first_line_with_min_indent], from position [i]
    on, with the running minimum and its position. *)
Fixpoint detect_loop (i : nat) (acc : option (Z * nat))
    (pending_lines : lines_chunk) : option (Z * nat) :=
  match pending_lines with
  | [] => acc
  | (_, line) :: rest =>
      if is_empty line then detect_loop (S i) acc rest
      else
        let line_indent := indent line in
        match acc with
        | None => detect_loop (S i) (Some (line_indent, i)) rest
        | Some (min_indent, _) =>
            if line_indent <? min_indent
            then detect_loop (S i) (Some (line_indent, i)) rest
            else detect_loop (S i) acc rest
        end
  end.

(** [__detect_first_line_with_min_indent]: [None] stands for the pair
    [(None, None)]. *)
Definition detect_first_line_with_min_indent (pending_lines : lines_chunk)
    : option (Z * nat) :=
  detect_loop 0 None pending_lines.

(** The closing [for] loop of [extract_from_pending_block]: the leading
    lines that are empty or sit at indent zero with the first real line's
    type, and the lines from the first other one on. *)
Fixpoint split_first_chunk (first_real_line_type : BlockType)
    (lines : lines_chunk) : lines_chunk * lines_chunk :=
  match lines with
  | [] => ([], [])
  | (line_type, line) :: rest =>
      if is_empty line
         || ((indent line =? 0) && BlockType_eqb line_type first_real_line_type)
      then
        let (first_chunk, remaining_lines) :=
          split_first_chunk first_real_line_type rest in
        ((line_type, line) :: first_chunk, remaining_lines)
      else ([], lines)
  end.

(** [_FirstExtractedSubBlock.extract_from_pending_block] *)
Definition extract_from_pending_block (pending_lines : lines_chunk)
    : _FirstExtractedSubBlock :=
  if negb (truthy pending_lines) then mk 0 true Indent [] []
  else
    match detect_first_line_with_min_indent pending_lines with
    | None => mk 0 true Indent pending_lines []
    | Some (min_indent, first_real_line_with_min_indent_i) =>
        let first_real_line_type :=
          fst (nth first_real_line_with_min_indent_i pending_lines
                   (Indent, mkLine 0 true false (-1) [] [] [])) in
        if negb (min_indent =? 0) then
          mk min_indent false first_real_line_type pending_lines []
        else
          let first_chunk := firstn first_real_line_with_min_indent_i
                                    pending_lines in
          if (0 <? first_real_line_with_min_indent_i)%nat
             && negb (forallb (fun tl => is_empty (snd tl)) first_chunk)
          then
            mk 0 false first_real_line_type first_chunk
               (skipn first_real_line_with_min_indent_i pending_lines)
          else
            let (first_chunk, remaining_lines) :=
              split_first_chunk first_real_line_type pending_lines in
            mk 0 true first_real_line_type first_chunk remaining_lines
    end.

End FirstExtractedSubBlock.

Import FirstExtractedSubBlock.

(** [_binary_indent] *)
Definition _binary_indent (indent_spaces : Z) : Z :=
  if 0 <? indent_spaces then 1 else 0.

(** [__common_block_spaces_to_tabs__round_full_tabs].  Python computes
    [int(float(indent_spaces) / tab_size + 0.4999)] in binary64; here the
    quotient and the sum are exact, which gives the integer part of
    [(10000 * indent_spaces + 4999 * tab_size) / (10000 * tab_size)]. *)
Definition round_full_tabs (tab_size indent_spaces : Z) : Z :=
  if indent_spaces <? 1 then 0
  else
    Z.max ((10000 * indent_spaces + 4999 * tab_size) / (10000 * tab_size)) 1.

(** The same method with every operation rounded as binary64 does it, for
    arguments that [float] does not overflow on. *)
Module Binary64.

Definition prec := 53.
Definition emax := 1024.

(** [float(n)] *)
Definition of_int (n : Z) : spec_float := binary_normalize prec emax n 0 false.

(** [int(x)]: truncation towards zero. *)
Definition to_int (x : spec_float) : Z :=
  match x with
  | S754_finite s m e =>
      let v := if 0 <=? e then Z.pos m * 2 ^ e else Z.pos m / 2 ^ (- e) in
      if s then - v else v
  | _ => 0
  end.

(** The literal [0.4999]: the binary64 number nearest to 4999/10000. *)
Definition c_4999 : spec_float :=
  SFdiv prec emax (of_int 4999) (of_int 10000).

Definition round_full_tabs (tab_size indent_spaces : Z) : Z :=
  if indent_spaces <? 1 then 0
  else
    let tabs_f := SFdiv prec emax (of_int indent_spaces) (of_int tab_size) in
    Z.max (to_int (SFadd prec emax tabs_f c_4999)) 1.

End Binary64.

(** [SpaceToTabsConverter] after [__post_init__]. *)
Record SpaceToTabsConverter := mkConverter {
  minimize_indents : bool;
  tab_size : Z
}.

Definition SpaceToTabsConverter_init (minimize_indents : bool) (tab_size : Z)
    : SpaceToTabsConverter :=
  mkConverter minimize_indents (Z.max tab_size 1).

(** The attribute [_common_block_spaces_to_tabs] set by [__post_init__]. *)
Definition _common_block_spaces_to_tabs (self : SpaceToTabsConverter)
    (indent_spaces : Z) : Z :=
  if minimize_indents self then _binary_indent indent_spaces
  else round_full_tabs (tab_size self) indent_spaces.

(** [SpaceToTabsConverter.__detect_sub_block_list_level] *)
Definition detect_sub_block_list_level (dbg : bool)
    (parent_block : _StackLevelBlock) (child_type : BlockType)
    (child_indent : Z) : result (Z * BlockType) :=
  let parent_type := in_list parent_block in
  if negb (BlockType_eqb child_type Indent
           || BlockType_eqb child_type parent_type)
  then Ok (0, child_type)
  else
    assert dbg (-1 <? child_indent) ;;;
    if BlockType_eqb parent_type Indent then
      assert dbg (BlockType_eqb child_type Indent) ;;;
      Ok (-1, Indent)
    else
      assert dbg ((BlockType_eqb parent_type Bullet
                   || BlockType_eqb parent_type Number)
                  && (BlockType_eqb child_type Indent
                      || BlockType_eqb child_type parent_type)) ;;;
      Ok (StackLevelBlock.list_level parent_block + child_indent, parent_type).

(** The state of the [while] loop of [convert]; the head of
    [pending_stack] is the top of the stack. *)
Record walk := mkWalk {
  output : list ParsedLine;
  pending_stack : list _StackLevelBlock
}.

(** The local function [flush_to_output]: the records after the two
    assignments, as they are appended to [output]. *)
Definition flush_to_output (lines_list : list ParsedLine)
    (_tab_indent _list_level : Z) : list ParsedLine :=
  map (fun line => set_list_level _list_level (set_indent _tab_indent line))
      lines_list.

(** The in-place [offset_indent] over the lines of a chunk, as [convert]
    calls it on a generator (which is never false, unlike an empty list:
    no difference, the chunk is not empty). *)
Definition offset_chunk (chunk : lines_chunk) (offset : Z) : lines_chunk :=
  combine (map fst chunk) (offset_indent (map snd chunk) offset true).

(** One iteration of the [while] loop of [convert], on a stack whose top
    [active_block] has been popped. *)
Definition iteration (dbg : bool) (self : SpaceToTabsConverter)
    (output : list ParsedLine) (active_block : _StackLevelBlock)
    (stack : list _StackLevelBlock) : result walk :=
  let pending_lines := pending_lines active_block in
  if negb (truthy pending_lines) then Ok (mkWalk output stack)
  else
    let split := extract_from_pending_block pending_lines in
    if extracted_is_final split then
      assert dbg ((common_indent split =? 0) && negb (truthy (pending split))) ;;;
      let output := output ++ flush_to_output (map snd (extracted split))
                                (indent_tabs_abs active_block)
                                (StackLevelBlock.list_level active_block) in
      let pending_lines := pending split in
      if truthy pending_lines then
        let block_type := FirstExtractedSubBlock.block_type split in
        r <- detect_sub_block_list_level dbg active_block block_type 0 ;;
        let (list_level, in_list) := r in
        Ok (mkWalk output
              (copy active_block list_level in_list block_type pending_lines
               :: stack))
      else Ok (mkWalk output stack)
    else
      let extracted := extracted split in
      assert dbg (truthy extracted) ;;;
      if negb (common_indent split =? 0) then
        assert dbg (negb (extracted_is_final split)
                    && negb (truthy (pending split)) && truthy extracted
                    && (length extracted =? length pending_lines)%nat) ;;;
        let common_indent_spaces := common_indent split in
        let block_type := FirstExtractedSubBlock.block_type split in
        let extracted := offset_chunk extracted (- common_indent_spaces) in
        let local_tab_offset :=
          _common_block_spaces_to_tabs self common_indent_spaces in
        r <- detect_sub_block_list_level dbg active_block block_type
               local_tab_offset ;;
        let (list_level, in_list) := r in
        Ok (mkWalk output
              (StackLevelBlock.mk
                 (indent_spaces_abs active_block + common_indent_spaces)
                 common_indent_spaces
                 (indent_tabs_abs active_block + local_tab_offset)
                 list_level in_list block_type extracted
               :: stack))
      else
        let pending_lines := pending split in
        assert dbg (truthy pending_lines) ;;;
        match pending_lines with
        | [] => Raise IndexError
        | (block_type, first_pending_line) :: _ =>
            assert dbg ((indent first_pending_line =? 0)
                        && negb (is_empty first_pending_line)) ;;;
            r <- detect_sub_block_list_level dbg active_block block_type 0 ;;
            let (list_level, in_list) := r in
            let pending_parent_block :=
              copy active_block list_level in_list block_type pending_lines in
            r <- detect_sub_block_list_level dbg pending_parent_block
                   Indent 0 ;;
            let (list_level, in_list) := r in
            let sub_indented_first_block :=
              copy active_block list_level in_list Indent extracted in
            Ok (mkWalk output
                  (sub_indented_first_block :: pending_parent_block :: stack))
        end.

(** The [while pending_stack:] loop, for at most [fuel] iterations;
    [OutOfFuel] when the stack is not empty after them. *)
Fixpoint walk_loop (dbg : bool) (self : SpaceToTabsConverter) (fuel : nat)
    (w : walk) : result (list ParsedLine) :=
  match pending_stack w with
  | [] => Ok (output w)
  | active_block :: stack =>
      match fuel with
      | O => OutOfFuel
      | S fuel' =>
          w' <- iteration dbg self (output w) active_block stack ;;
          walk_loop dbg self fuel' w'
      end
  end.

(** [SpaceToTabsConverter.convert], cut after [fuel] iterations. *)
Definition convert_fuel (dbg : bool) (self : SpaceToTabsConverter)
    (fuel : nat) (input_lines : list ParsedLine)
    : result (list ParsedLine) :=
  classified <- mapM (fun x => t <- Line.block_type dbg x ;; Ok (t, x))
                     input_lines ;;
  walk_loop dbg self fuel (mkWalk [] [root classified]).

(** [SpaceToTabsConverter.convert], with a budget of four iterations for
    each line and one more, which the walk never uses up
    ([convert_ends]). *)
Definition convert (dbg : bool) (self : SpaceToTabsConverter)
    (input_lines : list ParsedLine) : result (list ParsedLine) :=
  convert_fuel dbg self (4 * length input_lines + 1) input_lines.

End Tabs.

Import Tabs.

(* ================================================================== *)
(** ** [__defaults.py] and [_processor.py] *)

Module Processor.

(** [IN_BULLETS]: hyphen, asterisk and eighteen bullet glyphs. *)
Definition IN_BULLETS : str :=
  [45; 42; 8729; 8226; 11044; 10686; 10687; 9673; 9702; 9675; 10162; 8227;
   9658; 9642; 9632; 9724; 10147; 10146; 10148; 9733].

(** [OUT_BULLETS] *)
Definition OUT_BULLETS : str := [8226; 9675; 9632; 9658; 9733].

Definition TAB_SIZE : Z := 4.

(** A bullet argument: a string or an iterable of strings. *)
Inductive bullets_arg :=
| OfStr (s : str)
| OfIter (parts : list str).

(** [bool(seq)] for such an argument. *)
Definition bullets_truthy (seq : bullets_arg) : bool :=
  match seq with
  | OfStr s => truthy s
  | OfIter parts => truthy parts
  end.

(** The keyword arguments of [DocstringToText(...)] and of
    [_ArgsKey.clean_key(...)], before any cleanup. *)
Record Args := mkArgs {
  arg_indent_empty_lines : bool;
  arg_minimize_indents : bool;
  arg_list_with_indent : bool;
  arg_list_no_indent : bool;
  arg_tab_size : Z;
  arg_in_bullets : bullets_arg;
  arg_out_bullets : option bullets_arg
}.

(** The call with every argument left at its default. *)
Definition default_args : Args :=
  mkArgs false true true true TAB_SIZE (OfStr IN_BULLETS)
         (Some (OfStr OUT_BULLETS)).


Module ArgsKey.

Record _ArgsKey := mk {
  indent_empty_lines : bool;
  minimize_indents : bool;
  list_with_indent : bool;
  list_no_indent : bool;
  tab_size : Z;
  in_bullets : str;
  out_bullets : option str
}.

(** [__cleanup_bullets_attr_to_str] *)
Definition cleanup_bullets_attr_to_str (seq : bullets_arg) : str :=
  let seq_str := match seq with
                 | OfStr s => s
                 | OfIter parts => concat parts
                 end in
  remove_whitespace seq_str.

(** [any(x in s for x in ' \t\n\r')] *)
Definition any_blank_in (s : str) : bool :=
  existsb (fun x => mem x s) [SP; TAB; LF; 13].

(** [_ArgsKey.clean_key] *)
Definition clean_key (a : Args) : result _ArgsKey :=
  let in_bullets := cleanup_bullets_attr_to_str (arg_in_bullets a) in
  let in_bullets :=
    if negb (truthy in_bullets)
    then cleanup_bullets_attr_to_str (OfStr IN_BULLETS)
    else in_bullets in
  if negb (truthy in_bullets && negb (any_blank_in in_bullets))
  then Raise ValueError
  else
    let out_bullets :=
      match arg_out_bullets a with
      | Some raw => if bullets_truthy raw
                    then Some (cleanup_bullets_attr_to_str raw) else None
      | None => None
      end in
    let out_bullets :=
      match out_bullets with
      | Some s => if negb (truthy s) then None else Some s
      | None => None
      end in
    if negb (match out_bullets with
             | None => true
             | Some s => truthy s && negb (any_blank_in s)
             end)
    then Raise ValueError
    else
      let tab_size := Z.max (arg_tab_size a) 1 in
      Ok (mk (arg_indent_empty_lines a) (arg_minimize_indents a)
             (arg_list_with_indent a) (arg_list_no_indent a)
             tab_size in_bullets out_bullets).

End ArgsKey.

Import ArgsKey.

(** [_re_bullet_match_factory] on a string argument: the compiled pattern,
    or [ValueError]. *)
Definition _re_bullet_match_factory (in_bullets : str) : result regex :=
  if negb (truthy in_bullets) then Raise ValueError
  else if matched (re_search _re_has_whitespaces in_bullets)
  then Raise ValueError
  else if matched (re_search _re_has_alphanumeric in_bullets)
  then Raise ValueError
  else Ok (bullet_pattern in_bullets).

(** A [DocstringToText] instance after [__post_init__].  Of the cached
    callables, [_re_bullet_match] is kept as its compiled pattern and
    [_pass2_change_indents_to_tabs] as the converter whose [convert] it
    is; [_out_bullet_get] is decided by [out_bullets]. *)
Record DocstringToText := mkProcessor {
  indent_empty_lines : bool;
  minimize_indents : bool;
  list_with_indent : bool;
  list_no_indent : bool;
  tab_size : Z;
  in_bullets : str;
  out_bullets : option str;
  _out_bullets_n : Z;
  _re_bullet_match : regex;
  _pass2_change_indents_to_tabs : SpaceToTabsConverter
}.

(** [DocstringToText(...)]: [__new__] cleans the arguments for the pool
    key, the generated [__init__] stores the raw ones and [__post_init__]
    cleans them again and builds the cached attributes.  The instance pool
    decides which object is returned, not what its attributes are, and is
    left out. *)
Definition DocstringToText_new (a : Args) : result DocstringToText :=
  _ <- clean_key a ;;
  args_key <- clean_key a ;;
  let out_bullets_n :=
    match ArgsKey.out_bullets args_key with
    | Some s => if truthy s then len s else 1
    | None => 1
    end in
  re_bullet_match <- _re_bullet_match_factory (ArgsKey.in_bullets args_key) ;;
  let pass2 :=
    if negb (ArgsKey.minimize_indents args_key
             && (ArgsKey.tab_size args_key =? TAB_SIZE))
    then SpaceToTabsConverter_init (ArgsKey.minimize_indents args_key)
                                   (ArgsKey.tab_size args_key)
    else SpaceToTabsConverter_init true TAB_SIZE in
  Ok (mkProcessor
        (ArgsKey.indent_empty_lines args_key)
        (ArgsKey.minimize_indents args_key)
        (ArgsKey.list_with_indent args_key)
        (ArgsKey.list_no_indent args_key)
        (ArgsKey.tab_size args_key)
        (ArgsKey.in_bullets args_key)
        (ArgsKey.out_bullets args_key)
        out_bullets_n re_bullet_match pass2).

(** The [while indent_str:] loop of [__detect_indent], for at most [fuel]
    iterations. *)
Fixpoint detect_indent_loop (fuel : nat) (tab_size : Z) (indent_str : str)
    (full_tabs pending_spaces : Z) : result Z :=
  if negb (truthy indent_str) then Ok (full_tabs * tab_size + pending_spaces)
  else
    match fuel with
    | O => OutOfFuel
    | S fuel' =>
        match re_match _re_indent_parse_ indent_str with
        | None => Raise AttributeError
        | Some m =>
            let tabs_str := group_or_empty 1 m in
            let spaces_str := group_or_empty 2 m in
            let indent_str := group_or_empty 3 m in
            let pending_spaces := len spaces_str in
            let current_space_tabs := pending_spaces / tab_size in
            let pending_spaces := pending_spaces mod tab_size in
            detect_indent_loop fuel' tab_size indent_str
              (full_tabs + (len tabs_str + current_space_tabs)) pending_spaces
        end
    end.

(** [DocstringToText.__detect_indent], with the length of [indent_str] as
    budget: an iteration that matches shortens the string. *)
Definition detect_indent (self : DocstringToText) (indent_str : str)
    : result Z :=
  if negb (truthy indent_str) then Ok 0
  else detect_indent_loop (length indent_str) (tab_size self) indent_str 0 0.

Section ParseLine.

Variable unicode_decimal : char -> bool.

(** [DocstringToText.__parse_line].  In the last branch the record for an
    empty line is built and dropped: the statement has no [return]. *)
Definition parse_line (self : DocstringToText) (line : str)
    : result ParsedLine :=
  let text := rstrip line in
  match re_match _re_indent_match_ text with
  | None => Ok (ParsedLine_init 0 true false (-1) [] [] [])
  | Some m =>
      let indent_str := group_or_empty 1 m in
      let text := group_or_empty 2 m in
      indent <- detect_indent self indent_str ;;
      match re_match (_re_bullet_match self) text with
      | Some m =>
          let bullet := group_or_empty 1 m in
          let text := group_or_empty 2 m in
          Ok (ParsedLine_init indent false true (-1) bullet [] text)
      | None =>
          match re_match (_re_number_match_ unicode_decimal) text with
          | Some m =>
              let number := group_or_empty 1 m in
              let text := group_or_empty 2 m in
              Ok (ParsedLine_init indent false true (-1) [] number text)
          | None =>
              let _ := if negb (truthy text)
                       then Some (ParsedLine_init 0 true false (-1) [] [] [])
                       else None in
              Ok (ParsedLine_init indent false false (-1) [] [] text)
          end
      end
  end.

End ParseLine.

(** [DocstringToText.__flush_raw_active_block]: the list [joined_blocks]
    after the call; [pending_block] is empty after it. *)
Definition flush_raw_active_block (dbg : bool)
    (pending_block joined_blocks : list ParsedLine)
    : result (list ParsedLine) :=
  match pending_block with
  | [] => Ok joined_blocks
  | first :: block_iter =>
      let first_id := block_id first in
      assert dbg (forallb (fun x => block_id_eqb (block_id x) first_id)
                          block_iter) ;;;
      if is_list first || is_empty first then
        Ok (joined_blocks ++ pending_block)
      else
        let joined_text := join [SP] (map text pending_block) in
        Ok (joined_blocks
            ++ [ParsedLine_init (indent first) false false (-1) [] []
                                joined_text])
  end.

(** The local variables of [__pass1_join_raw_blocks] that its loop
    changes. *)
Record pass1_state := mkPass1 {
  joined_blocks : list ParsedLine;
  pending_block : list ParsedLine;
  active_indent : Z;
  active_block : BlockType;
  is_after_empty_line : bool
}.

(** The body of [for line in parsed_text:]. *)
Definition pass1_body (dbg : bool) (st : pass1_state) (line : ParsedLine)
    : result pass1_state :=
  if is_empty line then
    if is_after_empty_line st then
      Ok (mkPass1 (joined_blocks st) (pending_block st ++ [line])
                  (active_indent st) (active_block st) true)
    else
      joined <- flush_raw_active_block dbg (pending_block st)
                                       (joined_blocks st) ;;
      Ok (mkPass1 joined [] (active_indent st) (active_block st) true)
  else
    st <- (if is_after_empty_line st then
             joined <- flush_raw_active_block dbg (pending_block st)
                                              (joined_blocks st) ;;
             Ok (mkPass1 joined [] (active_indent st) (active_block st) false)
           else Ok st) ;;
    let line_indent := indent line in
    line_block <- Line.block_type dbg line ;;
    st <- (if negb ((line_indent =? active_indent st)
                    && BlockType_eqb line_block (active_block st))
           then
             joined <- flush_raw_active_block dbg (pending_block st)
                                              (joined_blocks st) ;;
             Ok (mkPass1 joined [] line_indent line_block
                         (is_after_empty_line st))
           else Ok st) ;;
    Ok (mkPass1 (joined_blocks st) (pending_block st ++ [line])
                (active_indent st) (active_block st)
                (is_after_empty_line st)).

Fixpoint pass1_loop (dbg : bool) (st : pass1_state)
    (parsed_text : list ParsedLine) : result pass1_state :=
  match parsed_text with
  | [] => Ok st
  | line :: rest =>
      st' <- pass1_body dbg st line ;;
      pass1_loop dbg st' rest
  end.

(** [DocstringToText.__pass1_join_raw_blocks]: the removed common indent
    and [joined_blocks]. *)
Definition pass1_join_raw_blocks (dbg : bool) (parsed_text : list ParsedLine)
    : result (Z * list ParsedLine) :=
  let (common_indent, parsed_text) := unindent parsed_text 0 true in
  st <- pass1_loop dbg (mkPass1 [] [] 0 Indent false) parsed_text ;;
  Ok (common_indent, joined_blocks st).


(** What the formatting step can raise, and the parsing steps cannot. *)
Module Fmt.

Inductive exn :=
| ZeroDivisionError
| TypeError
| IndexError.

(** [s[i]] on a string: the character at index [i] as a string, counted
    from the end for a negative [i]. *)
Definition index (s : str) (i : Z) : str + exn :=
  let n := len s in
  let j := if i <? 0 then i + n else i in
  if (0 <=? j) && (j <? n) then inl [nth (Z.to_nat j) s 0]
  else inr IndexError.

End Fmt.

(** [DocstringToText.__out_bullet_get__intact] *)
Definition out_bullet_get_intact (line : ParsedLine) (bullet_level : Z)
    : str :=
  bullet line.

(** [DocstringToText.__out_bullet_get__with_bullet_replacement]; the
    remainder has the sign of the divisor, as Python's has. *)
Definition out_bullet_get_with_bullet_replacement (self : DocstringToText)
    (line : ParsedLine) (bullet_level : Z) : str + Fmt.exn :=
  if _out_bullets_n self =? 0 then inr Fmt.ZeroDivisionError
  else
    let i := bullet_level mod _out_bullets_n self in
    match out_bullets self with
    | None => inr Fmt.TypeError
    | Some s => Fmt.index s i
    end.

(** The attribute [_out_bullet_get], which [__post_init__] sets by
    [if out_bullets:]. *)
Definition _out_bullet_get (self : DocstringToText) (line : ParsedLine)
    (bullet_level : Z) : str + Fmt.exn :=
  match out_bullets self with
  | Some s =>
      if truthy s
      then out_bullet_get_with_bullet_replacement self line bullet_level
      else inl (out_bullet_get_intact line bullet_level)
  | None => inl (out_bullet_get_intact line bullet_level)
  end.

(** [int(float(max(indent, 0)) / tab_size + 0.50001)] for a [tab_size]
    other than 0, with the quotient and the sum taken exactly; [int]
    truncates towards zero. *)
Definition format_tabs (tab_size indent : Z) : Z :=
  Z.quot (100000 * Z.max indent 0 + 50001 * tab_size) (100000 * tab_size).

(** The same with every operation rounded as binary64 does it, for
    arguments that [float] does not overflow on. *)
Definition format_tabs_binary64 (tab_size indent : Z) : Z :=
  Binary64.to_int
    (SFadd Binary64.prec Binary64.emax
       (SFdiv Binary64.prec Binary64.emax
          (Binary64.of_int (Z.max indent 0)) (Binary64.of_int tab_size))
       (SFdiv Binary64.prec Binary64.emax
          (Binary64.of_int 50001) (Binary64.of_int 100000))).


Section ParseToBlocks.

Variable unicode_decimal : char -> bool.


End ParseToBlocks.

End Processor.

Import Processor.

(* ================================================================== *)
(** ** Notions the statements use *)

Module Notions.

(** The number of tab characters of a string. *)
Definition count_tabs (s : str) : Z := len (filter (fun c => c =? TAB) s).

(** The lengths of the maximal runs of characters other than the tab, from
    left to right, where [cur] such characters stand before [s]: a run
    (possibly of length 0) ends at every tab and at the end of the
    string. *)
Fixpoint runs_from (cur : Z) (s : str) : list Z :=
  match s with
  | [] => [cur]
  | c :: s' => if c =? TAB then cur :: runs_from 0 s'
               else runs_from (cur + 1) s'
  end.

Definition space_runs (s : str) : list Z := runs_from 0 s.

(** The length of the rightmost run: the characters after the last tab. *)
Definition final_space_run (s : str) : Z := last (space_runs s) 0.

(** The runs that are followed by a tab. *)
Definition inner_space_runs (s : str) : list Z := removelast (space_runs s).

(** The whole tabs the runs [runs] are worth: the sum of [r / tab_size]. *)
Definition whole_tabs (tab_size : Z) (runs : list Z) : Z :=
  fold_right (fun r acc => r / tab_size + acc) 0 runs.


(** The text of a bullet argument: the string itself, or the strings of
    the iterable put together. *)
Definition bullets_text (b : bullets_arg) : str :=
  match b with
  | OfStr s => s
  | OfIter parts => concat parts
  end.

Definition is_ascii_alnum (c : char) : bool :=
  is_ascii_letter c || is_ascii_digit c.

(** An invalid bullet set: empty, or with a whitespace character, or with
    an ASCII letter or digit. *)
Definition invalid_bullet_set (s : str) : bool :=
  negb (truthy s) || existsb is_space s || existsb is_ascii_alnum s.

(** The bullet set [clean_key] keeps. *)
Definition cleaned_in_bullets (a : Args) : str :=
  let s := ArgsKey.cleanup_bullets_attr_to_str (arg_in_bullets a) in
  if truthy s then s else IN_BULLETS.

(** The cached flags of a record agree with its strings: [is_list] says
    that there is a bullet or a number, never both, and [is_empty] that
    there is neither of them nor text. *)
Definition flags_consistent (l : ParsedLine) : bool :=
  Bool.eqb (is_list l) (truthy (bullet l) || truthy (number l))
  && negb (truthy (bullet l) && truthy (number l))
  && Bool.eqb (is_empty l)
              (negb (truthy (bullet l) || truthy (number l) || truthy (text l))).

(** The minimum indent over the non-empty lines, when there is one. *)
Definition min_indent_nonempty (lines : list ParsedLine) : option Z :=
  match filter (fun x => negb (is_empty x)) lines with
  | [] => None
  | first :: rest => Some (min_indent_of first rest)
  end.



(** What Pass 2 leaves of a record: everything but [indent] and
    [list_level]. *)
Definition content (l : ParsedLine) : bool * bool * str * str * str :=
  (Line.is_empty l, Line.is_list l, Line.bullet l, Line.number l,
   Line.text l).

(** A record as Pass 2 emits it: a number of tabs, and a list level that is
    -1 or a nesting depth. *)
Definition emitted (l : ParsedLine) : Prop :=
  0 <= Line.indent l /\ -1 <= Line.list_level l.

Definition level_ok (b : StackLevelBlock._StackLevelBlock) : Prop :=
  0 <= StackLevelBlock.indent_tabs_abs b /\ -1 <= StackLevelBlock.list_level b.

(** The records the stack still holds, in the order they will be emitted:
    the top of the stack first. *)
Definition waiting (stack : list StackLevelBlock._StackLevelBlock)
    : list ParsedLine :=
  concat (map (fun b => map snd (StackLevelBlock.pending_lines b)) stack).

(** The measure of the walk: a level with [n] pending lines weighs
    [4 n - 3], one more while its block still has a common indent; an empty
    level weighs 1. *)
Definition weight (pl : lines_chunk) : nat :=
  match pl with
  | [] => 1
  | _ => 4 * length pl - 3
         + (if FirstExtractedSubBlock.common_indent
                 (FirstExtractedSubBlock.extract_from_pending_block pl) =? 0
            then 0 else 1)
  end.

Definition potential (stack : list StackLevelBlock._StackLevelBlock) : nat :=
  fold_right (fun b acc => (weight (StackLevelBlock.pending_lines b) + acc)%nat)
             0%nat stack.

(** The instance [DocstringToText()] with every argument at its default. *)
Definition default_processor : DocstringToText :=
  mkProcessor false true true true 4 IN_BULLETS (Some OUT_BULLETS) 5
              (bullet_pattern IN_BULLETS) (mkConverter true 4).

(** What a pattern can do on an input: [steps r s c s' c'] says that [r]
    can match the text between [s] and its suffix [s'], turning the groups
    [c] into [c']. *)
Inductive steps : regex -> str -> captures -> str -> captures -> Prop :=
| steps_class p x s c :
    p x = true -> steps (Class p) (x :: s) c s c
| steps_cat r1 r2 s c s1 c1 s2 c2 :
    steps r1 s c s1 c1 -> steps r2 s1 c1 s2 c2 ->
    steps (Cat r1 r2) s c s2 c2
| steps_alt_l r1 r2 s c s1 c1 :
    steps r1 s c s1 c1 -> steps (Alt r1 r2) s c s1 c1
| steps_alt_r r1 r2 s c s1 c1 :
    steps r2 s c s1 c1 -> steps (Alt r1 r2) s c s1 c1
| steps_star_0 g r s c :
    steps (Star g r) s c s c
| steps_star_S g r s c s1 c1 s2 c2 :
    steps r s c s1 c1 -> steps (Star g r) s1 c1 s2 c2 ->
    steps (Star g r) s c s2 c2
| steps_group i r s c s1 c1 :
    steps r s c s1 c1 -> steps (Group i r) s c s1 ((i, consumed s s1) :: c1)
| steps_eos s c :
    s = [] \/ s = [LF] -> steps Eos s c s c.

(** What a numeration can begin with: whitespace, a decimal digit or an
    ASCII letter. *)
Definition number_start (unicode_decimal : char -> bool) (x : char) : bool :=
  is_space x || unicode_decimal x || is_ascii_letter x.

(** Whether a line body (a line without its indent and its trailing
    whitespace) begins as a bullet item for the bullet set [B]: with
    characters of [B] that whitespace or nothing follows. *)
Definition bullet_item (B body : str) : bool :=
  match take_while (fun c => mem c B) body,
        drop_while (fun c => mem c B) body with
  | [], _ => false
  | _ :: _, [] => true
  | _ :: _, x :: _ => is_space x
  end.

(** The output bullets [clean_key] keeps: the argument without its
    whitespace, or [None] when nothing is left. *)
Definition cleaned_out_bullets (a : Args) : option str :=
  match arg_out_bullets a with
  | Some raw =>
      let s := remove_whitespace (bullets_text raw) in
      if truthy s then Some s else None
  | None => None
  end.


(** A record as [__parse_line] builds it for a line without line feed:
    not empty, a list item exactly when it has a bullet or a number, never
    with both. *)
Definition parsed_ok (l : ParsedLine) : bool :=
  negb (is_empty l)
  && Bool.eqb (is_list l) (truthy (bullet l) || truthy (number l))
  && negb (truthy (bullet l) && truthy (number l)).

(** The invariant of the loop of Pass 1 on such records: no empty line has
    been met, and the pending lines sit at the active indent and are of
    the active block type. *)
Definition pass1_parsed_inv (st : pass1_state) : Prop :=
  is_after_empty_line st = false
  /\ Forall (fun l => parsed_ok l = true
                      /\ indent l = active_indent st
                      /\ Line.block_type true l = Ok (active_block st))
            (pending_block st).

(** The characters of a record that are no whitespace: of its bullet, its
    number and its text, in this order. *)
Definition characters (l : ParsedLine) : str :=
  remove_whitespace (bullet l ++ number l ++ text l).

End Notions.

(* ================================================================== *)
(** ** Tactics *)

(** An assertion at the head of a computation that has returned held. *)
Ltac split_asserts H :=
  repeat lazymatch type of H with
         | Py.bind (assert true ?c) _ = _ =>
             destruct c; unfold assert at 1 in H;
             cbn [andb negb Py.bind] in H; [|discriminate H]
         end.

Ltac inv H := inversion H; subst; clear H.

Import Notions.

(* ================================================================== *)
(** * Properties *)

(** ** The matcher on the patterns of the package *)

Lemma drop_while_length {A} (p : A -> bool) (l : list A) :
  (length (drop_while p l) <= length l)%nat.
Proof.
  induction l as [|x l IH]; simpl; [lia|].
  destruct (p x); simpl; lia.
Qed.

Lemma mem_cons (c x : char) (s : str) :
  mem c (x :: s) = (c =? x) || mem c s.
Proof. reflexivity. Qed.

Lemma run_class (p : char -> bool) (s : str) (c : captures) (k : cont) :
  run (Class p) s c k =
  match s with
  | x :: s' => if p x then k s' c else None
  | [] => None
  end.
Proof. reflexivity. Qed.

Lemma star_loop_S (greedy : bool)
    (body : str -> captures -> cont -> option captures) (k : cont)
    (fuel : nat) (s : str) (c : captures) :
  star_loop greedy body k (S fuel) s c =
  let again :=
    body s c (fun s1 c1 =>
      if (length s1 <? length s)%nat
      then star_loop greedy body k fuel s1 c1
      else None) in
  if greedy then orelse again (k s c) else orelse (k s c) again.
Proof. reflexivity. Qed.

Lemma star_loop_nil (greedy : bool)
    (body : str -> captures -> cont -> option captures) (k : cont)
    (fuel : nat) (c : captures) :
  (forall c' k', body [] c' k' = None) ->
  star_loop greedy body k fuel [] c = k [] c.
Proof.
  intros Hb. destruct fuel; [reflexivity|].
  rewrite star_loop_S. cbv zeta. rewrite Hb.
  destruct greedy; simpl; destruct (k [] c); reflexivity.
Qed.

Lemma ltb_tail {A} (x : A) (s : list A) :
  (length s <? length (x :: s))%nat = true.
Proof. apply Nat.ltb_lt. simpl. lia. Qed.

(** A greedy star over a character class hands the longest run to its
    continuation first. *)
Lemma star_greedy_class (p : char -> bool) (k : cont) (r : captures) :
  forall (fuel : nat) (s : str) (c : captures),
    (length s <= fuel)%nat ->
    k (drop_while p s) c = Some r ->
    star_loop true (run (Class p)) k fuel s c = Some r.
Proof.
  induction fuel as [|fuel IH]; intros s c Hlen Hk.
  - destruct s; simpl in *; [assumption | lia].
  - rewrite star_loop_S. cbv zeta. rewrite run_class.
    destruct s as [|x s'].
    + simpl in *. assumption.
    + simpl in Hk. simpl in Hlen. destruct (p x) eqn:Hp.
      * rewrite ltb_tail. rewrite (IH s' c ltac:(lia) Hk). reflexivity.
      * simpl. assumption.
Qed.

(** A lazy star over [.] in front of a continuation that only accepts the
    end of the input runs to the end of a string without line feed. *)
Lemma star_lazy_dot (k : cont) :
  (forall s c, s <> [] -> mem LF s = false -> k s c = None) ->
  forall (fuel : nat) (s : str) (c : captures),
    (length s <= fuel)%nat ->
    mem LF s = false ->
    star_loop false (run dot) k fuel s c = k [] c.
Proof.
  intros Hk. induction fuel as [|fuel IH]; intros s c Hlen Hlf.
  - destruct s; simpl in *; [reflexivity | lia].
  - rewrite star_loop_S. cbv zeta. unfold dot at 1. rewrite run_class.
    destruct s as [|x s'].
    + simpl. destruct (k [] c); reflexivity.
    + rewrite (Hk (x :: s') c ltac:(discriminate) Hlf). cbn [orelse].
      rewrite mem_cons in Hlf. apply orb_false_elim in Hlf.
      destruct Hlf as [Hx Hs'].
      rewrite Z.eqb_sym in Hx. rewrite Hx. cbn [negb]. cbv beta iota.
      rewrite ltb_tail. simpl in Hlen. apply IH; [lia | exact Hs'].
Qed.

Lemma mem_drop_while (p : char -> bool) (x : char) (s : str) :
  mem x s = false -> mem x (drop_while p s) = false.
Proof.
  induction s as [|y s IH]; intros H; [reflexivity|].
  simpl drop_while. destruct (p y); [|exact H].
  rewrite mem_cons in H. apply orb_false_elim in H. apply IH, H.
Qed.

Lemma consumed_nil (s : str) : consumed s [] = s.
Proof. unfold consumed. simpl. rewrite Nat.sub_0_r. apply firstn_all. Qed.

Lemma consumed_length (s s' : str) :
  (length s' <= length s)%nat ->
  length (consumed s s') = (length s - length s')%nat.
Proof. intros H. unfold consumed. rewrite length_firstn. lia. Qed.

(** What [_re_indent_parse_] returns on a string without line feed: the
    leading tabs, the run of other characters after them, and the rest. *)
Lemma indent_parse_match (s : str) :
  mem LF s = false ->
  let s1 := drop_while (fun c => c =? TAB) s in
  let s2 := drop_while (fun c => negb (c =? TAB)) s1 in
  re_match _re_indent_parse_ s
  = Some [(3%nat, s2); (2%nat, consumed s1 s2); (1%nat, consumed s s1)].
Proof.
  intros Hlf s1 s2.
  unfold re_match, _re_indent_parse_. cbn [run].
  apply star_greedy_class; [lia|]. fold s1.
  apply star_greedy_class; [lia|]. fold s2.
  rewrite star_lazy_dot.
  - simpl. rewrite consumed_nil. reflexivity.
  - intros t c Hne Ht. destruct t as [|x t]; [congruence|].
    rewrite mem_cons in Ht. apply orb_false_elim in Ht.
    destruct Ht as [Hx _]. rewrite Z.eqb_sym in Hx.
    cbn [run]. destruct t; [rewrite Hx|]; reflexivity.
  - lia.
  - unfold s2, s1. apply mem_drop_while, mem_drop_while, Hlf.
Qed.

(* ================================================================== *)
(** ** The tests of [__regex_line_parse_test.py] on the embedding

    Every case of the repository's tests of its patterns, inputs and
    expected groups as lists of code points; [\d] is taken at the ASCII
    digits, the only ones the tests use. *)

(** [test__re_indent_match_] *)
Example test_re_indent_match :
  map (groups 2 _re_indent_match_)
  [[];
   [32; 32];
   [9];
   [32; 32; 9; 32; 32];
   [32; 32; 9; 32; 32; 45; 32; 122; 120; 99];
   [32; 32; 113; 113; 113];
   [9; 96; 97; 115; 100];
   [32; 32; 9; 32; 32; 58; 32; 113; 119; 101];
   [32; 32; 9; 32; 32; 124; 32; 76; 111; 114; 101; 109; 32; 105; 112; 115; 117; 109; 33; 32; 68; 111; 108; 111; 114; 32; 115; 105; 116; 32; 97; 109; 101; 116; 46; 46; 46; 32; 32; 32];
   [126; 76; 111; 114; 101; 109; 32; 105; 112; 115; 117; 109; 33; 32; 68; 111; 108; 111; 114; 32; 115; 105; 116; 32; 97; 109; 101; 116; 46; 46; 46; 32; 32; 32; 9; 32]]
  = [Some [[]; []];
   Some [[32; 32]; []];
   Some [[9]; []];
   Some [[32; 32; 9; 32; 32]; []];
   Some [[32; 32; 9; 32; 32]; [45; 32; 122; 120; 99]];
   Some [[32; 32]; [113; 113; 113]];
   Some [[9]; [96; 97; 115; 100]];
   Some [[32; 32; 9; 32; 32]; [58; 32; 113; 119; 101]];
   Some [[32; 32; 9; 32; 32]; [124; 32; 76; 111; 114; 101; 109; 32; 105; 112; 115; 117; 109; 33; 32; 68; 111; 108; 111; 114; 32; 115; 105; 116; 32; 97; 109; 101; 116; 46; 46; 46; 32; 32; 32]];
   Some [[]; [126; 76; 111; 114; 101; 109; 32; 105; 112; 115; 117; 109; 33; 32; 68; 111; 108; 111; 114; 32; 115; 105; 116; 32; 97; 109; 101; 116; 46; 46; 46; 32; 32; 32; 9; 32]]].
Proof. vm_compute. reflexivity. Qed.

(** [test__re_indent_parse_] *)
Example test_re_indent_parse :
  map (groups 3 _re_indent_parse_)
  [[];
   [32];
   [32; 32; 32];
   [32; 32; 9; 32];
   [9];
   [9; 9; 9];
   [9; 32; 32];
   [9; 9; 32; 9; 32; 9; 9];
   [9; 13; 9];
   [9; 32; 13; 32; 9; 32; 13; 32; 9; 32];
   [32; 32; 13; 32; 32; 9; 32];
   [9; 9; 9; 46; 58; 45; 113; 113; 113; 32; 97; 115; 100; 102; 33; 32; 126; 32; 9; 32; 61; 32; 33; 33; 33; 32; 100; 100; 100];
   [9; 9; 9; 46; 58; 45; 113; 113; 113; 32; 97; 115; 100; 102; 33; 32; 126; 32; 9; 32; 61; 32; 33; 33; 33; 32; 100; 100; 100; 32; 9; 32; 122; 122; 122; 32; 13; 9; 32; 97; 97; 97; 32; 9]]
  = [Some [[]; []; []];
   Some [[]; [32]; []];
   Some [[]; [32; 32; 32]; []];
   Some [[]; [32; 32]; [9; 32]];
   Some [[9]; []; []];
   Some [[9; 9; 9]; []; []];
   Some [[9]; [32; 32]; []];
   Some [[9; 9]; [32]; [9; 32; 9; 9]];
   Some [[9]; [13]; [9]];
   Some [[9]; [32; 13; 32]; [9; 32; 13; 32; 9; 32]];
   Some [[]; [32; 32; 13; 32; 32]; [9; 32]];
   Some [[9; 9; 9]; [46; 58; 45; 113; 113; 113; 32; 97; 115; 100; 102; 33; 32; 126; 32]; [9; 32; 61; 32; 33; 33; 33; 32; 100; 100; 100]];
   Some [[9; 9; 9]; [46; 58; 45; 113; 113; 113; 32; 97; 115; 100; 102; 33; 32; 126; 32]; [9; 32; 61; 32; 33; 33; 33; 32; 100; 100; 100; 32; 9; 32; 122; 122; 122; 32; 13; 9; 32; 97; 97; 97; 32; 9]]].
Proof. vm_compute. reflexivity. Qed.

(** [test__re_number_match_] *)
Example test_re_number_match :
  map (groups 2 (_re_number_match_ is_ascii_digit))
  [[];
   [49];
   [49; 46];
   [49; 46; 32; 32; 32];
   [49; 46; 32; 32; 32; 116; 120; 116];
   [49; 50; 51; 58; 32; 116; 120; 116];
   [49; 50; 51; 46; 10; 52; 53; 54; 46; 55; 56; 57; 46; 32; 9; 113; 113; 113];
   [49; 50; 51; 126; 52; 53; 54; 96; 55; 56; 57; 58; 113; 113; 113];
   [97; 46; 98; 46; 99; 46; 32; 113; 113; 113];
   [97; 46; 98; 46; 99; 46; 113; 113; 113];
   [97; 46; 98; 46; 99; 46; 113; 113; 113; 46];
   [97; 45; 98; 45; 99; 41; 113; 113; 113];
   [97; 96; 98; 39; 99; 126; 100; 58; 32; 113; 113; 113];
   [97; 97; 45; 98; 98; 45; 99; 99; 46; 113; 113; 113];
   [97; 45; 98; 98; 45; 99; 99; 46; 113; 113; 113];
   [97; 41; 98; 98; 45; 99; 99; 46; 113; 113; 113];
   [49; 45; 97; 44; 98; 46; 46; 46; 32; 113; 113; 113]]
  = [None;
   None;
   Some [[49; 46]; []];
   Some [[49; 46]; []];
   Some [[49; 46]; [116; 120; 116]];
   Some [[49; 50; 51; 58]; [116; 120; 116]];
   Some [[49; 50; 51; 46; 10; 52; 53; 54; 46; 55; 56; 57; 46]; [113; 113; 113]];
   Some [[49; 50; 51; 126; 52; 53; 54; 96; 55; 56; 57; 58]; [113; 113; 113]];
   Some [[97; 46; 98; 46; 99; 46]; [113; 113; 113]];
   Some [[97; 46; 98; 46; 99; 46]; [113; 113; 113]];
   Some [[97; 46; 98; 46; 99; 46]; [113; 113; 113; 46]];
   Some [[97; 45; 98; 45; 99; 41]; [113; 113; 113]];
   Some [[97; 96; 98; 39; 99; 126; 100; 58]; [113; 113; 113]];
   None;
   None;
   Some [[97; 41]; [98; 98; 45; 99; 99; 46; 113; 113; 113]];
   Some [[49; 45; 97; 44; 98; 46; 46; 46]; [113; 113; 113]]].
Proof. vm_compute. reflexivity. Qed.

(** [test__re_bullet_match_factory_errors], the cases that pass a string *)
Example test_re_bullet_match_factory_errors :
  forallb (fun b => match _re_bullet_match_factory b with
                    | Raise ValueError => true
                    | _ => false
                    end)
  [[];
   [32];
   [42; 32; 45];
   [42; 9; 45];
   [42; 10; 45];
   [9; 32; 32; 9; 32; 13; 32; 10; 9];
   [97];
   [98; 99; 100; 45; 101; 102; 103];
   [42; 98; 99; 100; 45; 101; 102; 103; 95]]
  = true.
Proof. vm_compute. reflexivity. Qed.

(** [test__re_bullet_match_factory]: the factory accepts the bullet set, and
    the compiled pattern gives the expected groups. *)
Example test_re_bullet_match_factory :
  map (fun p => match _re_bullet_match_factory (fst p) with
                | Ok r => Some (groups 2 r (snd p))
                | _ => None
                end)
  [([42], []);
   ([42], [32]);
   ([42], [32; 116; 101; 120; 116; 32]);
   ([42], [32; 42]);
   ([42], [42]);
   ([42], [42; 32]);
   ([42], [42; 32; 116; 101; 120; 116]);
   ([42], [42; 42; 42; 32; 116; 101; 120; 116]);
   ([42], [42; 32; 42; 42; 116; 101; 120; 116]);
   ([42], [42; 32; 42; 42; 32; 116; 101; 120; 116]);
   ([42], [42; 97; 98; 99; 100]);
   ([42], [45; 32; 42; 42; 32; 116; 101; 120; 116]);
   ([42], [45; 32; 42; 32; 116; 101; 120; 116]);
   ([42], [8226; 32; 42; 32; 116; 101; 120; 116]);
   ([45; 42; 8226; 9675], []);
   ([45; 42; 8226; 9675], [113; 113; 113]);
   ([45; 42; 8226; 9675], [113; 119; 101]);
   ([45; 42; 8226; 9675], [46; 58; 32; 42; 45; 113; 119; 101]);
   ([45; 42; 8226; 9675], [42; 46; 58; 32; 45; 113; 119; 101]);
   ([45; 42; 8226; 9675], [42; 32; 46; 58; 32; 45; 113; 119; 101]);
   ([45; 42; 8226; 9675], [45; 9; 42; 108; 105; 115; 116; 32; 105; 116; 101; 109; 42]);
   ([45; 42; 8226; 9675], [45; 32; 9; 42; 32; 108; 105; 115; 116; 32; 105; 116; 101; 109; 32; 42]);
   ([45; 42; 8226; 9675], [42; 116; 101; 120; 116]);
   ([45; 42; 8226; 9675], [42; 32; 116; 101; 120; 116]);
   ([45; 42; 8226; 9675], [8226; 32; 116; 101; 120; 116]);
   ([45; 42; 8226; 9675], [9675; 32; 116; 101; 120; 116]);
   ([45; 42; 8226; 9675], [45; 32; 116; 101; 120; 116]);
   ([45; 42; 8226; 9675], [42; 42; 32; 9; 32; 116; 101; 120; 116]);
   ([45; 42; 8226; 9675], [8226; 8226; 32; 116; 101; 120; 116]);
   ([45; 42; 8226; 9675], [9675; 9675; 32; 116; 101; 120; 116]);
   ([45; 42; 8226; 9675], [45; 45; 32; 116; 101; 120; 116]);
   ([45; 42; 8226; 9675], [45; 32; 45; 32; 116; 101; 120; 116]);
   ([45; 42; 8226; 9675], [42; 45; 8226; 9675; 32; 9675; 32; 108; 111; 114; 101; 109; 32; 105; 112; 115; 117; 109]);
   ([45; 42; 8226; 9675], [42; 45; 8226; 9733; 32; 9675; 32; 108; 111; 114; 101; 109; 32; 105; 112; 115; 117; 109]);
   ([45; 42; 8226; 9675], [8211; 32; 116; 101; 120; 116]);
   ([45; 42; 8226; 9675], [8212; 32; 116; 101; 120; 116]);
   ([45; 42; 8226; 9675], [9733; 32; 116; 101; 120; 116])]
  = [Some None;
   Some None;
   Some None;
   Some None;
   Some (Some [[42]; []]);
   Some (Some [[42]; []]);
   Some (Some [[42]; [116; 101; 120; 116]]);
   Some (Some [[42; 42; 42]; [116; 101; 120; 116]]);
   Some (Some [[42]; [42; 42; 116; 101; 120; 116]]);
   Some (Some [[42]; [42; 42; 32; 116; 101; 120; 116]]);
   Some None;
   Some None;
   Some None;
   Some None;
   Some None;
   Some None;
   Some None;
   Some None;
   Some None;
   Some (Some [[42]; [46; 58; 32; 45; 113; 119; 101]]);
   Some (Some [[45]; [42; 108; 105; 115; 116; 32; 105; 116; 101; 109; 42]]);
   Some (Some [[45]; [42; 32; 108; 105; 115; 116; 32; 105; 116; 101; 109; 32; 42]]);
   Some None;
   Some (Some [[42]; [116; 101; 120; 116]]);
   Some (Some [[8226]; [116; 101; 120; 116]]);
   Some (Some [[9675]; [116; 101; 120; 116]]);
   Some (Some [[45]; [116; 101; 120; 116]]);
   Some (Some [[42; 42]; [116; 101; 120; 116]]);
   Some (Some [[8226; 8226]; [116; 101; 120; 116]]);
   Some (Some [[9675; 9675]; [116; 101; 120; 116]]);
   Some (Some [[45; 45]; [116; 101; 120; 116]]);
   Some (Some [[45]; [45; 32; 116; 101; 120; 116]]);
   Some (Some [[42; 45; 8226; 9675]; [9675; 32; 108; 111; 114; 101; 109; 32; 105; 112; 115; 117; 109]]);
   Some None;
   Some None;
   Some None;
   Some None].
Proof. vm_compute. reflexivity. Qed.

(* ================================================================== *)
(** ** The indent of a line: [__detect_indent] *)


Lemma len_cons (x : char) (l : str) : len (x :: l) = len l + 1.
Proof. unfold len. simpl length. lia. Qed.

Lemma len_nonneg (l : str) : 0 <= len l.
Proof. unfold len. lia. Qed.

Lemma len_consumed (s s' : str) :
  (length s' <= length s)%nat -> len (consumed s s') = len s - len s'.
Proof. intros H. unfold len. rewrite consumed_length by exact H. lia. Qed.

Lemma runs_from_nonempty (cur : Z) (s : str) : runs_from cur s <> [].
Proof.
  revert cur. induction s as [|x s IH]; intros cur; simpl; [discriminate|].
  destruct (x =? TAB); [discriminate | apply IH].
Qed.

Lemma last_cons_runs (d cur : Z) (s : str) :
  last (d :: runs_from cur s) 0 = last (runs_from cur s) 0.
Proof.
  simpl. destruct (runs_from cur s) eqn:E; [|reflexivity].
  exfalso. exact (runs_from_nonempty cur s E).
Qed.

(** Leading tabs: each closes an empty run. *)
Lemma runs_leading_tabs (s : str) :
  let s1 := drop_while (fun c => c =? TAB) s in
  count_tabs s = (len s - len s1) + count_tabs s1
  /\ (forall ts, whole_tabs ts (runs_from 0 s) = whole_tabs ts (runs_from 0 s1))
  /\ last (runs_from 0 s) 0 = last (runs_from 0 s1) 0.
Proof.
  induction s as [|x s IH]; cbn zeta.
  - simpl. repeat split; lia.
  - simpl drop_while. destruct (x =? TAB) eqn:Hx.
    + cbn zeta in IH. destruct IH as (IH1 & IH2 & IH3).
      repeat split.
      * unfold count_tabs in *. simpl filter. rewrite Hx.
        rewrite !len_cons. lia.
      * intros ts. simpl runs_from. rewrite Hx. simpl whole_tabs.
        rewrite IH2. try rewrite Zdiv_0_l. lia.
      * cbn [runs_from]. rewrite Hx. rewrite last_cons_runs. exact IH3.
    + repeat split; try reflexivity. lia.
Qed.

(** A run of other characters: it lengthens the current run. *)
Lemma runs_spaces (s : str) : forall cur,
  let s2 := drop_while (fun c => negb (c =? TAB)) s in
  count_tabs s = count_tabs s2
  /\ runs_from cur s = runs_from (cur + (len s - len s2)) s2.
Proof.
  induction s as [|x s IH]; intros cur; cbn zeta.
  - simpl. split; [reflexivity|]. f_equal. lia.
  - simpl drop_while. destruct (x =? TAB) eqn:Hx; cbn [negb].
    + split; [reflexivity|]. f_equal. lia.
    + destruct (IH (cur + 1)) as [IH1 IH2]. split.
      * unfold count_tabs in *. simpl filter. rewrite Hx. exact IH1.
      * cbn [runs_from]. rewrite Hx. rewrite IH2. f_equal.
        rewrite len_cons. lia.
Qed.

Lemma drop_while_head {A} (p : A -> bool) (l : list A) (x : A) (t : list A) :
  drop_while p l = x :: t -> p x = false.
Proof.
  induction l as [|y l IH]; simpl; [discriminate|].
  destruct (p y) eqn:Hy; [exact IH|]. intros E. inversion E; subst. exact Hy.
Qed.

Lemma drop_both_shorter {A} (p : A -> bool) (s : list A) :
  s <> [] ->
  (length (drop_while (fun c => negb (p c)) (drop_while p s)) < length s)%nat.
Proof.
  destruct s as [|x s]; [congruence|]. intros _.
  cbn [drop_while]. destruct (p x) eqn:Hp.
  - pose proof (drop_while_length p s).
    pose proof (drop_while_length (fun c => negb (p c)) (drop_while p s)).
    simpl. lia.
  - cbn [drop_while]. rewrite Hp. cbn [negb].
    pose proof (drop_while_length (fun c => negb (p c)) s).
    simpl. lia.
Qed.

(** The loop of [__detect_indent] on a string without line feed. *)
Lemma detect_indent_loop_spec (ts : Z) : 1 <= ts ->
  forall (fuel : nat) (s : str) (full_tabs pending_spaces : Z),
    (length s <= fuel)%nat ->
    s <> [] ->
    mem LF s = false ->
    detect_indent_loop fuel ts s full_tabs pending_spaces
    = Ok ((full_tabs + count_tabs s + whole_tabs ts (space_runs s)) * ts
          + final_space_run s mod ts).
Proof.
  intros Hts. induction fuel as [|fuel IH]; intros s ft ps Hlen Hne Hlf.
  - destruct s; [congruence | simpl in Hlen; lia].
  - destruct s as [|x0 s0] eqn:Es; [congruence|]. rewrite <- Es in *.
    assert (Htr : truthy s = true) by (rewrite Es; reflexivity).
    cbn [detect_indent_loop]. rewrite Htr. cbn [negb].
    rewrite (indent_parse_match s Hlf). cbv zeta.
    unfold group_or_empty. cbn [group Nat.eqb].
    set (s1 := drop_while (fun c => c =? TAB) s).
    set (s2 := drop_while (fun c => negb (c =? TAB)) s1).
    assert (E2' : drop_while (fun c => negb (c =? TAB)) s1 = s2) by reflexivity.
    assert (Hlf2 : mem LF s2 = false).
    { unfold s2, s1. apply mem_drop_while, mem_drop_while, Hlf. }
    pose proof (drop_while_length (fun c => c =? TAB) s) as L1. fold s1 in L1.
    pose proof (drop_while_length (fun c => negb (c =? TAB)) s1) as L2.
    fold s2 in L2.
    rewrite !len_consumed by assumption.
    destruct (runs_leading_tabs s) as (T1 & T2 & T3). cbv zeta in T1, T2, T3.
    fold s1 in T1, T2, T3.
    destruct (runs_spaces s1 0) as (S1 & S2). cbv zeta in S1, S2.
    fold s2 in S1, S2.
    unfold space_runs, final_space_run, space_runs.
    rewrite T1, T2, T3, S1, S2. rewrite Z.add_0_l.
    set (b := len s1 - len s2).
    assert (Hlen2 : (length s2 < length s)%nat).
    { unfold s2, s1. apply (drop_both_shorter (fun c => c =? TAB)). exact Hne. }
    clearbody s2. clearbody s1.
    destruct s2 as [|y t].
    + (* the string ends with this run *)
      destruct fuel; cbn [detect_indent_loop truthy negb];
        unfold count_tabs; simpl; f_equal; unfold len; simpl; lia.
    + (* a tab follows *)
      assert (Hy : (y =? TAB) = true).
      { pose proof (drop_while_head _ s1 _ _ E2') as H.
        cbv beta in H. destruct (y =? TAB); [reflexivity | discriminate]. }
      rewrite IH.
      * f_equal. unfold count_tabs, space_runs, final_space_run, space_runs.
        simpl runs_from. rewrite Hy. simpl whole_tabs.
        try rewrite Zdiv_0_l.
        rewrite !last_cons_runs. simpl filter. rewrite Hy. lia.
      * unfold str in *. simpl in Hlen2 |- *. lia.
      * discriminate.
      * exact Hlf2.
Qed.

Lemma bind_ok {A B} (m : result A) (k : A -> result B) (b : B) :
  Py.bind m k = Ok b -> exists a, m = Ok a /\ k a = Ok b.
Proof. destruct m; simpl; intros H; try discriminate. eauto. Qed.

(** What an instance the constructor returned is made of. *)
Lemma new_inv (a : Args) (self : DocstringToText) :
  DocstringToText_new a = Ok self ->
  exists key,
    ArgsKey.clean_key a = Ok key
    /\ _re_bullet_match_factory (ArgsKey.in_bullets key)
       = Ok (_re_bullet_match self)
    /\ Processor.in_bullets self = ArgsKey.in_bullets key
    /\ Processor.out_bullets self = ArgsKey.out_bullets key
    /\ Processor.tab_size self = ArgsKey.tab_size key
    /\ Processor.minimize_indents self = ArgsKey.minimize_indents key.
Proof.
  unfold DocstringToText_new. intros H.
  apply bind_ok in H. destruct H as (k0 & _ & H).
  apply bind_ok in H. destruct H as (key & Hkey & H).
  apply bind_ok in H. destruct H as (re & Hre & H).
  inversion H; subst; clear H. cbn.
  exists key. repeat split; assumption.
Qed.

Lemma clean_key_tab_size (a : Args) (key : ArgsKey._ArgsKey) :
  ArgsKey.clean_key a = Ok key -> ArgsKey.tab_size key = Z.max (arg_tab_size a) 1.
Proof.
  unfold ArgsKey.clean_key. intros H.
  repeat match type of H with
         | (if ?b then _ else _) = _ => destruct b; [discriminate|]
         end.
  inversion H. reflexivity.
Qed.

Lemma new_tab_size (a : Args) (self : DocstringToText) :
  DocstringToText_new a = Ok self -> 1 <= Processor.tab_size self.
Proof.
  intros H. destruct (new_inv a self H) as (key & Hk & _ & _ & _ & Hts & _).
  rewrite Hts, (clean_key_tab_size a key Hk). lia.
Qed.

Lemma new_default : DocstringToText_new default_args = Ok default_processor.
Proof. vm_compute. reflexivity. Qed.

Lemma detect_indent_spec (self : DocstringToText) (s : str) :
  1 <= Processor.tab_size self ->
  mem LF s = false ->
  detect_indent self s
  = Ok (Processor.tab_size self
        * (count_tabs s + whole_tabs (Processor.tab_size self) (space_runs s))
        + final_space_run s mod Processor.tab_size self).
Proof.
  intros Hts Hlf. unfold detect_indent. destruct s as [|x s].
  - cbn [truthy negb]. f_equal. unfold count_tabs, space_runs, final_space_run.
    cbn. try rewrite Zmod_0_l. lia.
  - cbn [truthy negb].
    rewrite detect_indent_loop_spec; try assumption; try lia; try discriminate.
    f_equal. lia.
Qed.

Lemma whole_tabs_small (ts : Z) (runs : list Z) :
  Forall (fun r => 0 <= r < ts) runs -> whole_tabs ts runs = 0.
Proof.
  induction 1 as [|r runs Hr _ IH]; [reflexivity|].
  cbn [whole_tabs fold_right]. fold (whole_tabs ts runs). rewrite IH.
  rewrite Z.div_small by exact Hr. reflexivity.
Qed.

Lemma runs_from_nonneg (s : str) : forall cur, 0 <= cur ->
  Forall (fun r => 0 <= r) (runs_from cur s).
Proof.
  induction s as [|x s IH]; intros cur Hc; cbn [runs_from].
  - constructor; [exact Hc | constructor].
  - destruct (x =? TAB).
    + constructor; [exact Hc | apply IH; lia].
    + apply IH. lia.
Qed.

Lemma whole_tabs_app (ts : Z) (l1 l2 : list Z) :
  whole_tabs ts (l1 ++ l2) = whole_tabs ts l1 + whole_tabs ts l2.
Proof.
  induction l1 as [|r l1 IH]; [reflexivity|].
  cbn [app whole_tabs fold_right]. fold (whole_tabs ts (l1 ++ l2)).
  fold (whole_tabs ts l1). lia.
Qed.

(** C3 (as amended).  For an instance the constructor returned and an
    indent prefix without line feed, [__detect_indent] returns
    [tab_size * (tabs + whole tabs of every run of other characters)
     + (length of the rightmost run) mod tab_size]:
    a run that is followed by a tab counts for its whole multiples of
    [tab_size] and loses only its remainder.  When every run that is
    followed by a tab is shorter than [tab_size], this is the number of
    tabs times [tab_size] plus the length of the rightmost run. *)
Theorem C3_detect_indent (a : Args) (self : DocstringToText) (s : str) :
  DocstringToText_new a = Ok self ->
  mem LF s = false ->
  detect_indent self s
  = Ok (Processor.tab_size self
        * (count_tabs s + whole_tabs (Processor.tab_size self) (space_runs s))
        + final_space_run s mod Processor.tab_size self)
  /\ (Forall (fun r => r < Processor.tab_size self) (inner_space_runs s) ->
      detect_indent self s
      = Ok (count_tabs s * Processor.tab_size self + final_space_run s)).
Proof.
  intros Hnew Hlf. pose proof (new_tab_size a self Hnew) as Hts.
  split; [apply detect_indent_spec; assumption|].
  intros Hsmall. rewrite detect_indent_spec by assumption. f_equal.
  unfold inner_space_runs, final_space_run in *.
  pose proof (runs_from_nonneg s 0 ltac:(lia)) as Hnn.
  fold (space_runs s) in Hnn.
  pose proof (runs_from_nonempty 0 s) as Hne. fold (space_runs s) in Hne.
  rewrite (app_removelast_last 0 Hne) in Hnn |- * at 1.
  rewrite whole_tabs_app.
  apply Forall_app in Hnn. destruct Hnn as [Hnn1 Hnn2].
  rewrite whole_tabs_small.
  - cbn [whole_tabs fold_right].
    set (f := last (space_runs s) 0) in *.
    inversion Hnn2; subst.
    pose proof (Z.div_mod f (Processor.tab_size self) ltac:(lia)). lia.
  - rewrite Forall_forall in *. intros r Hr. split; auto.
Qed.

(** C3, witness: a tab, two spaces, a tab and five spaces at the default
    tab size. *)
Lemma C3_witness :
  exists self,
    DocstringToText_new default_args = Ok self
    /\ detect_indent self [TAB; SP; SP; TAB; SP; SP; SP; SP; SP]
       = Ok (2 * 4 + 5).
Proof.
  exists default_processor. split; [exact new_default|].
  destruct (C3_detect_indent default_args default_processor
              [TAB; SP; SP; TAB; SP; SP; SP; SP; SP] new_default eq_refl)
    as [_ H].
  rewrite H.
  - reflexivity.
  - vm_compute. repeat constructor.
Defined.

(** C3, counterexample to the claim as stated: four spaces and a tab at
    tab size 4 give 8, not 1 * 4 + 0. *)
Lemma C3_counterexample :
  ~ (forall (a : Args) (self : DocstringToText) (s : str),
       DocstringToText_new a = Ok self ->
       forallb is_space s = true ->
       mem LF s = false ->
       detect_indent self s
       = Ok (count_tabs s * Processor.tab_size self + final_space_run s)).
Proof.
  intros H.
  specialize (H default_args default_processor [SP; SP; SP; SP; TAB]
                new_default eq_refl eq_refl).
  vm_compute in H. discriminate H.
Qed.

(* ================================================================== *)
(** ** Blank lines: [__parse_line] *)

Lemma drop_while_all {A} (p : A -> bool) (l : list A) :
  forallb p l = true -> drop_while p l = [].
Proof.
  induction l as [|x l IH]; [reflexivity|].
  cbn [forallb drop_while]. intros H. apply andb_prop in H.
  destruct H as [Hx Hl]. rewrite Hx. apply IH, Hl.
Qed.

Lemma forallb_rev {A} (p : A -> bool) (l : list A) :
  forallb p l = true -> forallb p (rev l) = true.
Proof.
  intros H. rewrite forallb_forall in *. intros x Hx.
  apply H. apply in_rev. exact Hx.
Qed.

Lemma rstrip_blank (line : str) :
  forallb is_space line = true -> rstrip line = [].
Proof.
  intros H. unfold rstrip. rewrite drop_while_all; [reflexivity|].
  apply forallb_rev, H.
Qed.

Lemma factory_ok (b : str) (r : regex) :
  _re_bullet_match_factory b = Ok r -> r = bullet_pattern b.
Proof.
  unfold _re_bullet_match_factory. intros H.
  repeat match type of H with
         | (if ?b then _ else _) = _ => destruct b; [discriminate|]
         end.
  inversion H. reflexivity.
Qed.

(** C4 (the code at blank lines).  For every line made of whitespace only,
    [__parse_line] returns a record with [indent = 0] and empty [bullet],
    [number] and [text], but with [is_empty = False]: the record with
    [is_empty=True] is built and not returned. *)
Theorem C4_blank_line (unicode_decimal : char -> bool) (a : Args)
    (self : DocstringToText) (line : str) :
  DocstringToText_new a = Ok self ->
  forallb is_space line = true ->
  parse_line unicode_decimal self line
  = Ok (mkLine 0 false false (-1) [] [] []).
Proof.
  intros Hnew Hblank.
  destruct (new_inv a self Hnew) as (key & _ & Hre & _).
  apply factory_ok in Hre.
  unfold parse_line. rewrite (rstrip_blank line Hblank).
  rewrite Hre. reflexivity.
Qed.

(** C4, witness: a space, a tab and a space, default configuration. *)
Lemma C4_witness :
  exists self,
    DocstringToText_new default_args = Ok self
    /\ parse_line is_ascii_digit self [SP; TAB; SP]
       = Ok (mkLine 0 false false (-1) [] [] []).
Proof.
  exists default_processor. split; [exact new_default|].
  exact (C4_blank_line is_ascii_digit default_args default_processor
                       [SP; TAB; SP] new_default eq_refl).
Defined.

(* ================================================================== *)
(** ** Rounding an indent to tabs *)

Lemma div_between (a b k : Z) :
  0 < b -> b * k <= a < b * (k + 1) -> a / b = k.
Proof.
  intros Hb H. symmetry. apply (Z.div_unique a b k (a - b * k)); lia.
Qed.





(** In binary64 the method gives what the exact quotient and sum give, for
    every tab size up to 16 and every delta up to 512 spaces. *)
Lemma round_full_tabs_binary64_agrees (tab_size indent_spaces : Z) :
  1 <= tab_size <= 16 -> 0 <= indent_spaces <= 512 ->
  Binary64.round_full_tabs tab_size indent_spaces
  = round_full_tabs tab_size indent_spaces.
Proof.
  intros Ht Hd.
  assert (Hall : forallb (fun ts =>
                    forallb (fun d => Binary64.round_full_tabs ts d
                                      =? round_full_tabs ts d)
                            (map Z.of_nat (seq 0 513)))
                         (map Z.of_nat (seq 1 16)) = true)
    by (vm_compute; reflexivity).
  rewrite forallb_forall in Hall.
  specialize (Hall tab_size).
  assert (Hin : In tab_size (map Z.of_nat (seq 1 16))).
  { apply in_map_iff. exists (Z.to_nat tab_size). split; [lia|].
    apply in_seq. lia. }
  specialize (Hall Hin). rewrite forallb_forall in Hall.
  apply Z.eqb_eq, Hall.
  apply in_map_iff. exists (Z.to_nat indent_spaces). split; [lia|].
  apply in_seq. lia.
Qed.

Lemma round_full_tabs_binary64_agrees_witness :
  Binary64.round_full_tabs 4 10 = round_full_tabs 4 10.
Proof. apply round_full_tabs_binary64_agrees; lia. Defined.

(** In binary64 the same inputs give the same number of tabs. *)
Example round_full_tabs_binary64 :
  Binary64.round_full_tabs 10001 15002 = 1
  /\ Binary64.round_full_tabs 4 12 = 3
  /\ Binary64.round_full_tabs 4 7 = 2
  /\ Binary64.round_full_tabs 4 10 = 2
  /\ Binary64.round_full_tabs 4 1 = 1.
Proof. vm_compute. repeat split. Qed.

(* ================================================================== *)
(** ** The bullet set of a configuration *)


Lemma star_loop_total (greedy : bool)
    (body : str -> captures -> cont -> option captures) (k : cont) :
  (forall s c, k s c <> None) ->
  forall fuel s c, star_loop greedy body k fuel s c <> None.
Proof.
  intros Hk. induction fuel as [|fuel IH]; intros s c.
  - apply Hk.
  - rewrite star_loop_S. cbv zeta. specialize (Hk s c).
    destruct greedy; unfold orelse.
    + destruct (body s c _); [discriminate | exact Hk].
    + destruct (k s c); [discriminate | congruence].
Qed.

(** [p+] matches at the start exactly when the first character is in the
    class. *)
Lemma match_plus_class (p : char -> bool) (s : str) :
  matched (re_match (Plus true (Class p)) s)
  = match s with x :: _ => p x | [] => false end.
Proof.
  unfold re_match, Plus. cbn [run]. destruct s as [|x s]; [reflexivity|].
  destruct (p x); [|reflexivity].
  pose proof (star_loop_total true (run (Class p)) (fun _ c => Some c)
                ltac:(discriminate) (length s) s []) as H.
  destruct (star_loop _ _ _ _ _ _); [reflexivity | congruence].
Qed.

Lemma search_plus_class (p : char -> bool) (s : str) :
  matched (re_search (Plus true (Class p)) s) = existsb p s.
Proof.
  induction s as [|x s IH].
  - reflexivity.
  - cbn [re_search existsb].
    pose proof (match_plus_class p (x :: s)) as H. cbv iota in H.
    destruct (re_match (Plus true (Class p)) (x :: s)); cbn [matched] in H.
    + rewrite <- H. reflexivity.
    + rewrite <- H. exact IH.
Qed.

Lemma factory_spec (b : str) :
  _re_bullet_match_factory b
  = if invalid_bullet_set b then Raise ValueError else Ok (bullet_pattern b).
Proof.
  unfold _re_bullet_match_factory, invalid_bullet_set,
    _re_has_whitespaces, _re_has_alphanumeric, ws.
  rewrite !search_plus_class.
  fold is_ascii_alnum. change (fun c => is_ascii_alnum c) with is_ascii_alnum.
  destruct (truthy b); cbn [negb orb]; [|reflexivity].
  destruct (existsb is_space b); cbn [orb]; [reflexivity|].
  destruct (existsb _ b); reflexivity.
Qed.

Lemma mem_existsb (x : char) (s : str) :
  mem x s = true -> forall p, p x = false -> existsb (fun c => negb (p c)) s = true.
Proof.
  intros H p Hp. unfold mem in H. apply existsb_exists in H.
  destruct H as (y & Hy & E). apply Z.eqb_eq in E. subst y.
  apply existsb_exists. exists x. split; [exact Hy|]. rewrite Hp. reflexivity.
Qed.

Lemma remove_whitespace_no_space (s : str) :
  existsb is_space (remove_whitespace s) = false.
Proof.
  unfold remove_whitespace. induction s as [|x s IH]; [reflexivity|].
  cbn [filter]. destruct (is_space x) eqn:E; cbn [negb]; [exact IH|].
  cbn [existsb]. rewrite E, IH. reflexivity.
Qed.

Lemma no_space_no_mem (x : char) (s : str) :
  is_space x = true -> existsb is_space s = false -> mem x s = false.
Proof.
  intros Hx Hs. unfold mem. destruct (existsb (Z.eqb x) s) eqn:E; [|reflexivity].
  apply existsb_exists in E. destruct E as (y & Hy & E).
  apply Z.eqb_eq in E. subst y.
  assert (existsb is_space s = true) by (apply existsb_exists; eauto).
  congruence.
Qed.

Lemma no_space_no_blank (s : str) :
  existsb is_space s = false -> ArgsKey.any_blank_in s = false.
Proof.
  intros H. unfold ArgsKey.any_blank_in. cbn [existsb].
  rewrite !no_space_no_mem; try exact H; reflexivity.
Qed.

Lemma cleaned_no_space (a : Args) :
  existsb is_space (cleaned_in_bullets a) = false.
Proof.
  unfold cleaned_in_bullets. cbv zeta.
  destruct (truthy (ArgsKey.cleanup_bullets_attr_to_str (arg_in_bullets a))).
  - apply remove_whitespace_no_space.
  - reflexivity.
Qed.

Lemma cleaned_truthy (a : Args) : truthy (cleaned_in_bullets a) = true.
Proof.
  unfold cleaned_in_bullets. cbv zeta.
  destruct (truthy (ArgsKey.cleanup_bullets_attr_to_str (arg_in_bullets a)))
    eqn:E; [exact E | reflexivity].
Qed.




Lemma alnum_invalid (s : str) :
  existsb is_ascii_alnum s = true -> invalid_bullet_set s = true.
Proof.
  intros H. unfold invalid_bullet_set. rewrite H. apply orb_true_r.
Qed.






(* ================================================================== *)
(** ** Pass 1: the grouping loop *)


Lemma block_id_eqb_refl (i : Z * bool * bool * bool * bool) :
  block_id_eqb i i = true.
Proof.
  destruct i as [[[[i e] l] b] n]. unfold block_id_eqb.
  rewrite Z.eqb_refl, !Bool.eqb_reflx. reflexivity.
Qed.


Lemma consistent_block_type (l : ParsedLine) :
  flags_consistent l = true ->
  exists t, Line.block_type true l = Ok t
            /\ (is_list l, truthy (bullet l), truthy (number l))
               = match t with
                 | Indent => (false, false, false)
                 | Bullet => (true, true, false)
                 | Number => (true, false, true)
                 end.
Proof.
  unfold flags_consistent, Line.block_type, assert. intros H.
  destruct (is_list l), (truthy (bullet l)), (truthy (number l));
    cbn in H; try discriminate; cbn; eexists; split; reflexivity.
Qed.






(** What [unindent] does to the records: one map over their indents. *)
Lemma unindent_map (lines : list ParsedLine) (clamp : bool) :
  exists f : Z -> Z,
    snd (unindent lines 0 clamp)
    = map (fun l => set_indent (f (indent l)) l) lines.
Proof.
  assert (Hid : lines = map (fun l => set_indent ((fun i => i) (indent l)) l)
                            lines).
  { induction lines as [|l lines IH]; [reflexivity|].
    cbn [map]. rewrite <- IH. destruct l; reflexivity. }
  unfold unindent.
  destruct (filter _ lines) as [|first rest].
  - exists (fun i => i). exact Hid.
  - cbn [snd]. unfold offset_indent.
    destruct ((0 - min_indent_of first rest =? 0) || negb (truthy lines)).
    + exists (fun i => i). exact Hid.
    + exists (fun i => Z.max (i + (0 - min_indent_of first rest)) 0).
      reflexivity.
Qed.




(* ------------------------------------------------------------------ *)
(** *** The shared indent: [unindent] *)

Lemma min_indent_of_spec (rest : list ParsedLine) : forall first,
  let m := min_indent_of first rest in
  (exists l, In l (first :: rest) /\ indent l = m)
  /\ Forall (fun l => m <= indent l) (first :: rest).
Proof.
  unfold min_indent_of.
  assert (G : forall (acc : Z),
            let m := fold_left (fun m x => if indent x <? m then indent x else m)
                               rest acc in
            (m = acc \/ exists l, In l rest /\ indent l = m)
            /\ m <= acc /\ Forall (fun l => m <= indent l) rest).
  { induction rest as [|x rest IH]; intros acc; cbn [fold_left].
    - repeat split; [left; reflexivity | lia | constructor].
    - cbv zeta.
      destruct (IH (if indent x <? acc then indent x else acc))
        as (Hw & Hle & Hall). cbv zeta in Hw, Hle, Hall.
      destruct (indent x <? acc) eqn:E;
        [apply Z.ltb_lt in E | apply Z.ltb_ge in E].
      + repeat split.
        * right. destruct Hw as [Hw | (l & Hl & Hm)].
          -- exists x. split; [left; reflexivity | congruence].
          -- exists l. split; [right; exact Hl | exact Hm].
        * lia.
        * constructor; [lia | exact Hall].
      + repeat split.
        * destruct Hw as [Hw | (l & Hl & Hm)]; [left; exact Hw|].
          right. exists l. split; [right; exact Hl | exact Hm].
        * lia.
        * constructor; [lia | exact Hall]. }
  intros first. cbv zeta. destruct (G (indent first)) as (Hw & Hle & Hall).
  cbv zeta in Hw, Hle, Hall. split.
  - destruct Hw as [Hw | (l & Hl & Hm)].
    + exists first. split; [left; reflexivity | congruence].
    + exists l. split; [right; exact Hl | exact Hm].
  - constructor; assumption.
Qed.

(** The minimum over the non-empty lines is the indent of one of them and
    a lower bound of all of them. *)
Lemma min_indent_nonempty_spec (lines : list ParsedLine) (m : Z) :
  min_indent_nonempty lines = Some m ->
  (exists l, In l lines /\ is_empty l = false /\ indent l = m)
  /\ (forall l, In l lines -> is_empty l = false -> m <= indent l).
Proof.
  unfold min_indent_nonempty.
  destruct (filter (fun x => negb (is_empty x)) lines) as [|first rest] eqn:Ef;
    [discriminate|].
  intros H. inversion H; subst m; clear H.
  destruct (min_indent_of_spec rest first) as [(l & Hl & Hm) Hall].
  cbv zeta in Hm, Hall. rewrite <- Ef in Hl, Hall. split.
  - exists l. apply filter_In in Hl. destruct Hl as [Hl He].
    apply negb_true_iff in He. auto.
  - intros l1 Hl1 He. rewrite Forall_forall in Hall. apply Hall.
    apply filter_In. split; [exact Hl1|]. rewrite He. reflexivity.
Qed.

Lemma min_indent_nonempty_none (lines : list ParsedLine) :
  min_indent_nonempty lines = None ->
  forall l, In l lines -> is_empty l = true.
Proof.
  unfold min_indent_nonempty.
  destruct (filter (fun x => negb (is_empty x)) lines) as [|first rest] eqn:Ef;
    [|discriminate].
  intros _ l Hl. destruct (is_empty l) eqn:E; [reflexivity|].
  assert (Hin : In l (filter (fun x => negb (is_empty x)) lines)).
  { apply filter_In. split; [exact Hl|]. rewrite E. reflexivity. }
  rewrite Ef in Hin. destruct Hin.
Qed.

(** [ParsedLine.unindent] with its default arguments: it returns the
    minimum indent over the non-empty lines (0 for a negative one), takes it
    off every non-empty line, changes nothing else of a record, and leaves
    the non-empty lines at minimum indent 0. *)
Theorem unindent_spec (lines : list ParsedLine) (m : Z) :
  min_indent_nonempty lines = Some m ->
  fst (unindent lines 0 true) = Z.max m 0
  /\ (exists f : ParsedLine -> Z,
        snd (unindent lines 0 true) = map (fun l => set_indent (f l) l) lines
        /\ forall l, In l lines -> is_empty l = false -> f l = indent l - m)
  /\ min_indent_nonempty (snd (unindent lines 0 true)) = Some 0.
Proof.
  intros Hmin.
  destruct (min_indent_nonempty_spec lines m Hmin) as [(l0 & Hl0 & He0 & Hi0) Hlow].
  assert (Hf : exists f : ParsedLine -> Z,
            unindent lines 0 true
            = (Z.max m 0, map (fun l => set_indent (f l) l) lines)
            /\ forall l, In l lines -> is_empty l = false -> f l = indent l - m).
  { unfold min_indent_nonempty in Hmin. unfold unindent.
    destruct (filter (fun x => negb (is_empty x)) lines) as [|first rest];
      [discriminate|].
    inversion Hmin as [Hm]. rewrite Hm. unfold offset_indent.
    destruct ((0 - m =? 0) || negb (truthy lines)) eqn:E.
    - (* nothing to take off *)
      assert (m = 0).
      { apply orb_prop in E. destruct E as [E | E].
        - apply Z.eqb_eq in E. lia.
        - destruct lines; [destruct Hl0 | discriminate]. }
      subst m. exists indent. split.
      + f_equal. clear. induction lines as [|l lines IH]; [reflexivity|].
        cbn [map]. rewrite <- IH. destruct l; reflexivity.
      + intros l _ _. lia.
    - exists (fun l => Z.max (indent l + (0 - m)) 0). split; [reflexivity|].
      intros l Hl He. specialize (Hlow l Hl He). lia. }
  destruct Hf as (f & Hun & Hfl). rewrite Hun. cbn [fst snd].
  split; [reflexivity|]. split; [exists f; auto|].
  (* the minimum of the new indents *)
  destruct (min_indent_nonempty (map (fun l => set_indent (f l) l) lines))
    as [m'|] eqn:Emin'.
  - destruct (min_indent_nonempty_spec _ m' Emin')
      as [(l' & Hl' & He' & Hi') Hlow'].
    apply in_map_iff in Hl'. destruct Hl' as (l & El & Hl). subst l'.
    cbn in He', Hi'.
    assert (H1 : 0 <= m').
    { rewrite <- Hi', (Hfl l Hl He'). specialize (Hlow l Hl He'). lia. }
    assert (H2 : m' <= 0).
    { specialize (Hlow' (set_indent (f l0) l0)
                        (in_map (fun l => set_indent (f l) l) lines l0 Hl0)
                        He0).
      cbn in Hlow'. rewrite (Hfl l0 Hl0 He0) in Hlow'. lia. }
    f_equal. lia.
  - exfalso.
    pose proof (min_indent_nonempty_none _ Emin' (set_indent (f l0) l0)
                  (in_map (fun l => set_indent (f l) l) lines l0 Hl0)) as H.
    cbn in H. congruence.
Qed.

Lemma unindent_spec_witness :
  fst (unindent [mkLine 6 false false (-1) [] [] [97];
                 mkLine 0 true false (-1) [] [] [];
                 mkLine 4 false true (-1) [45] [] [98]] 0 true) = Z.max 4 0
  /\ min_indent_nonempty
       (snd (unindent [mkLine 6 false false (-1) [] [] [97];
                       mkLine 0 true false (-1) [] [] [];
                       mkLine 4 false true (-1) [45] [] [98]] 0 true))
     = Some 0.
Proof.
  destruct (unindent_spec
              [mkLine 6 false false (-1) [] [] [97];
               mkLine 0 true false (-1) [] [] [];
               mkLine 4 false true (-1) [45] [] [98]] 4 eq_refl)
    as (H1 & _ & H3).
  split; [exact H1 | exact H3].
Defined.

Lemma block_type_assertions (l : ParsedLine) (t : BlockType) :
  Line.block_type true l = Ok t -> Line.block_type false l = Ok t.
Proof.
  unfold Line.block_type. intros H.
  destruct (negb (is_list l)); [exact H|].
  destruct (truthy (bullet l)); [exact H|].
  split_asserts H. exact H.
Qed.

(** C5 (the code where the claim fails).  The block that is pending when
    the loop of Pass 1 ends is never flushed.  For an input of one non-empty
    line, Pass 1 returns the indent it removed and no line at all.  On the
    records parsed from the lines "  x" and "y", whose minimum indent is 0,
    it returns only the first record, so that the minimum indent over the
    output is 2. *)
Theorem C5_last_block_is_dropped :
  (forall (dbg : bool) (l : ParsedLine),
     is_empty l = false -> flags_consistent l = true ->
     pass1_join_raw_blocks dbg [l] = Ok (Z.max (indent l) 0, []))
  /\ exists self l1 l2,
       DocstringToText_new default_args = Ok self
       /\ parse_line is_ascii_digit self (lit "  x") = Ok l1
       /\ parse_line is_ascii_digit self (lit "y") = Ok l2
       /\ min_indent_nonempty [l1; l2] = Some 0
       /\ pass1_join_raw_blocks true [l1; l2] = Ok (0, [l1])
       /\ min_indent_nonempty [l1] = Some 2.
Proof.
  split.
  - intros dbg l He Hc.
    unfold pass1_join_raw_blocks, unindent. cbn [filter]. rewrite He.
    cbn [negb min_indent_of fold_left].
    set (l' := offset_indent [l] (0 - indent l) true).
    assert (Hl' : exists i, l' = [set_indent i l]).
    { unfold l', offset_indent. destruct (_ || _).
      - exists (indent l). destruct l; reflexivity.
      - eexists. reflexivity. }
    destruct Hl' as [i Hl']. rewrite Hl'.
    cbn [pass1_loop]. unfold pass1_body.
    change (is_empty (set_indent i l)) with (is_empty l). rewrite He.
    cbn [is_after_empty_line Py.bind].
    assert (Ht : exists t, Line.block_type dbg (set_indent i l) = Ok t).
    { destruct (consistent_block_type l Hc) as (t & Ht & _).
      exists t. destruct dbg; [exact Ht|].
      apply block_type_assertions in Ht. exact Ht. }
    destruct Ht as [t Ht]. rewrite Ht. cbn [Py.bind].
    destruct (negb _); cbn [pending_block joined_blocks flush_raw_active_block
                            Py.bind]; reflexivity.
  - exists default_processor.
    exists (mkLine 2 false false (-1) [] [] (lit "x")).
    exists (mkLine 0 false false (-1) [] [] (lit "y")).
    split; [exact new_default|].
    split; [vm_compute; reflexivity|].
    split; [vm_compute; reflexivity|].
    vm_compute. repeat split.
Qed.


(* ================================================================== *)
(** ** Pass 2: the stack walk *)

Section StackWalk.

Import StackLevelBlock FirstExtractedSubBlock.

Lemma BlockType_eqb_eq (a b : BlockType) : BlockType_eqb a b = true <-> a = b.
Proof. destruct a, b; cbn; split; intros H; try reflexivity; discriminate. Qed.



Lemma common_spaces_to_tabs_nonneg (self : SpaceToTabsConverter) (n : Z) :
  0 <= _common_block_spaces_to_tabs self n.
Proof.
  unfold _common_block_spaces_to_tabs, _binary_indent, round_full_tabs.
  destruct (Tabs.minimize_indents self).
  - destruct (0 <? n); lia.
  - destruct (n <? 1); lia.
Qed.

(** The split of a block whose common indent is not zero: the whole block,
    scheduled as one deeper level. *)
Lemma extract_indented (pending_lines : lines_chunk) :
  common_indent (extract_from_pending_block pending_lines) <> 0 ->
  extract_from_pending_block pending_lines
  = FirstExtractedSubBlock.mk
      (common_indent (extract_from_pending_block pending_lines)) false
      (FirstExtractedSubBlock.block_type
         (extract_from_pending_block pending_lines))
      pending_lines [].
Proof.
  unfold extract_from_pending_block.
  destruct (negb (truthy pending_lines)); [cbn; congruence|].
  destruct (detect_first_line_with_min_indent pending_lines) as [[m i]|];
    [|cbn; congruence].
  destruct (negb (m =? 0)); [reflexivity|].
  destruct (_ && _); [cbn; congruence|].
  destruct (split_first_chunk _ _). cbn. congruence.
Qed.



(* ------------------------------------------------------------------ *)
(** *** The first line with minimal indent *)

Lemma detect_loop_lower (pl : lines_chunk) :
  forall i acc m j,
    detect_loop i acc pl = Some (m, j) ->
    (forall m0 j0, acc = Some (m0, j0) -> m <= m0)
    /\ Forall (fun tl => is_empty (snd tl) = false -> m <= indent (snd tl)) pl.
Proof.
  induction pl as [|[t l] pl IH]; intros i acc m j H; cbn [detect_loop] in H.
  - split; [|constructor]. intros m0 j0 E. rewrite E in H.
    inversion H; subst. lia.
  - destruct (is_empty l) eqn:El.
    + destruct (IH _ _ _ _ H) as [H1 H2]. split; [exact H1|].
      constructor; [cbn; congruence | exact H2].
    + destruct acc as [[m0 j0]|].
      * destruct (indent l <? m0) eqn:Elt.
        -- destruct (IH _ _ _ _ H) as [H1 H2].
           specialize (H1 _ _ eq_refl). apply Z.ltb_lt in Elt. split.
           ++ intros m1 j1 E. inversion E; subst. lia.
           ++ constructor; [cbn; intros _; lia | exact H2].
        -- destruct (IH _ _ _ _ H) as [H1 H2].
           specialize (H1 _ _ eq_refl). apply Z.ltb_ge in Elt. split.
           ++ intros m1 j1 E. inversion E; subst. lia.
           ++ constructor; [cbn; intros _; lia | exact H2].
      * destruct (IH _ _ _ _ H) as [H1 H2].
        specialize (H1 _ _ eq_refl). split; [discriminate|].
        constructor; [cbn; intros _; lia | exact H2].
Qed.

Lemma detect_loop_found (pl : lines_chunk) :
  forall i acc m j,
    detect_loop i acc pl = Some (m, j) ->
    acc = Some (m, j)
    \/ ((i <= j < i + length pl)%nat
        /\ exists tl, nth_error pl (j - i) = Some tl
                      /\ is_empty (snd tl) = false
                      /\ indent (snd tl) = m).
Proof.
  induction pl as [|[t l] pl IH]; intros i acc m j H; cbn [detect_loop] in H.
  - left. exact H.
  - assert (Hshift : forall acc',
              detect_loop (S i) acc' pl = Some (m, j) ->
              acc' = Some (m, j)
              \/ ((i <= j < i + length ((t, l) :: pl))%nat
                  /\ exists tl, nth_error ((t, l) :: pl) (j - i) = Some tl
                                /\ is_empty (snd tl) = false
                                /\ indent (snd tl) = m)).
    { intros acc' H'. destruct (IH _ _ _ _ H') as [E | [Hr (tl & Hn & He & Hi)]].
      - left. exact E.
      - right. split; [cbn [length]; lia|].
        exists tl. replace (j - i)%nat with (S (j - S i)) by lia.
        cbn [nth_error]. auto. }
    assert (Hhere : is_empty l = false ->
              (i <= i < i + length ((t, l) :: pl))%nat
              /\ exists tl, nth_error ((t, l) :: pl) (i - i) = Some tl
                            /\ is_empty (snd tl) = false
                            /\ indent (snd tl) = indent l).
    { intros El. split; [cbn [length]; lia|].
      exists (t, l). rewrite Nat.sub_diag. cbn. auto. }
    destruct (is_empty l) eqn:El.
    + apply Hshift, H.
    + destruct acc as [[m0 j0]|].
      * destruct (indent l <? m0).
        -- destruct (Hshift _ H) as [E | Hr]; [|right; exact Hr].
           inversion E; subst. right. apply Hhere. reflexivity.
        -- apply Hshift, H.
      * destruct (Hshift _ H) as [E | Hr]; [|right; exact Hr].
        inversion E; subst. right. apply Hhere. reflexivity.
Qed.

(** What [__detect_first_line_with_min_indent] finds: a non-empty line at
    the minimal indent over the non-empty lines. *)
Lemma detect_first_spec (pl : lines_chunk) (m : Z) (i : nat) :
  detect_first_line_with_min_indent pl = Some (m, i) ->
  (i < length pl)%nat
  /\ (exists tl, nth_error pl i = Some tl /\ is_empty (snd tl) = false
                 /\ indent (snd tl) = m)
  /\ Forall (fun tl => is_empty (snd tl) = false -> m <= indent (snd tl)) pl.
Proof.
  unfold detect_first_line_with_min_indent. intros H.
  destruct (detect_loop_found pl _ _ _ _ H) as [E | [Hr (tl & Hn & He & Hi)]];
    [discriminate|].
  destruct (detect_loop_lower pl _ _ _ _ H) as [_ Hl].
  rewrite Nat.sub_0_r in Hn.
  repeat split; [lia | eauto | exact Hl].
Qed.

(* ------------------------------------------------------------------ *)
(** *** The split of a pending block *)

Lemma split_first_chunk_app (t : BlockType) (pl : lines_chunk) :
  fst (split_first_chunk t pl) ++ snd (split_first_chunk t pl) = pl.
Proof.
  induction pl as [|[lt l] pl IH]; [reflexivity|].
  cbn [split_first_chunk].
  destruct (is_empty l || _); [|reflexivity].
  destruct (split_first_chunk t pl) as [a b]. cbn in *. rewrite IH.
  reflexivity.
Qed.

(** The two parts of a split make up the block, in order. *)
Lemma extract_partition (pl : lines_chunk) :
  extracted (extract_from_pending_block pl)
  ++ pending (extract_from_pending_block pl) = pl.
Proof.
  unfold extract_from_pending_block.
  destruct pl as [|x pl']; [reflexivity|]. cbn [truthy negb].
  set (pl := x :: pl'). clearbody pl.
  destruct (detect_first_line_with_min_indent pl) as [[m i]|];
    [|cbn; apply app_nil_r].
  destruct (negb (m =? 0)); [cbn; apply app_nil_r|].
  destruct (_ && _).
  - cbn. apply firstn_skipn.
  - pose proof (split_first_chunk_app
                  (fst (nth i pl (Indent, mkLine 0 true false (-1) [] [] [])))
                  pl) as H.
    destruct (split_first_chunk _ pl) as [a b]. exact H.
Qed.

Lemma extract_common (pl : lines_chunk) :
  common_indent (extract_from_pending_block pl)
  = match detect_first_line_with_min_indent pl with
    | Some (m, _) => m
    | None => 0
    end.
Proof.
  unfold extract_from_pending_block.
  destruct pl as [|x pl']; [reflexivity|]. cbn [truthy negb].
  set (pl := x :: pl'). clearbody pl.
  destruct (detect_first_line_with_min_indent pl) as [[m i]|]; [|reflexivity].
  destruct (m =? 0) eqn:E; cbn [negb]; [|reflexivity].
  apply Z.eqb_eq in E. subst m.
  destruct (_ && _); [reflexivity|].
  destruct (split_first_chunk _ pl). reflexivity.
Qed.

Lemma nth_error_nth {A} (l : list A) (i : nat) (x d : A) :
  nth_error l i = Some x -> nth i l d = x.
Proof.
  revert i. induction l as [|y l IH]; intros [|i]; cbn; try discriminate.
  - intros H. inversion H. reflexivity.
  - apply IH.
Qed.

Lemma split_first_chunk_head (t : BlockType) (x : BlockType * ParsedLine)
    (pl : lines_chunk) :
  is_empty (snd x) = true
  \/ (indent (snd x) = 0 /\ fst x = t) ->
  fst (split_first_chunk t (x :: pl)) <> [].
Proof.
  intros H. destruct x as [lt l]. cbn [split_first_chunk]. cbn [fst snd] in H.
  assert (E : is_empty l || ((indent l =? 0) && BlockType_eqb lt t) = true).
  { destruct H as [H | [H1 H2]].
    - rewrite H. reflexivity.
    - rewrite H1, H2. rewrite Z.eqb_refl.
      destruct t; cbn; apply orb_true_r. }
  rewrite E. destruct (split_first_chunk t pl). cbn. discriminate.
Qed.

(** The three outcomes of a split of a block that is not empty. *)
Lemma extract_cases (pl : lines_chunk) :
  pl <> [] ->
  let s := extract_from_pending_block pl in
  (extracted_is_final s = true /\ common_indent s = 0 /\ extracted s <> [])
  \/ (extracted_is_final s = false /\ common_indent s <> 0
      /\ extracted s = pl /\ pending s = [])
  \/ (extracted_is_final s = false /\ common_indent s = 0
      /\ extracted s <> [] /\ pending s <> []).
Proof.
  intros Hne. cbv zeta. unfold extract_from_pending_block.
  destruct pl as [|x pl'] eqn:Epl; [congruence|]. cbn [truthy negb].
  rewrite <- Epl in *.
  destruct (detect_first_line_with_min_indent pl) as [[m i]|] eqn:Ed.
  2:{ left. cbn. repeat split. exact Hne. }
  destruct (detect_first_spec pl m i Ed) as (Hi & (tl & Hn & He & Hm) & _).
  destruct (m =? 0) eqn:E0; cbn [negb].
  2:{ right. left. cbn. apply Z.eqb_neq in E0. repeat split. exact E0. }
  apply Z.eqb_eq in E0. rewrite E0 in Hm. clear Ed E0 m.
  destruct ((0 <? i)%nat
            && negb (forallb (fun tl => is_empty (snd tl)) (firstn i pl)))
    eqn:Esplit.
  - right. right. cbn. apply andb_prop in Esplit. destruct Esplit as [Hpos _].
    apply Nat.ltb_lt in Hpos. repeat split.
    + intros E. apply (f_equal (@length _)) in E.
      rewrite length_firstn in E. cbn in E. lia.
    + intros E. apply (f_equal (@length _)) in E.
      rewrite length_skipn in E. cbn in E. lia.
  - left.
    pose proof (split_first_chunk_head
                  (fst (nth i pl (Indent, mkLine 0 true false (-1) [] [] [])))
                  x pl') as Hhead.
    rewrite <- Epl in Hhead.
    destruct (split_first_chunk _ pl) as [a b] eqn:Es. cbn.
    repeat split. cbn [fst] in Hhead. apply Hhead.
    destruct i as [|i].
    + (* the first line is the first real one *)
      right. rewrite Epl in Hn. cbn in Hn. inversion Hn; subst tl.
      split; [exact Hm|]. rewrite Epl. reflexivity.
    + (* empty lines come first *)
      left. cbn [Nat.ltb Nat.leb andb] in Esplit.
      apply negb_false_iff in Esplit.
      rewrite Epl in Esplit. cbn [firstn forallb] in Esplit.
      apply andb_prop in Esplit. apply Esplit.
Qed.

(** The in-place offset of a chunk as a map over its lines. *)
Lemma offset_chunk_map (pl : lines_chunk) (off : Z) :
  off <> 0 ->
  offset_chunk pl off
  = map (fun tl => (fst tl, set_indent (Z.max (indent (snd tl) + off) 0)
                                       (snd tl))) pl.
Proof.
  intros Hoff. unfold offset_chunk, offset_indent.
  apply Z.eqb_neq in Hoff. rewrite Hoff. cbn [orb].
  destruct pl as [|x pl]; [reflexivity|].
  cbn [map truthy negb]. cbn [combine]. f_equal.
  induction pl as [|y pl IH]; [reflexivity|].
  cbn [map combine]. f_equal. exact IH.
Qed.

(** After its common indent is taken off, a block has none left. *)
Lemma offset_chunk_no_indent (pl : lines_chunk) :
  let m := common_indent (extract_from_pending_block pl) in
  m <> 0 ->
  common_indent (extract_from_pending_block (offset_chunk pl (- m))) = 0.
Proof.
  cbv zeta. intros Hm.
  set (m := common_indent (extract_from_pending_block pl)) in *.
  assert (Em := extract_common pl). fold m in Em.
  destruct (detect_first_line_with_min_indent pl) as [[m0 i]|] eqn:Ed;
    [|congruence].
  subst m0.
  destruct (detect_first_spec pl m i Ed) as (Hi & (tl & Hn & He & Hmi) & Hlow).
  rewrite offset_chunk_map by lia.
  set (f := fun tl : BlockType * ParsedLine =>
              (fst tl, set_indent (Z.max (indent (snd tl) + - m) 0) (snd tl))).
  rewrite extract_common.
  destruct (detect_first_line_with_min_indent (map f pl)) as [[m' i']|] eqn:Ed';
    [|reflexivity].
  destruct (detect_first_spec _ m' i' Ed')
    as (Hi' & (tl' & Hn' & He' & Hmi') & Hlow').
  (* the minimum is not negative *)
  assert (H0 : 0 <= m').
  { rewrite nth_error_map in Hn'.
    destruct (nth_error pl i') as [u|]; [|discriminate].
    cbn in Hn'. inversion Hn'; subst tl'. cbn in Hmi'. lia. }
  (* the line that had the minimal indent sits at zero *)
  assert (H1 : m' <= 0).
  { rewrite Forall_forall in Hlow'.
    specialize (Hlow' (f tl)).
    assert (Hin : In (f tl) (map f pl)).
    { apply in_map. apply nth_error_In with (n := i). exact Hn. }
    specialize (Hlow' Hin). cbn in Hlow'. specialize (Hlow' He).
    lia. }
  lia.
Qed.


(* ------------------------------------------------------------------ *)
(** *** The walk without assertions *)

Lemma weight_bound (pl : lines_chunk) :
  pl <> [] -> (4 * length pl - 3 <= weight pl <= 4 * length pl - 2)%nat.
Proof.
  intros H. destruct pl as [|x pl]; [congruence|].
  unfold weight. destruct (_ =? 0); cbn [length]; lia.
Qed.

Lemma weight_pos (pl : lines_chunk) : (1 <= weight pl)%nat.
Proof.
  destruct pl as [|x pl]; [cbn; lia|].
  pose proof (weight_bound (x :: pl) ltac:(discriminate)). cbn [length] in *.
  lia.
Qed.

Lemma potential_app (s1 s2 : list _StackLevelBlock) :
  potential (s1 ++ s2) = (potential s1 + potential s2)%nat.
Proof.
  induction s1 as [|b s1 IH]; [reflexivity|].
  cbn [app potential fold_right]. fold (potential (s1 ++ s2)).
  fold (potential s1). lia.
Qed.

Lemma waiting_app (s1 s2 : list _StackLevelBlock) :
  waiting (s1 ++ s2) = waiting s1 ++ waiting s2.
Proof. unfold waiting. rewrite map_app, concat_app. reflexivity. Qed.

(** Without assertions, the level of a child is always found. *)
Lemma detect_without_assertions (parent : _StackLevelBlock)
    (child_type : BlockType) (d : Z) :
  0 <= d -> -1 <= StackLevelBlock.list_level parent ->
  exists ll il,
    detect_sub_block_list_level false parent child_type d = Ok (ll, il)
    /\ -1 <= ll.
Proof.
  intros Hd Hl. unfold detect_sub_block_list_level, assert. cbn [andb Py.bind].
  destruct (negb _).
  - eexists. eexists. split; [reflexivity | lia].
  - destruct (BlockType_eqb (in_list parent) Indent).
    + eexists. eexists. split; [reflexivity | lia].
    + eexists. eexists. split; [reflexivity | lia].
Qed.

Lemma content_flush (lines : list ParsedLine) (t l : Z) :
  map content (flush_to_output lines t l) = map content lines.
Proof.
  unfold flush_to_output. rewrite map_map. apply map_ext.
  intros x. reflexivity.
Qed.

Lemma emitted_flush (lines : list ParsedLine) (t l : Z) :
  0 <= t -> -1 <= l -> Forall emitted (flush_to_output lines t l).
Proof.
  intros Ht Hl. unfold flush_to_output. apply Forall_forall.
  intros x Hx. apply in_map_iff in Hx. destruct Hx as (y & E & _). subst x.
  split; cbn; assumption.
Qed.

Lemma content_offset_chunk (pl : lines_chunk) (off : Z) :
  map content (map snd (offset_chunk pl off)) = map content (map snd pl).
Proof.
  destruct (Z.eq_dec off 0) as [E | E].
  - subst off. unfold offset_chunk, offset_indent. cbn [Z.eqb orb].
    f_equal. clear. induction pl as [|[t l] pl IH]; [reflexivity|].
    cbn [map combine snd]. f_equal. exact IH.
  - rewrite offset_chunk_map by exact E. rewrite !map_map.
    apply map_ext. intros x. reflexivity.
Qed.

Lemma truthy_true {A} (l : list A) : l <> [] -> truthy l = true.
Proof. destruct l; [congruence | reflexivity]. Qed.

Lemma assert_off (cond : bool) : assert false cond = Ok tt.
Proof. reflexivity. Qed.

Lemma length_offset_chunk (pl : lines_chunk) (off : Z) :
  off <> 0 -> length (offset_chunk pl off) = length pl.
Proof. intros H. rewrite offset_chunk_map by exact H. apply length_map. Qed.

Lemma waiting_one (b : _StackLevelBlock) :
  waiting [b] = map snd (pending_lines b).
Proof. unfold waiting. cbn [map concat]. apply app_nil_r. Qed.

Lemma waiting_two (a b : _StackLevelBlock) :
  waiting [a; b] = map snd (pending_lines a) ++ map snd (pending_lines b).
Proof. unfold waiting. cbn [map concat]. rewrite app_nil_r. reflexivity. Qed.

(** One iteration of the walk without assertions: it raises nothing, it
    lowers the measure, it keeps the records in order and it emits only
    finished records. *)
Lemma iteration_progress (self : SpaceToTabsConverter)
    (out : list ParsedLine) (top : _StackLevelBlock)
    (stack : list _StackLevelBlock) :
  level_ok top ->
  exists flushed new_levels,
    iteration false self out top stack
    = Ok (mkWalk (out ++ flushed) (new_levels ++ stack))
    /\ (potential new_levels < weight (pending_lines top))%nat
    /\ map content flushed ++ map content (waiting new_levels)
       = map content (map snd (pending_lines top))
    /\ Forall level_ok new_levels
    /\ Forall emitted flushed.
Proof.
  intros [Htab Hlev]. unfold iteration.
  destruct (pending_lines top) as [|x0 pl0] eqn:Epl.
  { (* an empty level is dropped *)
    exists [], []. cbn [truthy negb]. rewrite app_nil_r.
    repeat split; try constructor. }
  rewrite <- Epl. assert (Hne : pending_lines top <> []) by congruence.
  set (pl := pending_lines top) in *. clearbody pl. clear Epl x0 pl0.
  rewrite (truthy_true pl Hne). cbn [negb].
  pose proof (extract_partition pl) as Hpart.
  pose proof (weight_bound pl Hne) as Hw.
  destruct (extract_cases pl Hne)
    as [(Hfin & Hci & Hext) | [(Hfin & Hci & Hext & Hpen)
                              | (Hfin & Hci & Hext & Hpen)]];
    cbv zeta in Hfin, Hci, Hext;
    set (s := extract_from_pending_block pl) in *;
    rewrite Hfin; rewrite !assert_off; cbn [Py.bind].
  - (* a final chunk is flushed *)
    assert (Hlen : (length (extracted s) + length (pending s)
                    = length pl)%nat)
      by (rewrite <- length_app, Hpart; reflexivity).
    assert (Hlen1 : (1 <= length (extracted s))%nat)
      by (destruct (extracted s); [congruence | cbn; lia]).
    destruct (pending s) as [|y rest] eqn:Erest.
    + cbn [truthy].
      exists (flush_to_output (map snd (extracted s)) (indent_tabs_abs top)
                              (StackLevelBlock.list_level top)), [].
      repeat split.
      * cbn. lia.
      * unfold waiting. cbn [map concat]. rewrite content_flush.
        rewrite app_nil_r in Hpart |- *. rewrite Hpart. reflexivity.
      * constructor.
      * apply emitted_flush; assumption.
    + cbn [truthy].
      destruct (detect_without_assertions top
                  (FirstExtractedSubBlock.block_type s) 0 ltac:(lia) Hlev)
        as (ll & il & Hdet & Hll).
      rewrite Hdet. cbn [Py.bind].
      exists (flush_to_output (map snd (extracted s)) (indent_tabs_abs top)
                              (StackLevelBlock.list_level top)).
      eexists [_]. split; [reflexivity|].
      repeat split.
      * cbn [potential fold_right pending_lines copy].
        pose proof (weight_bound (y :: rest) ltac:(discriminate)).
        cbn [length] in *. lia.
      * rewrite waiting_one. cbn [pending_lines copy].
        rewrite content_flush, <- map_app, <- map_app, Hpart.
        reflexivity.
      * constructor; [|constructor]. split; cbn; assumption.
      * apply emitted_flush; assumption.
  - (* an indented block becomes a deeper level *)
    rewrite Hext.
    assert (Hci' : (common_indent s =? 0) = false) by (apply Z.eqb_neq; exact Hci).
    rewrite Hci'. cbn [negb]. rewrite ?assert_off. cbn [Py.bind].
    pose proof (common_spaces_to_tabs_nonneg self (common_indent s)) as Hd.
    destruct (detect_without_assertions top
                (FirstExtractedSubBlock.block_type s)
                (_common_block_spaces_to_tabs self (common_indent s)) Hd Hlev)
      as (ll & il & Hdet & Hll).
    rewrite Hdet. cbn [Py.bind].
    exists []. eexists [_]. rewrite app_nil_r. split; [reflexivity|].
    repeat split.
    + cbn [potential fold_right pending_lines].
      pose proof (offset_chunk_no_indent pl) as H0. cbv zeta in H0.
      fold s in H0. specialize (H0 Hci).
      pose proof (length_offset_chunk pl (- common_indent s) ltac:(lia)) as Hl.
      unfold weight at 1.
      destruct (offset_chunk pl (- common_indent s)) as [|z zs] eqn:Eoff.
      * cbn in Hl. destruct pl; [congruence | cbn in Hl; lia].
      * rewrite H0. cbn [Z.eqb]. rewrite Hl.
        unfold weight. destruct pl as [|p pl']; [congruence|].
        fold s. rewrite Hci'. cbn [length]. lia.
    + rewrite waiting_one. cbn [pending_lines app map].
      apply content_offset_chunk.
    + constructor; [|constructor]. split; cbn; lia.
    + constructor.
  - (* lines above the first unindented one are split off *)
    assert (Hlen : (length (extracted s) + length (pending s)
                    = length pl)%nat)
      by (rewrite <- length_app, Hpart; reflexivity).
    assert (Hci' : (common_indent s =? 0) = true) by (apply Z.eqb_eq; exact Hci).
    rewrite Hci'. cbn [negb]. rewrite ?assert_off. cbn [Py.bind].
    destruct (pending s) as [|[bt first_pending_line] rest] eqn:Erest;
      [congruence|].
    rewrite ?assert_off. cbn [Py.bind].
    destruct (detect_without_assertions top bt 0 ltac:(lia) Hlev)
      as (ll & il & Hdet & Hll).
    rewrite Hdet. cbn [Py.bind].
    destruct (detect_without_assertions
                (copy top ll il bt ((bt, first_pending_line) :: rest))
                Indent 0 ltac:(lia) Hll)
      as (ll2 & il2 & Hdet2 & Hll2).
    rewrite Hdet2. cbn [Py.bind].
    exists []. eexists [_; _]. rewrite app_nil_r. split; [reflexivity|].
    repeat split.
    + cbn [potential fold_right pending_lines copy].
      pose proof (weight_bound _ Hext).
      assert (Hlen1 : (1 <= length (extracted s))%nat)
        by (destruct (extracted s); [congruence | cbn; lia]).
      pose proof (weight_bound ((bt, first_pending_line) :: rest)
                    ltac:(discriminate)).
      cbn [length] in *. lia.
    + rewrite waiting_two. cbn [pending_lines copy].
      change (map content [] ++ ?x) with x. rewrite <- map_app, Hpart.
      reflexivity.
    + constructor; [|constructor; [|constructor]]; split; cbn; assumption.
    + constructor.
Qed.

(** The walk without assertions ends within the measure of its stack and
    emits what was emitted before it and what the stack held, in order. *)
Lemma walk_loop_total (self : SpaceToTabsConverter) :
  forall (fuel : nat) (w : walk),
    (potential (pending_stack w) <= fuel)%nat ->
    Forall level_ok (pending_stack w) ->
    Forall emitted (output w) ->
    exists out,
      walk_loop false self fuel w = Ok out
      /\ map content out
         = map content (output w) ++ map content (waiting (pending_stack w))
      /\ Forall emitted out.
Proof.
  induction fuel as [|fuel IH]; intros [out stack] Hpot Hlev Hout;
    cbn [pending_stack output] in *.
  - destruct stack as [|top stack].
    + exists out. cbn. rewrite app_nil_r. auto.
    + cbn [potential fold_right] in Hpot.
      pose proof (weight_pos (pending_lines top)). lia.
  - destruct stack as [|top stack].
    + exists out. cbn. rewrite app_nil_r. auto.
    + inversion Hlev as [|? ? Htop Hrest]; subst.
      destruct (iteration_progress self out top stack Htop)
        as (flushed & new_levels & Hit & Hdec & Hcont & Hnew & Hfl).
      cbn [walk_loop pending_stack output]. rewrite Hit. cbn [Py.bind].
      destruct (IH (mkWalk (out ++ flushed) (new_levels ++ stack)))
        as (res & Hres & Hmap & Hem).
      * cbn [pending_stack]. rewrite potential_app.
        cbn [potential fold_right] in Hpot. fold (potential stack) in Hpot.
        lia.
      * cbn [pending_stack]. apply Forall_app. split; assumption.
      * cbn [output]. apply Forall_app. split; assumption.
      * exists res. split; [exact Hres|]. split; [|exact Hem].
        rewrite Hmap. cbn [output pending_stack].
        rewrite waiting_app, !map_app, <- app_assoc.
        rewrite (app_assoc (map content flushed)), Hcont.
        change (top :: stack) with ([top] ++ stack).
        rewrite waiting_app, waiting_one, map_app. reflexivity.
Qed.

(** Without assertions, the classification of the input raises nothing. *)
Lemma classify_without_assertions (lines : list ParsedLine) :
  exists classified,
    mapM (fun x => t <- Line.block_type false x ;; Ok (t, x)) lines
    = Ok classified
    /\ map snd classified = lines.
Proof.
  induction lines as [|l lines (cl & Hcl & Hsnd)].
  - exists []. split; reflexivity.
  - cbn [mapM]. rewrite Hcl.
    assert (Ht : exists t, Line.block_type false l = Ok t).
    { unfold Line.block_type, assert. cbn [andb Py.bind].
      destruct (negb (is_list l)); [eauto|].
      destruct (truthy (bullet l)); eauto. }
    destruct Ht as [t Ht]. rewrite Ht. cbn [Py.bind].
    exists ((t, l) :: cl). split; [reflexivity|]. cbn. rewrite Hsnd.
    reflexivity.
Qed.

Lemma convert_off_spec (self : SpaceToTabsConverter)
    (input_lines : list ParsedLine) :
  exists out,
    convert false self input_lines = Ok out
    /\ map content out = map content input_lines
    /\ Forall emitted out.
Proof.
  unfold convert, convert_fuel.
  destruct (classify_without_assertions input_lines) as (cl & Hcl & Hsnd).
  rewrite Hcl. cbn [Py.bind].
  destruct (walk_loop_total self (4 * length input_lines + 1)
              (mkWalk [] [root cl])) as (out & Hout & Hmap & Hem).
  - cbn [pending_stack potential fold_right root pending_lines].
    assert (Hlen : length cl = length input_lines)
      by (rewrite <- Hsnd; symmetry; apply length_map).
    destruct cl as [|c cl'].
    + cbn. lia.
    + pose proof (weight_bound (c :: cl') ltac:(discriminate)). lia.
  - constructor; [|constructor]. split; cbn; lia.
  - constructor.
  - exists out. split; [exact Hout|]. split; [|exact Hem].
    rewrite Hmap. cbn [output pending_stack map app].
    rewrite waiting_one. cbn [root pending_lines]. rewrite Hsnd.
    reflexivity.
Qed.

(* ------------------------------------------------------------------ *)
(** *** Assertions only add failures *)

Lemma detect_assertions (parent : _StackLevelBlock) (child_type : BlockType)
    (d : Z) (r : Z * BlockType) :
  detect_sub_block_list_level true parent child_type d = Ok r ->
  detect_sub_block_list_level false parent child_type d = Ok r.
Proof.
  unfold detect_sub_block_list_level. intros H.
  destruct (negb _); [exact H|].
  rewrite !assert_off. cbn [Py.bind].
  destruct (BlockType_eqb (in_list parent) Indent);
    split_asserts H; exact H.
Qed.

Lemma iteration_assertions (self : SpaceToTabsConverter)
    (out : list ParsedLine) (top : _StackLevelBlock)
    (stack : list _StackLevelBlock) (w : walk) :
  iteration true self out top stack = Ok w ->
  iteration false self out top stack = Ok w.
Proof.
  unfold iteration. intros H.
  destruct (negb (truthy (pending_lines top))); [exact H|].
  set (s := extract_from_pending_block (pending_lines top)) in *.
  rewrite !assert_off. cbn [Py.bind].
  destruct (extracted_is_final s).
  - split_asserts H.
    destruct (truthy (pending s)); [|exact H].
    destruct (detect_sub_block_list_level true top _ 0) as [r| |] eqn:E;
      cbn [Py.bind] in H; try discriminate H.
    rewrite (detect_assertions _ _ _ _ E). exact H.
  - split_asserts H.
    destruct (negb (common_indent s =? 0)).
    + split_asserts H.
      destruct (detect_sub_block_list_level true top _ _) as [r| |] eqn:E;
        cbn [Py.bind] in H; try discriminate H.
      rewrite (detect_assertions _ _ _ _ E). exact H.
    + split_asserts H.
      destruct (pending s) as [|[bt fpl] rest]; [exact H|].
      split_asserts H. rewrite ?assert_off. cbn [Py.bind].
      destruct (detect_sub_block_list_level true top bt 0) as [[ll il]| |] eqn:E;
        cbn [Py.bind] in H; try discriminate H.
      rewrite (detect_assertions _ _ _ _ E). cbn [Py.bind].
      destruct (detect_sub_block_list_level true _ Indent 0) as [r2| |] eqn:E2;
        cbn [Py.bind] in H; try discriminate H.
      rewrite (detect_assertions _ _ _ _ E2). exact H.
Qed.

Lemma walk_loop_assertions (self : SpaceToTabsConverter) :
  forall (fuel : nat) (w : walk) (out : list ParsedLine),
    walk_loop true self fuel w = Ok out ->
    walk_loop false self fuel w = Ok out.
Proof.
  induction fuel as [|fuel IH]; intros w out H; cbn [walk_loop] in *.
  - destruct (pending_stack w); [exact H | discriminate H].
  - destruct (pending_stack w) as [|top stack]; [exact H|].
    destruct (iteration true self (output w) top stack) as [w'| |] eqn:E;
      cbn [Py.bind] in H; try discriminate H.
    rewrite (iteration_assertions _ _ _ _ _ E). cbn [Py.bind].
    apply IH, H.
Qed.

Lemma classify_assertions (lines : list ParsedLine) (cl : lines_chunk) :
  mapM (fun x => t <- Line.block_type true x ;; Ok (t, x)) lines = Ok cl ->
  mapM (fun x => t <- Line.block_type false x ;; Ok (t, x)) lines = Ok cl.
Proof.
  revert cl. induction lines as [|l lines IH]; intros cl H; [exact H|].
  cbn [mapM] in *.
  destruct (Line.block_type true l) as [t| |] eqn:E;
    cbn [Py.bind] in H; try discriminate H.
  rewrite (block_type_assertions _ _ E). cbn [Py.bind].
  destruct (mapM _ lines) as [cl'| |]; cbn [Py.bind] in H; try discriminate H.
  rewrite (IH cl' eq_refl). exact H.
Qed.

(** Whatever [convert] returns with assertions on, it returns without them:
    the input records, once each and in their order, with [indent] and
    [list_level] rewritten to a number of tabs and to -1 or a nesting
    depth. *)
Theorem convert_returns (self : SpaceToTabsConverter)
    (input_lines out : list ParsedLine) :
  convert true self input_lines = Ok out ->
  convert false self input_lines = Ok out
  /\ map content out = map content input_lines
  /\ Forall emitted out.
Proof.
  intros H.
  assert (H' : convert false self input_lines = Ok out).
  { unfold convert, convert_fuel in *.
    destruct (mapM _ input_lines) as [cl| |] eqn:E;
      cbn [Py.bind] in H; try discriminate H.
    rewrite (classify_assertions _ _ E). cbn [Py.bind].
    apply walk_loop_assertions, H. }
  split; [exact H'|].
  destruct (convert_off_spec self input_lines)
    as (out' & Hout' & Hc & He).
  rewrite H' in Hout'. inversion Hout'; subst out'. auto.
Qed.

Lemma convert_returns_witness :
  exists out,
    convert true (SpaceToTabsConverter_init false 4)
      [mkLine 8 false true (-1) [45] [] [97];
       mkLine 0 true false (-1) [] [] [];
       mkLine 8 false true (-1) [45] [] [98]] = Ok out
    /\ map indent out = [2; 2; 2]
    /\ map content out
       = map content [mkLine 8 false true (-1) [45] [] [97];
                      mkLine 0 true false (-1) [] [] [];
                      mkLine 8 false true (-1) [45] [] [98]].
Proof.
  eexists. split; [vm_compute; reflexivity|].
  split; [reflexivity|].
  apply (convert_returns (SpaceToTabsConverter_init false 4)).
  vm_compute. reflexivity.
Defined.

(* ------------------------------------------------------------------ *)
(** *** The budget of the walk is never used up *)

Lemma detect_ends (dbg : bool) (parent : _StackLevelBlock)
    (child_type : BlockType) (d : Z) :
  detect_sub_block_list_level dbg parent child_type d <> OutOfFuel.
Proof.
  unfold detect_sub_block_list_level, assert.
  repeat match goal with
         | |- context [if ?c then _ else _] =>
             destruct c; cbn [Py.bind]; try discriminate
         end.
Qed.

Lemma bind_ends {A B} (m : result A) (k : A -> result B) :
  m <> OutOfFuel -> (forall a, k a <> OutOfFuel) -> Py.bind m k <> OutOfFuel.
Proof. intros Hm Hk. destruct m; cbn; [apply Hk | discriminate | congruence]. Qed.

Lemma assert_ends (dbg cond : bool) : assert dbg cond <> OutOfFuel.
Proof. unfold assert. destruct (dbg && negb cond); discriminate. Qed.

Lemma iteration_ends (dbg : bool) (self : SpaceToTabsConverter)
    (out : list ParsedLine) (top : _StackLevelBlock)
    (stack : list _StackLevelBlock) :
  iteration dbg self out top stack <> OutOfFuel.
Proof.
  unfold iteration.
  repeat first
    [ discriminate
    | apply bind_ends; [first [apply assert_ends | apply detect_ends] | intros ?]
    | match goal with
      | |- (let (_, _) := ?r in _) <> _ => destruct r
      | |- (if ?c then _ else _) <> _ => destruct c
      | |- match ?l with [] => _ | _ :: _ => _ end <> _ => destruct l as [|[? ?] ?]
      end ].
Qed.

Lemma walk_loop_ends (self : SpaceToTabsConverter) :
  forall (fuel : nat) (w : walk),
    (potential (pending_stack w) <= fuel)%nat ->
    Forall level_ok (pending_stack w) ->
    walk_loop true self fuel w <> OutOfFuel.
Proof.
  induction fuel as [|fuel IH]; intros [out stack] Hpot Hlev;
    cbn [pending_stack output] in *.
  - destruct stack as [|top stack]; [discriminate|].
    cbn [potential fold_right] in Hpot.
    pose proof (weight_pos (pending_lines top)). lia.
  - destruct stack as [|top stack]; [discriminate|].
    cbn [walk_loop pending_stack output].
    inversion Hlev as [|? ? Htop Hrest]; subst.
    destruct (iteration true self out top stack) as [w'| |] eqn:E;
      cbn [Py.bind]; [|discriminate|].
    + apply iteration_assertions in E.
      destruct (iteration_progress self out top stack Htop)
        as (flushed & new_levels & Hit & Hdec & _ & Hnew & _).
      rewrite Hit in E. inversion E; subst w'; clear E.
      apply IH.
      * cbn [pending_stack]. rewrite potential_app.
        cbn [potential fold_right] in Hpot. fold (potential stack) in Hpot.
        lia.
      * cbn [pending_stack]. apply Forall_app. split; assumption.
    + exfalso. exact (iteration_ends true self out top stack E).
Qed.

(** [convert] ends within its budget, with or without assertions: it
    returns or it raises. *)
Theorem convert_ends (dbg : bool) (self : SpaceToTabsConverter)
    (input_lines : list ParsedLine) :
  convert dbg self input_lines <> OutOfFuel.
Proof.
  destruct dbg.
  - unfold convert, convert_fuel.
    destruct (mapM _ input_lines) as [cl| |] eqn:E; cbn [Py.bind];
      [|discriminate|].
    + apply walk_loop_ends.
      * cbn [pending_stack potential fold_right root pending_lines].
        assert (Hlen : length cl = length input_lines).
        { apply classify_assertions in E.
          destruct (classify_without_assertions input_lines)
            as (cl' & Hcl' & Hsnd).
          rewrite E in Hcl'. inversion Hcl'; subst cl'.
          rewrite <- Hsnd. symmetry. apply length_map. }
        destruct cl as [|c cl'].
        -- cbn. lia.
        -- pose proof (weight_bound (c :: cl') ltac:(discriminate)). lia.
      * constructor; [|constructor]. split; cbn; lia.
    + exfalso. revert E. clear. induction input_lines as [|l lines IH].
      * discriminate.
      * cbn [mapM]. unfold Line.block_type at 1, assert.
        destruct (negb (is_list l)); cbn [Py.bind andb].
        -- destruct (mapM _ lines); cbn; try discriminate. intros _.
           apply IH. reflexivity.
        -- destruct (truthy (bullet l)); cbn [Py.bind].
           ++ destruct (mapM _ lines); cbn; try discriminate. intros _.
              apply IH. reflexivity.
           ++ destruct (truthy (number l)); cbn [negb Py.bind];
                [|discriminate].
              destruct (mapM _ lines); cbn; try discriminate. intros _.
              apply IH. reflexivity.
  - destruct (convert_off_spec self input_lines) as (out & H & _).
    rewrite H. discriminate.
Qed.


(* ------------------------------------------------------------------ *)
(** *** The assertion before the flush *)

(** C1 (the code where the claim fails).  Whenever the first chunk that
    [convert] extracts is a final one that leaves lines pending (lines at
    indent zero of one kind, followed by a line of another indent or kind),
    [convert] raises [AssertionError] and returns nothing: the assertion
    before the flush demands that no line is left pending, and the code
    after the flush re-queues the pending lines. *)
Theorem C1_convert_assertion_fails (self : SpaceToTabsConverter)
    (input_lines : list ParsedLine) (classified : lines_chunk) :
  mapM (fun x => t <- Line.block_type true x ;; Ok (t, x)) input_lines
  = Ok classified ->
  extracted_is_final (extract_from_pending_block classified) = true ->
  pending (extract_from_pending_block classified) <> [] ->
  convert true self input_lines = Raise AssertionError.
Proof.
  intros Hcl Hfin Hpen. unfold convert, convert_fuel. rewrite Hcl.
  cbn [Py.bind]. rewrite Nat.add_1_r.
  cbn [walk_loop pending_stack output]. unfold iteration.
  cbn [root pending_lines].
  assert (Hne : classified <> []).
  { intros E. subst classified. apply Hpen. reflexivity. }
  rewrite (truthy_true _ Hne). cbn [negb]. rewrite Hfin.
  rewrite (truthy_true _ Hpen). rewrite andb_false_r.
  reflexivity.
Qed.

(** C1, witness: a text line at indent 0 followed by one at indent 4, which
    is what Pass 1 returns for three such lines. *)
Lemma C1_witness :
  pass1_join_raw_blocks true
    [mkLine 0 false false (-1) [] [] (lit "a");
     mkLine 4 false false (-1) [] [] (lit "b");
     mkLine 0 false false (-1) [] [] (lit "c")]
  = Ok (0, [mkLine 0 false false (-1) [] [] (lit "a");
            mkLine 4 false false (-1) [] [] (lit "b")])
  /\ convert true (SpaceToTabsConverter_init true 4)
       [mkLine 0 false false (-1) [] [] (lit "a");
        mkLine 4 false false (-1) [] [] (lit "b")]
     = Raise AssertionError.
Proof.
  split; [vm_compute; reflexivity|].
  apply (C1_convert_assertion_fails _ _
           [(Indent, mkLine 0 false false (-1) [] [] (lit "a"));
            (Indent, mkLine 4 false false (-1) [] [] (lit "b"))]);
    [reflexivity | reflexivity | discriminate].
Defined.

End StackWalk.

(* ================================================================== *)
(** ** What the matcher returns, the pattern can do *)

Lemma star_loop_sound (g : bool) (r : regex) :
  (forall s c k c', run r s c k = Some c' ->
     exists s1 c1, steps r s c s1 c1 /\ k s1 c1 = Some c') ->
  forall fuel s c k c',
    star_loop g (run r) k fuel s c = Some c' ->
    exists s1 c1, steps (Star g r) s c s1 c1 /\ k s1 c1 = Some c'.
Proof.
  intros IHr. induction fuel as [|fuel IH]; intros s c k c' H.
  - exists s, c. split; [constructor | exact H].
  - rewrite star_loop_S in H. cbv zeta in H.
    assert (Hagain : forall c',
              run r s c (fun s1 c1 =>
                if (length s1 <? length s)%nat
                then star_loop g (run r) k fuel s1 c1 else None) = Some c' ->
              exists s1 c1, steps (Star g r) s c s1 c1 /\ k s1 c1 = Some c').
    { intros c0 H0. apply IHr in H0. destruct H0 as (s1 & c1 & Hst & Hk).
      destruct (length s1 <? length s)%nat; [|discriminate].
      apply IH in Hk. destruct Hk as (s2 & c2 & Hst2 & Hk2).
      exists s2, c2. split; [|exact Hk2].
      eapply steps_star_S; eassumption. }
    assert (Hnow : forall c', k s c = Some c' ->
              exists s1 c1, steps (Star g r) s c s1 c1 /\ k s1 c1 = Some c').
    { intros c0 H0. exists s, c. split; [constructor | exact H0]. }
    destruct g; unfold orelse in H.
    + destruct (run r s c _) eqn:E.
      * inversion H; subst. apply Hagain. reflexivity.
      * apply Hnow, H.
    + destruct (k s c) eqn:E.
      * inversion H; subst. apply Hnow. reflexivity.
      * apply Hagain, H.
Qed.

(** The matcher is sound: what it returns, the pattern can do. *)
Lemma run_sound (r : regex) :
  forall s c k c', run r s c k = Some c' ->
    exists s1 c1, steps r s c s1 c1 /\ k s1 c1 = Some c'.
Proof.
  induction r as [p | r1 IH1 r2 IH2 | r1 IH1 r2 IH2 | g r IH | i r IH |];
    intros s c k c' H.
  - rewrite run_class in H. destruct s as [|x s]; [discriminate|].
    destruct (p x) eqn:Hp; [|discriminate].
    exists s, c. split; [constructor; exact Hp | exact H].
  - cbn [run] in H. apply IH1 in H. destruct H as (s1 & c1 & H1 & H).
    apply IH2 in H. destruct H as (s2 & c2 & H2 & H).
    exists s2, c2. split; [econstructor; eassumption | exact H].
  - cbn [run] in H. unfold orelse in H.
    destruct (run r1 s c k) eqn:E.
    + inversion H; subst. apply IH1 in E. destruct E as (s1 & c1 & H1 & Hk).
      exists s1, c1. split; [apply steps_alt_l; exact H1 | exact Hk].
    + apply IH2 in H. destruct H as (s1 & c1 & H1 & Hk).
      exists s1, c1. split; [apply steps_alt_r; exact H1 | exact Hk].
  - cbn [run] in H. eapply star_loop_sound; eassumption.
  - cbn [run] in H. apply IH in H. destruct H as (s1 & c1 & H1 & Hk).
    eexists s1, _. split; [constructor; exact H1 | exact Hk].
  - cbn [run] in H. exists s, c. split.
    + constructor. destruct s as [|x [|y s]]; [left; reflexivity| |discriminate].
      destruct (x =? LF) eqn:E; [|discriminate]. apply Z.eqb_eq in E.
      right. subst. reflexivity.
    + destruct s as [|x [|y s]]; [exact H| |discriminate].
      destruct (x =? LF); [exact H | discriminate].
Qed.

Lemma match_sound (r : regex) (s : str) (m : captures) :
  re_match r s = Some m -> exists s1, steps r s [] s1 m.
Proof.
  unfold re_match. intros H. apply run_sound in H.
  destruct H as (s1 & c1 & Hst & Hk). inversion Hk; subst. eauto.
Qed.

(* ------------------------------------------------------------------ *)
(** *** The parts of a match *)

Lemma consumed_app (t s1 : str) : consumed (t ++ s1) s1 = t.
Proof.
  unfold consumed. rewrite length_app.
  replace (length t + length s1 - length s1)%nat with (length t + 0)%nat by lia.
  rewrite firstn_app_2. cbn [firstn]. apply app_nil_r.
Qed.

Lemma steps_class_inv (p : char -> bool) s c s1 c1 :
  steps (Class p) s c s1 c1 -> c1 = c /\ exists x, s = x :: s1 /\ p x = true.
Proof. intros H. inv H. split; [reflexivity|]. eauto. Qed.

Lemma steps_cat_inv r1 r2 s c s2 c2 :
  steps (Cat r1 r2) s c s2 c2 ->
  exists s1 c1, steps r1 s c s1 c1 /\ steps r2 s1 c1 s2 c2.
Proof. intros H. inv H. eauto. Qed.

Lemma steps_alt_inv r1 r2 s c s1 c1 :
  steps (Alt r1 r2) s c s1 c1 -> steps r1 s c s1 c1 \/ steps r2 s c s1 c1.
Proof. intros H. inv H; auto. Qed.

Lemma steps_group_inv i r s c s1 c1 :
  steps (Group i r) s c s1 c1 ->
  exists c0, steps r s c s1 c0 /\ c1 = (i, consumed s s1) :: c0.
Proof. intros H. inv H. eauto. Qed.

Lemma steps_star_class (g : bool) (p : char -> bool) s c s1 c1 :
  steps (Star g (Class p)) s c s1 c1 ->
  c1 = c /\ exists t, s = t ++ s1 /\ forallb p t = true.
Proof.
  remember (Star g (Class p)) as r eqn:Er. intros H.
  induction H; inversion Er; subst.
  - split; [reflexivity|]. exists []. split; reflexivity.
  - apply steps_class_inv in H. destruct H as (-> & x & -> & Hx).
    destruct (IHsteps2 eq_refl) as (-> & t & -> & Ht).
    split; [reflexivity|]. exists (x :: t). split; [reflexivity|].
    cbn [forallb]. rewrite Hx, Ht. reflexivity.
Qed.

Lemma steps_plus_class (g : bool) (p : char -> bool) s c s1 c1 :
  steps (Plus g (Class p)) s c s1 c1 ->
  c1 = c /\ exists x t, s = x :: t ++ s1 /\ p x = true /\ forallb p t = true.
Proof.
  unfold Plus. intros H. apply steps_cat_inv in H.
  destruct H as (s0 & c0 & H1 & H2).
  apply steps_class_inv in H1. destruct H1 as (-> & x & -> & Hx).
  apply steps_star_class in H2. destruct H2 as (-> & t & -> & Ht).
  split; [reflexivity|]. eauto.
Qed.

Lemma steps_eos_inv s c s1 c1 :
  steps Eos s c s1 c1 -> c1 = c /\ s1 = s /\ (s = [] \/ s = [LF]).
Proof. intros H. inv H. auto. Qed.

Lemma forallb_dot (t : str) :
  forallb (fun c => negb (c =? LF)) t = true -> mem LF t = false.
Proof.
  induction t as [|x t IH]; [reflexivity|]. cbn [forallb]. intros H.
  apply andb_prop in H. destruct H as [Hx Ht]. rewrite mem_cons.
  apply negb_true_iff in Hx. rewrite Z.eqb_sym in Hx. rewrite Hx. apply IH, Ht.
Qed.

(** The end of a pattern, [( .*? ) $] with group [i]. *)
Lemma steps_text_eos (i : nat) s c s1 c1 :
  steps (Cat (Group i (Star false dot)) Eos) s c s1 c1 ->
  exists t, s = t ++ s1 /\ mem LF t = false /\ (s1 = [] \/ s1 = [LF])
            /\ c1 = (i, t) :: c.
Proof.
  intros H. apply steps_cat_inv in H. destruct H as (s0 & c0 & H1 & H2).
  apply steps_group_inv in H1. destruct H1 as (c00 & H1 & ->).
  unfold dot in H1. apply steps_star_class in H1.
  destruct H1 as (-> & t & -> & Ht).
  apply steps_eos_inv in H2. destruct H2 as (-> & -> & He).
  exists t. rewrite consumed_app. auto using forallb_dot.
Qed.

(** What a match of a bullet pattern looks like: bullet characters, then
    whitespace and text, or whitespace only, up to the end of the line. *)
Lemma bullet_match_shape (B s : str) (m : captures) :
  re_match (bullet_pattern B) s = Some m ->
  exists b w t e,
    s = b ++ w ++ t ++ e
    /\ b <> [] /\ forallb (fun c => mem c B) b = true
    /\ forallb is_space w = true
    /\ (w = [] -> t = [])
    /\ mem LF t = false
    /\ (e = [] \/ e = [LF])
    /\ group_or_empty 1 m = b /\ group_or_empty 2 m = t.
Proof.
  intros H. apply match_sound in H. destruct H as (s1 & H).
  unfold bullet_pattern in H.
  apply steps_cat_inv in H. destruct H as (s0 & c0 & H1 & H2).
  apply steps_group_inv in H1. destruct H1 as (c00 & H1 & ->).
  apply steps_plus_class in H1. destruct H1 as (-> & x & b & -> & Hx & Hb).
  change (x :: b ++ s0) with ((x :: b) ++ s0) in *. rewrite consumed_app in H2.
  apply steps_cat_inv in H2. destruct H2 as (s2 & c2 & H2 & H3).
  apply steps_eos_inv in H3. destruct H3 as (-> & -> & He).
  assert (Hxb : forallb (fun c => mem c B) (x :: b) = true)
    by (cbn [forallb]; rewrite Hx, Hb; reflexivity).
  apply steps_alt_inv in H2. destruct H2 as [H2 | H2].
  - (* whitespace and text *)
    apply steps_cat_inv in H2. destruct H2 as (s3 & c3 & H2 & H3).
    apply steps_plus_class in H2. destruct H2 as (-> & y & w & -> & Hy & Hw).
    apply steps_group_inv in H3. destruct H3 as (c4 & H3 & ->).
    unfold dot in H3. apply steps_star_class in H3.
    destruct H3 as (-> & t & -> & Ht).
    exists (x :: b), (y :: w), t, s2. rewrite consumed_app.
    repeat split; auto using forallb_dot; try discriminate.
    cbn [forallb]. rewrite Hy, Hw. reflexivity.
  - (* whitespace only *)
    unfold ws in H2. apply steps_star_class in H2.
    destruct H2 as (-> & w & -> & Hw).
    exists (x :: b), w, [], s2.
    repeat split; auto; discriminate.
Qed.

Section NumberShape.

Variable unicode_decimal : char -> bool.

Lemma steps_numlet s c s1 c1 :
  steps (number_or_letter unicode_decimal) s c s1 c1 ->
  c1 = c /\ exists x t, s = x :: t ++ s1
                        /\ (unicode_decimal x || is_ascii_letter x) = true.
Proof.
  unfold number_or_letter. intros H. apply steps_alt_inv in H.
  destruct H as [H | H].
  - apply steps_plus_class in H. destruct H as (-> & x & t & -> & Hx & _).
    split; [reflexivity|]. exists x, t. rewrite Hx. auto.
  - apply steps_class_inv in H. destruct H as (-> & x & -> & Hx).
    split; [reflexivity|]. exists x, []. rewrite Hx, orb_true_r. auto.
Qed.

(** [\s* numlet [seps]+], for any class [seps] of separators. *)
Lemma steps_number_part (seps : char -> bool) s c s1 c1 :
  steps (Cat (Star true ws)
             (Cat (number_or_letter unicode_decimal)
                  (Plus true (Class seps)))) s c s1 c1 ->
  c1 = c
  /\ (exists x t, s = x :: t ++ s1 /\ number_start unicode_decimal x = true)
  /\ (exists t x, s = (t ++ [x]) ++ s1 /\ seps x = true).
Proof.
  intros H. apply steps_cat_inv in H. destruct H as (s2 & c2 & H1 & H2).
  unfold ws in H1. apply steps_star_class in H1.
  destruct H1 as (-> & w & -> & Hw).
  apply steps_cat_inv in H2. destruct H2 as (s3 & c3 & H2 & H3).
  apply steps_numlet in H2. destruct H2 as (-> & x & t & -> & Hx).
  apply steps_plus_class in H3. destruct H3 as (-> & y & u & -> & Hy & Hu).
  split; [reflexivity|]. split.
  - unfold number_start. destruct w as [|z w].
    + exists x, (t ++ y :: u). cbn [app]. rewrite <- app_assoc.
      rewrite <- orb_assoc, Hx, orb_true_r. auto.
    + cbn [forallb] in Hw. apply andb_prop in Hw. destruct Hw as [Hz _].
      exists z, (w ++ x :: t ++ y :: u). rewrite Hz. cbn [app orb].
      split; [|reflexivity]. f_equal. rewrite <- !app_assoc. cbn [app].
      rewrite <- app_assoc. reflexivity.
  - destruct (exists_last (l := y :: u) ltac:(discriminate)) as (u' & z & E).
    exists (w ++ x :: t ++ u'), z. split.
    + change (y :: u ++ s1) with ((y :: u) ++ s1). rewrite E.
      rewrite <- !app_assoc. cbn [app]. rewrite <- !app_assoc.
      reflexivity.
    + assert (Hall : forallb seps (y :: u) = true)
        by (cbn [forallb]; rewrite Hy, Hu; reflexivity).
      rewrite E, forallb_app in Hall. apply andb_prop in Hall.
      destruct Hall as [_ Hz]. cbn [forallb] in Hz.
      rewrite andb_true_r in Hz. exact Hz.
Qed.

Lemma steps_number_prefix (r : regex) :
  (forall s c s1 c1, steps r s c s1 c1 ->
     c1 = c /\ exists x t, s = x :: t ++ s1 /\ number_start unicode_decimal x = true) ->
  forall s c s1 c1, steps (Star true r) s c s1 c1 ->
    c1 = c
    /\ exists t, s = t ++ s1
                 /\ (t = [] \/ exists x t', t = x :: t' /\ number_start unicode_decimal x = true).
Proof.
  intros Hr s c s1 c1 H. remember (Star true r) as r0 eqn:Er.
  induction H; inversion Er; subst.
  - split; [reflexivity|]. exists []. auto.
  - apply Hr in H. destruct H as (-> & x & t & -> & Hx).
    destruct (IHsteps2 eq_refl) as (-> & t' & -> & _).
    split; [reflexivity|]. exists (x :: t ++ t'). split.
    + cbn [app]. rewrite <- app_assoc. reflexivity.
    + right. eauto.
Qed.

(** What a match of [_re_number_match_] looks like: the numeration, which
    begins with whitespace, a digit or a letter and ends with a full stop,
    a colon or a closing parenthesis; whitespace; the text. *)
Lemma number_match_shape (s : str) (m : captures) :
  re_match (_re_number_match_ unicode_decimal) s = Some m ->
  exists n w t e,
    s = n ++ w ++ t ++ e
    /\ (exists x n', n = x :: n' /\ number_start unicode_decimal x = true)
    /\ (exists n' x, n = n' ++ [x] /\ mem x end_separators = true)
    /\ forallb is_space w = true
    /\ mem LF t = false
    /\ (e = [] \/ e = [LF])
    /\ group_or_empty 1 m = n /\ group_or_empty 2 m = t.
Proof.
  intros H. apply match_sound in H. destruct H as (s1 & H).
  unfold _re_number_match_ in H.
  apply steps_cat_inv in H. destruct H as (s2 & c2 & H1 & H2).
  apply steps_group_inv in H1. destruct H1 as (c0 & H1 & ->).
  apply steps_cat_inv in H1. destruct H1 as (s3 & c3 & H1 & H3).
  apply (steps_number_prefix _ (fun s c s1 c1 H =>
           let '(conj a (conj b _)) := steps_number_part _ s c s1 c1 H in
           conj a b)) in H1.
  destruct H1 as (-> & p & -> & Hp).
  apply steps_number_part in H3.
  destruct H3 as (-> & (x & t & -> & Hx) & (u & y & Eu & Hy)).
  apply steps_cat_inv in H2. destruct H2 as (s4 & c4 & H2 & H4).
  unfold ws in H2. apply steps_star_class in H2.
  destruct H2 as (-> & w & -> & Hw).
  apply steps_text_eos in H4. destruct H4 as (t' & -> & Ht' & He & ->).
  exists (p ++ x :: t), w, t', s1.
  assert (Hcons : consumed (p ++ x :: t ++ w ++ t' ++ s1) (w ++ t' ++ s1)
                  = p ++ x :: t).
  { replace (p ++ x :: t ++ w ++ t' ++ s1)
      with ((p ++ x :: t) ++ w ++ t' ++ s1)
      by (rewrite <- app_assoc; reflexivity).
    apply consumed_app. }
  rewrite Hcons.
  repeat split; auto.
  - rewrite <- app_assoc. reflexivity.
  - destruct Hp as [-> | (z & p' & -> & Hz)]; cbn [app]; eauto.
  - exists (p ++ u), y. split; [|exact Hy].
    rewrite <- app_assoc.
    change (x :: t ++ w ++ t' ++ s1) with ((x :: t) ++ w ++ t' ++ s1) in Eu.
    apply app_inv_tail in Eu. rewrite Eu. reflexivity.
Qed.

End NumberShape.

(* ------------------------------------------------------------------ *)
(** *** The patterns on a string without line feed *)

Lemma take_drop_while {A} (p : A -> bool) (l : list A) :
  take_while p l ++ drop_while p l = l.
Proof.
  induction l as [|x l IH]; [reflexivity|]. cbn.
  destruct (p x); [cbn; rewrite IH|]; reflexivity.
Qed.

Lemma take_while_all {A} (p : A -> bool) (l : list A) :
  forallb p (take_while p l) = true.
Proof.
  induction l as [|x l IH]; [reflexivity|]. cbn.
  destruct (p x) eqn:E; [cbn; rewrite E, IH|]; reflexivity.
Qed.

Lemma consumed_drop_while (p : char -> bool) (s : str) :
  consumed s (drop_while p s) = take_while p s.
Proof.
  rewrite <- (take_drop_while p s) at 1. apply consumed_app.
Qed.

Lemma eos_rejects (k : cont) (t : str) (c : captures) :
  t <> [] -> mem LF t = false -> run Eos t c k = None.
Proof.
  intros Hne Ht. destruct t as [|x t]; [congruence|].
  rewrite mem_cons in Ht. apply orb_false_elim in Ht.
  destruct Ht as [Hx _]. rewrite Z.eqb_sym in Hx.
  cbn [run]. destruct t; [rewrite Hx|]; reflexivity.
Qed.

(** What [_re_indent_match_] returns on a string without line feed: the
    leading whitespace and the rest. *)
Lemma indent_match_spec (s : str) :
  mem LF s = false ->
  re_match _re_indent_match_ s
  = Some [(2%nat, drop_while is_space s); (1%nat, take_while is_space s)].
Proof.
  intros Hlf. unfold re_match, _re_indent_match_, ws. cbn [run].
  apply star_greedy_class; [lia|].
  rewrite star_lazy_dot.
  - cbn [run]. rewrite consumed_nil, consumed_drop_while. reflexivity.
  - intros t c Hne Ht.
    exact (eos_rejects
             (fun s1 c1 =>
                Some ((2%nat, consumed (drop_while is_space s) s1) :: c1))
             t c Hne Ht).
  - lia.
  - apply mem_drop_while, Hlf.
Qed.

Lemma drop_while_app_all {A} (p : A -> bool) (l1 l2 : list A) :
  forallb p l1 = true -> drop_while p (l1 ++ l2) = drop_while p l2.
Proof.
  induction l1 as [|x l1 IH]; [reflexivity|]. cbn [forallb app drop_while].
  intros H. apply andb_prop in H. destruct H as [-> H]. apply IH, H.
Qed.

Lemma mem_forallb (B : str) (z : char) (l : str) :
  forallb (fun c => mem c B) l = true -> In z l -> mem z B = true.
Proof. intros H Hin. rewrite forallb_forall in H. apply H, Hin. Qed.

(** A bullet pattern matches a run of bullets at the end of the string. *)
Lemma bullet_match_alone (B s : str) :
  s <> [] -> forallb (fun c => mem c B) s = true ->
  re_match (bullet_pattern B) s = Some [(1%nat, s)].
Proof.
  intros Hne Hall. destruct s as [|x s]; [congruence|].
  cbn [forallb] in Hall. apply andb_prop in Hall. destruct Hall as [Hx Hs].
  unfold re_match, bullet_pattern, Plus. cbn [run]. rewrite Hx.
  apply star_greedy_class; [lia|].
  rewrite (drop_while_all _ _ Hs). cbn. rewrite firstn_all.
  reflexivity.
Qed.

(** A bullet pattern matches bullets, whitespace and text. *)
Lemma bullet_match_text (B b w t : str) :
  b <> [] -> forallb (fun c => mem c B) b = true ->
  w <> [] -> forallb is_space w = true ->
  existsb is_space B = false ->
  match t with x :: _ => is_space x = false | [] => True end ->
  mem LF t = false ->
  re_match (bullet_pattern B) (b ++ w ++ t) = Some [(2%nat, t); (1%nat, b)].
Proof.
  intros Hb HbB Hw Hws HB Ht Hlf.
  destruct b as [|x b]; [congruence|]. destruct w as [|y w]; [congruence|].
  cbn [forallb] in HbB, Hws.
  apply andb_prop in HbB. destruct HbB as [Hx HbB].
  apply andb_prop in Hws. destruct Hws as [Hy Hws].
  assert (HyB : mem y B = false) by exact (no_space_no_mem y B Hy HB).
  unfold re_match, bullet_pattern, Plus, ws. cbn [run app]. rewrite Hx.
  apply star_greedy_class; [lia|].
  rewrite drop_while_app_all by exact HbB.
  cbn [app drop_while]. rewrite HyB. cbv beta iota. rewrite Hy.
  assert (E : star_loop true (run (Class is_space))
                (fun s1 c1 =>
                   run (Group 2 (Star false dot)) s1 c1
                       (fun s2 c2 => run Eos s2 c2 (fun _ c => Some c)))
                (length (w ++ t)) (w ++ t)
                [(1%nat, consumed (x :: b ++ y :: w ++ t) (y :: w ++ t))]
              = Some [(2%nat, t); (1%nat, x :: b)]).
  { apply star_greedy_class; [lia|].
    rewrite drop_while_app_all by exact Hws.
    assert (Et : drop_while is_space t = t).
    { destruct t as [|z t]; [reflexivity|]. cbn. rewrite Ht. reflexivity. }
    rewrite Et. cbn [run]. rewrite star_lazy_dot.
    - cbn [run]. rewrite consumed_nil.
      change (x :: b ++ y :: w ++ t) with ((x :: b) ++ y :: w ++ t).
      rewrite consumed_app. reflexivity.
    - intros t0 c Hne Ht0.
      exact (eos_rejects (fun _ c => Some c) t0 _ Hne Ht0).
    - lia.
    - exact Hlf. }
  cbn [run] in E |- *. rewrite E. reflexivity.
Qed.

(** What a bullet pattern returns on a string without line feed, for a
    bullet set without whitespace: the leading bullet characters have to be
    followed by whitespace or by nothing. *)
Lemma bullet_match_spec (B s : str) :
  existsb is_space B = false ->
  mem LF s = false ->
  let b := take_while (fun c => mem c B) s in
  let r := drop_while (fun c => mem c B) s in
  re_match (bullet_pattern B) s
  = match b, r with
    | [], _ => None
    | _ :: _, [] => Some [(1%nat, b)]
    | _ :: _, x :: _ =>
        if is_space x
        then Some [(2%nat, drop_while is_space r); (1%nat, b)]
        else None
    end.
Proof.
  intros HB Hlf b r.
  assert (Es : s = b ++ r) by (symmetry; apply take_drop_while).
  assert (HbB : forallb (fun c => mem c B) b = true) by apply take_while_all.
  assert (Hnone : forall y r',
            r = y :: r' -> is_space y = false \/ b = [] ->
            re_match (bullet_pattern B) s = None).
  { intros y r' Er Hy.
    assert (HyB : mem y B = false).
    { unfold r in Er. apply drop_while_head in Er. exact Er. }
    destruct (re_match (bullet_pattern B) s) as [m|] eqn:E; [|reflexivity].
    exfalso. apply bullet_match_shape in E.
    destruct E as (b' & w & t & e & Es' & Hb' & Hb'B & Hw & Hwt & _ & He & _).
    destruct b' as [|x b']; [congruence|].
    destruct Hy as [Hy | Hb].
    2:{ rewrite Hb, Er in Es. cbn [app] in Es. rewrite Es in Es'.
        inversion Es'; subst y. cbn [forallb] in Hb'B.
        rewrite HyB in Hb'B. discriminate. }
    (* the character after the bullets of the match is no whitespace *)
    assert (Hnext : exists z rest, w ++ t ++ e = z :: rest
                                   /\ is_space z = false).
    { rewrite Es, Er in Es'. apply app_eq_app in Es'.
      destruct Es' as (k & [[E1 E2] | [E1 E2]]).
      - destruct k as [|z k]; cbn [app] in E2.
        + exists y, r'. auto.
        + exists z, (k ++ y :: r'). split; [exact E2|].
          assert (Hz : mem z B = true).
          { apply (mem_forallb B z b HbB). rewrite E1.
            apply in_or_app. right. left. reflexivity. }
          destruct (is_space z) eqn:Ez; [|reflexivity].
          rewrite (no_space_no_mem z B Ez HB) in Hz. discriminate.
      - destruct k as [|z k]; cbn [app] in E2.
        + exists y, r'. auto.
        + inversion E2; subst z. exfalso.
          assert (Hz : mem y B = true).
          { apply (mem_forallb B y (x :: b') Hb'B). rewrite E1.
            apply in_or_app. right. left. reflexivity. }
          congruence. }
    destruct Hnext as (z & rest & Ez & Hz).
    destruct w as [|v w].
    - rewrite (Hwt eq_refl) in Ez. cbn [app] in Ez.
      destruct He as [-> | ->]; [discriminate|].
      inversion Ez; subst z. discriminate Hz.
    - cbn [app] in Ez. inversion Ez; subst v. cbn [forallb] in Hw.
      rewrite Hz in Hw. discriminate. }
  destruct b as [|x b'] eqn:Eb.
  - destruct r as [|y r'] eqn:Er.
    + cbn [app] in Es. rewrite Es. reflexivity.
    + apply (Hnone y r' eq_refl). right. reflexivity.
  - destruct r as [|y r'] eqn:Er.
    + rewrite app_nil_r in Es. rewrite Es.
      apply bullet_match_alone; [discriminate | exact HbB].
    + destruct (is_space y) eqn:Ey.
      * rewrite Es at 1.
        rewrite <- (take_drop_while is_space (y :: r')) at 1.
        apply bullet_match_text; auto.
        -- discriminate.
        -- cbn. rewrite Ey. discriminate.
        -- apply take_while_all.
        -- destruct (drop_while is_space (y :: r')) as [|z t] eqn:Et;
             [exact I|]. apply drop_while_head in Et. exact Et.
        -- apply mem_drop_while. rewrite <- Er. unfold r.
           apply mem_drop_while, Hlf.
      * apply (Hnone y r' eq_refl). left. exact Ey.
Qed.

Lemma mem_app (x : char) (s t : str) : mem x (s ++ t) = mem x s || mem x t.
Proof. unfold mem. apply existsb_app. Qed.

Lemma mem_rev (x : char) (s : str) : mem x (rev s) = mem x s.
Proof.
  induction s as [|y s IH]; [reflexivity|].
  cbn [rev]. rewrite mem_app, IH, !mem_cons. cbn [mem existsb].
  rewrite orb_false_r. apply orb_comm.
Qed.

Lemma mem_take_while (p : char -> bool) (x : char) (s : str) :
  mem x s = false -> mem x (take_while p s) = false.
Proof.
  induction s as [|y s IH]; intros H; [reflexivity|].
  rewrite mem_cons in H. apply orb_false_elim in H. destruct H as [Hy Hs].
  cbn [take_while]. destruct (p y); [|reflexivity].
  rewrite mem_cons, Hy. apply IH, Hs.
Qed.

Lemma mem_rstrip (x : char) (s : str) :
  mem x s = false -> mem x (rstrip s) = false.
Proof.
  intros H. unfold rstrip. rewrite mem_rev. apply mem_drop_while.
  rewrite mem_rev. exact H.
Qed.

(** [rstrip] takes whitespace off the end, and nothing else. *)
Lemma rstrip_split (s : str) :
  exists w, s = rstrip s ++ w /\ forallb is_space w = true.
Proof.
  exists (rev (take_while is_space (rev s))). split.
  - unfold rstrip. rewrite <- rev_app_distr, take_drop_while.
    symmetry. apply rev_involutive.
  - apply forallb_rev, take_while_all.
Qed.

Lemma rstrip_app_blank (s w : str) :
  forallb is_space w = true -> rstrip (s ++ w) = rstrip s.
Proof.
  intros H. unfold rstrip. rewrite rev_app_distr.
  rewrite drop_while_app_all by (apply forallb_rev, H). reflexivity.
Qed.

Lemma remove_whitespace_app (s t : str) :
  remove_whitespace (s ++ t) = remove_whitespace s ++ remove_whitespace t.
Proof. apply filter_app. Qed.

Lemma remove_whitespace_blank (w : str) :
  forallb is_space w = true -> remove_whitespace w = [].
Proof.
  induction w as [|x w IH]; [reflexivity|]. cbn [forallb]. intros H.
  apply andb_prop in H. destruct H as [Hx Hw].
  unfold remove_whitespace in *. cbn [filter]. rewrite Hx. apply IH, Hw.
Qed.

Lemma indent_match_shape (s : str) (m : captures) :
  re_match _re_indent_match_ s = Some m ->
  exists w t e,
    s = w ++ t ++ e /\ forallb is_space w = true /\ mem LF t = false
    /\ (e = [] \/ e = [LF]).
Proof.
  intros H. apply match_sound in H. destruct H as (s1 & H).
  unfold _re_indent_match_ in H.
  apply steps_cat_inv in H. destruct H as (s0 & c0 & H1 & H2).
  apply steps_group_inv in H1. destruct H1 as (c00 & H1 & ->).
  unfold ws in H1. apply steps_star_class in H1.
  destruct H1 as (-> & w & -> & Hw).
  apply steps_text_eos in H2. destruct H2 as (t & -> & Ht & He & _).
  exists w, t, s1. auto.
Qed.

Lemma mem_middle (x : char) (l1 l2 : str) : mem x (l1 ++ x :: l2) = true.
Proof.
  rewrite mem_app, mem_cons, Z.eqb_refl. cbn [orb]. apply orb_true_r.
Qed.

Lemma drop_while_some {A} (p : A -> bool) (l : list A) :
  existsb (fun c => negb (p c)) l = true -> drop_while p l <> [].
Proof.
  induction l as [|x l IH]; [discriminate|]. cbn [existsb drop_while].
  destruct (p x); cbn [negb orb]; [exact IH | discriminate].
Qed.

Lemma drop_while_app_some {A} (p : A -> bool) (l1 l2 : list A) :
  existsb (fun c => negb (p c)) l1 = true ->
  drop_while p (l1 ++ l2) = drop_while p l1 ++ l2.
Proof.
  induction l1 as [|x l1 IH]; [discriminate|]. cbn [existsb drop_while app].
  destruct (p x); cbn [negb orb]; [exact IH | reflexivity].
Qed.

(** [_re_indent_match_] matches nothing when a line feed that is not the
    last character comes after a character that is no whitespace. *)
Lemma indent_match_inner_line_feed (u v : str) :
  existsb (fun c => negb (is_space c)) u = true -> v <> [] ->
  re_match _re_indent_match_ (u ++ LF :: v) = None.
Proof.
  intros Hu Hv.
  destruct (re_match _re_indent_match_ (u ++ LF :: v)) as [m|] eqn:E;
    [|reflexivity].
  exfalso. apply indent_match_shape in E.
  destruct E as (w & t & e & Es & Hw & Ht & He).
  assert (Hlen : (length e <= 1)%nat) by (destruct He as [-> | ->]; cbn; lia).
  pose proof (take_drop_while is_space u) as Eu.
  pose proof (take_while_all is_space u) as Hu1.
  destruct (drop_while is_space u) as [|x u2] eqn:Ed;
    [exact (drop_while_some _ _ Hu Ed)|].
  pose proof (drop_while_head _ _ _ _ Ed) as Hx.
  set (u1 := take_while is_space u) in *.
  rewrite <- Eu, <- app_assoc in Es. cbn [app] in Es.
  apply app_eq_app in Es. destruct Es as (k & [[E1 E2] | [E1 E2]]).
  - (* the whitespace of the match ends within the leading whitespace *)
    assert (E3 : t ++ e = (k ++ x :: u2) ++ LF :: v)
      by (rewrite E2, <- app_assoc; reflexivity).
    apply app_eq_app in E3. destruct E3 as (k2 & [[E4 E5] | [E4 E5]]).
    + destruct k2 as [|y k2]; cbn [app] in E5.
      * rewrite <- E5 in Hlen. cbn in Hlen. destruct v; [congruence|].
        cbn in Hlen. lia.
      * inversion E5; subst y. rewrite E4, mem_middle in Ht.
        discriminate.
    + rewrite E5, length_app in Hlen. cbn in Hlen.
      destruct v; [congruence|]. cbn in Hlen. lia.
  - destruct k as [|y k]; cbn [app] in E2.
    + assert (E3 : t ++ e = (x :: u2) ++ LF :: v) by (symmetry; exact E2).
      apply app_eq_app in E3. destruct E3 as (k2 & [[E4 E5] | [E4 E5]]).
      * destruct k2 as [|y k2]; cbn [app] in E5.
        -- rewrite <- E5 in He. destruct He as [He | He]; [discriminate|].
           inversion He. congruence.
        -- inversion E5; subst y.
           change (x :: u2) with ([x] ++ u2) in E4. rewrite E4 in Ht.
           rewrite <- app_assoc in Ht.
           rewrite (app_assoc [x] u2) in Ht. rewrite mem_middle in Ht.
           discriminate.
      * destruct He as [He | He]; rewrite He in E5.
        -- destruct k2; discriminate.
        -- destruct k2 as [|z k2]; cbn [app] in E5.
           ++ inversion E5. congruence.
           ++ inversion E5. destruct k2; discriminate.
    + inversion E2; subst y. rewrite E1, forallb_app in Hw.
      cbn [forallb] in Hw. rewrite Hx in Hw. cbn in Hw.
      rewrite andb_false_r in Hw. discriminate.
Qed.

(** [_re_indent_match_] on a string without line feed always matches: its
    groups are the leading whitespace and the rest.  It matches nothing
    when a line feed that is not the last character comes after a
    character that is no whitespace. *)
Theorem indent_match_splits_or_fails :
  (forall s, mem LF s = false ->
     groups 2 _re_indent_match_ s
     = Some [take_while is_space s; drop_while is_space s])
  /\ (forall u v,
        existsb (fun c => negb (is_space c)) u = true -> v <> [] ->
        re_match _re_indent_match_ (u ++ LF :: v) = None).
Proof.
  split.
  - intros s Hlf. unfold groups. rewrite (indent_match_spec s Hlf).
    reflexivity.
  - exact indent_match_inner_line_feed.
Qed.

(** The pattern [_re_bullet_match_factory] compiles, on a string without
    line feed: it matches exactly when the string begins with characters
    of the bullet set that whitespace or the end of the string follows;
    its first group is then the whole leading run of bullet characters,
    its second group what comes after the whitespace. *)
Theorem bullet_pattern_recognises (in_bullets : str) (r : regex) (s : str) :
  _re_bullet_match_factory in_bullets = Ok r ->
  mem LF s = false ->
  groups 2 r s
  = if bullet_item in_bullets s
    then Some [take_while (fun c => mem c in_bullets) s;
               drop_while is_space
                 (drop_while (fun c => mem c in_bullets) s)]
    else None.
Proof.
  intros Hr Hlf. rewrite factory_spec in Hr.
  destruct (invalid_bullet_set in_bullets) eqn:E; [discriminate|].
  inversion Hr; subst r; clear Hr.
  unfold invalid_bullet_set in E. apply orb_false_elim in E.
  destruct E as [E _]. apply orb_false_elim in E. destruct E as [_ HB].
  unfold groups. rewrite (bullet_match_spec in_bullets s HB Hlf).
  unfold bullet_item.
  destruct (take_while _ s) as [|x b]; [reflexivity|].
  destruct (drop_while (fun c => mem c in_bullets) s) as [|y t];
    [reflexivity|].
  destruct (is_space y); reflexivity.
Qed.

Lemma bullet_pattern_recognises_witness :
  groups 2 (bullet_pattern [45; 42]) (lit "-* two  words")
  = Some [lit "-*"; lit "two  words"].
Proof.
  exact (bullet_pattern_recognises [45; 42] (bullet_pattern [45; 42])
           (lit "-* two  words") eq_refl eq_refl).
Defined.

(** What a match of [_re_number_match_] is made of: the numeration, which
    is the first group, begins with whitespace, a decimal digit or an
    ASCII letter and ends with a full stop, a colon or a closing
    parenthesis; whitespace follows it, and then the text without line
    feed, which is the second group, up to the end of the string or a
    closing line feed. *)
Theorem number_match_parts (unicode_decimal : char -> bool) (s : str)
    (m : captures) :
  re_match (_re_number_match_ unicode_decimal) s = Some m ->
  exists n w t e,
    s = n ++ w ++ t ++ e
    /\ (exists x n', n = x :: n' /\ number_start unicode_decimal x = true)
    /\ (exists n' x, n = n' ++ [x] /\ mem x end_separators = true)
    /\ forallb is_space w = true
    /\ mem LF t = false
    /\ (e = [] \/ e = [LF])
    /\ group_or_empty 1 m = n /\ group_or_empty 2 m = t.
Proof. exact (number_match_shape unicode_decimal s m). Qed.

Lemma number_match_parts_witness :
  exists n w t e,
    lit "1. a) text" = n ++ w ++ t ++ e
    /\ (exists n' x, n = n' ++ [x] /\ mem x end_separators = true).
Proof.
  destruct (re_match (_re_number_match_ is_ascii_digit) (lit "1. a) text"))
    as [m|] eqn:E; [|vm_compute in E; discriminate E].
  destruct (number_match_parts is_ascii_digit (lit "1. a) text") m E)
    as (n & w & t & e & H1 & _ & H3 & _).
  exists n, w, t, e. split; [exact H1 | exact H3].
Defined.

(* ================================================================== *)
(** ** The line parser on a line without line feed *)

Lemma whole_tabs_nonneg (ts : Z) (runs : list Z) :
  0 < ts -> Forall (fun r => 0 <= r) runs -> 0 <= whole_tabs ts runs.
Proof.
  intros Hts H. unfold whole_tabs.
  induction H as [|r runs Hr _ IH]; cbn [fold_right]; [lia|].
  pose proof (Z.div_pos r ts Hr Hts). lia.
Qed.

Lemma detect_indent_nonneg (self : DocstringToText) (s : str) :
  1 <= Processor.tab_size self -> mem LF s = false ->
  exists i, detect_indent self s = Ok i /\ 0 <= i.
Proof.
  intros Hts Hlf. eexists. split; [apply detect_indent_spec; assumption|].
  pose proof (whole_tabs_nonneg (Processor.tab_size self) (space_runs s)
                ltac:(lia) (runs_from_nonneg s 0 ltac:(lia))).
  pose proof (len_nonneg (filter (fun c => c =? TAB) s)).
  pose proof (Z.mod_pos_bound (final_space_run s) (Processor.tab_size self)
                ltac:(lia)).
  unfold count_tabs. nia.
Qed.

Section ParseLineSpec.

Variable unicode_decimal : char -> bool.

(** The ways [__parse_line] reads a line without line feed: as a bullet
    item, as a numbered item, or as text. *)
Lemma parse_line_cases (a : Args) (self : DocstringToText) (line : str) :
  DocstringToText_new a = Ok self ->
  mem LF line = false ->
  let body := drop_while is_space (rstrip line) in
  exists i,
    detect_indent self (take_while is_space (rstrip line)) = Ok i
    /\ 0 <= i
    /\ ((exists b w t,
           body = b ++ w ++ t /\ b <> [] /\ forallb is_space w = true
           /\ parse_line unicode_decimal self line
              = Ok (mkLine i false true (-1) b [] t))
        \/ (exists n w t,
              body = n ++ w ++ t /\ forallb is_space w = true
              /\ (exists x n', n = x :: n'
                               /\ number_start unicode_decimal x = true)
              /\ (exists n' x, n = n' ++ [x] /\ mem x end_separators = true)
              /\ parse_line unicode_decimal self line
                 = Ok (mkLine i false true (-1) [] n t))
        \/ parse_line unicode_decimal self line
           = Ok (mkLine i false false (-1) [] [] body)).
Proof.
  intros Hnew Hlf body.
  destruct (new_inv a self Hnew) as (key & _ & Hre & _).
  apply factory_ok in Hre.
  pose proof (new_tab_size a self Hnew) as Hts.
  assert (Hlf' : mem LF (rstrip line) = false) by apply mem_rstrip, Hlf.
  assert (Hbody : mem LF body = false) by apply mem_drop_while, Hlf'.
  destruct (detect_indent_nonneg self (take_while is_space (rstrip line)) Hts
              (mem_take_while _ _ _ Hlf')) as (i & Hi & Hi0).
  exists i. split; [exact Hi|]. split; [exact Hi0|].
  unfold parse_line. rewrite (indent_match_spec _ Hlf').
  change (group_or_empty 1 [(2%nat, drop_while is_space (rstrip line));
                            (1%nat, take_while is_space (rstrip line))])
    with (take_while is_space (rstrip line)).
  change (group_or_empty 2 [(2%nat, drop_while is_space (rstrip line));
                            (1%nat, take_while is_space (rstrip line))])
    with body.
  rewrite Hi. cbn [Py.bind].
  assert (Hend : forall u v e : str,
            body = u ++ v ++ e -> e = [] \/ e = [LF] -> e = []).
  { intros u v e E [He | He]; [exact He|]. exfalso.
    rewrite E, He, !mem_app in Hbody. cbn in Hbody.
    rewrite !orb_true_r in Hbody. discriminate. }
  destruct (re_match (_re_bullet_match self) body) as [m|] eqn:Eb.
  - left. rewrite Hre in Eb. apply bullet_match_shape in Eb.
    destruct Eb as (b & w & t & e & Es & Hb & _ & Hw & _ & _ & He & -> & ->).
    rewrite app_assoc in Es.
    pose proof (Hend _ _ _ Es He) as ->. rewrite app_nil_r in Es.
    rewrite <- app_assoc in Es.
    exists b, w, t.
    repeat split; assumption || reflexivity.
  - destruct (re_match (_re_number_match_ unicode_decimal) body) as [m|] eqn:En.
    + right. left. apply number_match_shape in En.
      destruct En as (n & w & t & e & Es & Hn1 & Hn2 & Hw & _ & He & -> & ->).
      rewrite app_assoc in Es.
      pose proof (Hend _ _ _ Es He) as ->. rewrite app_nil_r in Es.
      rewrite <- app_assoc in Es.
      exists n, w, t.
      split; [exact Es|]. split; [exact Hw|]. split; [exact Hn1|].
      split; [exact Hn2|]. reflexivity.
    + right. right. reflexivity.
Qed.

End ParseLineSpec.

Lemma new_bullets_no_space (a : Args) (self : DocstringToText) :
  DocstringToText_new a = Ok self ->
  _re_bullet_match self = bullet_pattern (Processor.in_bullets self)
  /\ existsb is_space (Processor.in_bullets self) = false.
Proof.
  intros Hnew. destruct (new_inv a self Hnew) as (key & _ & Hre & Hin & _).
  rewrite factory_spec in Hre. rewrite Hin.
  destruct (invalid_bullet_set (ArgsKey.in_bullets key)) eqn:E;
    [discriminate|].
  inversion Hre. split; [reflexivity|].
  unfold invalid_bullet_set in E. apply orb_false_elim in E.
  destruct E as [E _]. apply orb_false_elim in E. apply E.
Qed.

Section ParseLineTheorems.

Variable unicode_decimal : char -> bool.

(** [__parse_line] on a line without line feed, for an instance the
    constructor has built: it returns a record, never an empty one; the
    indent is what [__detect_indent] gives for the leading whitespace and
    is not negative; the record is a list item exactly when it has a bullet
    or a number, and it never has both. *)
Theorem parse_line_well_formed (a : Args) (self : DocstringToText)
    (line : str) :
  DocstringToText_new a = Ok self ->
  mem LF line = false ->
  exists l,
    parse_line unicode_decimal self line = Ok l
    /\ is_empty l = false
    /\ list_level l = -1
    /\ detect_indent self (take_while is_space (rstrip line)) = Ok (indent l)
    /\ 0 <= indent l
    /\ is_list l = truthy (bullet l) || truthy (number l)
    /\ (bullet l = [] \/ number l = []).
Proof.
  intros Hnew Hlf.
  destruct (parse_line_cases unicode_decimal a self line Hnew Hlf)
    as (i & Hi & Hi0 & [H | [H | H]]).
  - destruct H as (b & w & t & _ & Hb & _ & ->). eexists. split; [reflexivity|].
    cbn. destruct b; [congruence|]. repeat split; auto.
  - destruct H as (n & w & t & _ & _ & (x & n' & -> & _) & _ & ->).
    eexists. split; [reflexivity|]. cbn. repeat split; auto.
  - rewrite H. eexists. split; [reflexivity|]. cbn. repeat split; auto.
Qed.

(** [__parse_line] loses nothing but whitespace: the bullet, the number and
    the text of the record hold the characters of the line that are no
    whitespace, in their order. *)
Theorem parse_line_keeps_characters (a : Args) (self : DocstringToText)
    (line : str) :
  DocstringToText_new a = Ok self ->
  mem LF line = false ->
  exists l,
    parse_line unicode_decimal self line = Ok l
    /\ remove_whitespace (bullet l ++ number l ++ text l)
       = remove_whitespace line.
Proof.
  intros Hnew Hlf.
  assert (Hline : remove_whitespace line
                  = remove_whitespace (drop_while is_space (rstrip line))).
  { destruct (rstrip_split line) as (w & E & Hw). rewrite E at 1.
    rewrite <- (take_drop_while is_space (rstrip line)) at 1.
    rewrite !remove_whitespace_app.
    rewrite (remove_whitespace_blank w Hw).
    rewrite (remove_whitespace_blank _ (take_while_all is_space _)).
    rewrite app_nil_r. reflexivity. }
  destruct (parse_line_cases unicode_decimal a self line Hnew Hlf)
    as (i & Hi & Hi0 & [H | [H | H]]).
  - destruct H as (b & w & t & Eb & _ & Hw & ->). eexists.
    split; [reflexivity|]. cbn [bullet number text app].
    rewrite Hline, Eb, !remove_whitespace_app.
    rewrite (remove_whitespace_blank w Hw). reflexivity.
  - destruct H as (n & w & t & Eb & Hw & _ & _ & ->). eexists.
    split; [reflexivity|]. cbn [bullet number text app].
    rewrite Hline, Eb, !remove_whitespace_app.
    rewrite (remove_whitespace_blank w Hw). reflexivity.
  - rewrite H. eexists. split; [reflexivity|]. cbn [bullet number text app].
    symmetry. exact Hline.
Qed.

(** Whitespace at the end of a line never changes what [__parse_line]
    returns. *)
Theorem parse_line_trailing_whitespace (self : DocstringToText)
    (line w : str) :
  forallb is_space w = true ->
  parse_line unicode_decimal self (line ++ w)
  = parse_line unicode_decimal self line.
Proof.
  intros Hw. unfold parse_line. rewrite (rstrip_app_blank line w Hw).
  reflexivity.
Qed.

(** Which lines [__parse_line] reads as bullet items: those whose body
    begins with bullet characters that whitespace or the end of the line
    follows.  The bullet is then the whole run of bullet characters, and
    the text begins after the whitespace; a body that begins otherwise
    gives a record without bullet. *)
Theorem parse_line_bullet_item (a : Args) (self : DocstringToText)
    (line : str) :
  DocstringToText_new a = Ok self ->
  mem LF line = false ->
  let body := drop_while is_space (rstrip line) in
  let in_set := fun c => mem c (Processor.in_bullets self) in
  exists l,
    parse_line unicode_decimal self line = Ok l
    /\ if bullet_item (Processor.in_bullets self) body
       then bullet l = take_while in_set body
            /\ bullet l <> []
            /\ number l = []
            /\ text l = drop_while is_space (drop_while in_set body)
       else bullet l = [].
Proof.
  intros Hnew Hlf body in_set. subst in_set.
  destruct (new_bullets_no_space a self Hnew) as [Hre HB].
  destruct (parse_line_cases unicode_decimal a self line Hnew Hlf)
    as (i & Hi & Hi0 & _).
  assert (Hlf' : mem LF (rstrip line) = false) by apply mem_rstrip, Hlf.
  assert (Hbody : mem LF body = false) by apply mem_drop_while, Hlf'.
  pose proof (bullet_match_spec (Processor.in_bullets self) body HB Hbody)
    as Hm. cbv zeta in Hm.
  unfold parse_line. rewrite (indent_match_spec _ Hlf').
  change (group_or_empty 1 [(2%nat, drop_while is_space (rstrip line));
                            (1%nat, take_while is_space (rstrip line))])
    with (take_while is_space (rstrip line)).
  change (group_or_empty 2 [(2%nat, drop_while is_space (rstrip line));
                            (1%nat, take_while is_space (rstrip line))])
    with body.
  rewrite Hi. cbn [Py.bind]. rewrite Hre, Hm. clear Hm. unfold bullet_item.
  destruct (take_while _ body) as [|x b] eqn:Eb.
  - destruct (re_match _ body); eexists; (split; [reflexivity|]);
      reflexivity.
  - destruct (drop_while (fun c => mem c _) body) as [|y r] eqn:Er.
    + eexists. split; [reflexivity|]. cbn. repeat split. discriminate.
    + destruct (is_space y) eqn:Ey.
      * eexists. split; [reflexivity|]. cbn. rewrite Ey.
        repeat split. discriminate.
      * destruct (re_match _ body); eexists; (split; [reflexivity|]);
          reflexivity.
Qed.

(** The number of a record that [__parse_line] reads as a numbered item
    begins with a decimal digit or an ASCII letter and ends with a full
    stop, a colon or a closing parenthesis. *)
Theorem parse_line_number_item (a : Args) (self : DocstringToText)
    (line : str) (l : ParsedLine) :
  DocstringToText_new a = Ok self ->
  mem LF line = false ->
  parse_line unicode_decimal self line = Ok l ->
  number l <> [] ->
  is_list l = true
  /\ bullet l = []
  /\ (exists x n, number l = x :: n
                  /\ unicode_decimal x || is_ascii_letter x = true)
  /\ (exists n x, number l = n ++ [x] /\ mem x end_separators = true).
Proof.
  intros Hnew Hlf Hl Hn.
  destruct (parse_line_cases unicode_decimal a self line Hnew Hlf)
    as (i & Hi & Hi0 & [H | [H | H]]).
  - destruct H as (b & w & t & _ & _ & _ & H). rewrite H in Hl.
    inversion Hl; subst l. cbn in Hn. congruence.
  - destruct H as (n & w & t & Eb & _ & (x & n' & En & Hx) & Hend & H).
    rewrite H in Hl. inversion Hl; subst l. cbn [is_list bullet number].
    repeat split; [|exact Hend].
    exists x, n'. split; [exact En|].
    rewrite En in Eb. cbn [app] in Eb. apply drop_while_head in Eb.
    unfold number_start in Hx. rewrite Eb in Hx. exact Hx.
  - rewrite H in Hl. inversion Hl; subst l. cbn in Hn. congruence.
Qed.

End ParseLineTheorems.

Lemma parse_line_well_formed_witness :
  exists l,
    parse_line is_ascii_digit default_processor (lit "  - item ") = Ok l
    /\ is_list l = truthy (bullet l) || truthy (number l).
Proof.
  destruct (parse_line_well_formed is_ascii_digit default_args
              default_processor (lit "  - item ") new_default eq_refl)
    as (l & H & _ & _ & _ & _ & Hl & _).
  exists l. split; assumption.
Defined.

Lemma parse_line_keeps_characters_witness :
  exists l,
    parse_line is_ascii_digit default_processor (lit "  1. a) two words ")
    = Ok l
    /\ remove_whitespace (bullet l ++ number l ++ text l)
       = lit "1.a)twowords".
Proof.
  exact (parse_line_keeps_characters is_ascii_digit default_args
           default_processor (lit "  1. a) two words ") new_default eq_refl).
Defined.

Lemma parse_line_trailing_whitespace_witness :
  parse_line is_ascii_digit default_processor (lit "- a" ++ [SP; TAB])
  = parse_line is_ascii_digit default_processor (lit "- a").
Proof.
  exact (parse_line_trailing_whitespace is_ascii_digit default_processor
           (lit "- a") [SP; TAB] eq_refl).
Defined.

Lemma parse_line_bullet_item_witness :
  exists l,
    parse_line is_ascii_digit default_processor (lit "  -* two words") = Ok l
    /\ bullet l = lit "-*" /\ text l = lit "two words".
Proof.
  destruct (parse_line_bullet_item is_ascii_digit default_args
              default_processor (lit "  -* two words") new_default eq_refl)
    as (l & H & Hb & _ & _ & Ht).
  exists l. split; [exact H|]. split; [exact Hb | exact Ht].
Defined.

Lemma parse_line_number_item_witness :
  exists x n, lit "1. a)" = x :: n
              /\ is_ascii_digit x || is_ascii_letter x = true.
Proof.
  assert (Hn : number (mkLine 1 false true (-1) [] (lit "1. a)") (lit "text"))
               <> []) by discriminate.
  assert (Hp : parse_line is_ascii_digit default_processor
                 (lit " 1. a) text")
               = Ok (mkLine 1 false true (-1) [] (lit "1. a)") (lit "text")))
    by (vm_compute; reflexivity).
  exact (proj1 (proj2 (proj2
           (parse_line_number_item is_ascii_digit default_args
              default_processor (lit " 1. a) text") _
              new_default eq_refl Hp Hn)))).
Defined.

Lemma rstrip_app_text (p q : str) :
  existsb (fun c => negb (is_space c)) q = true ->
  rstrip (p ++ q) = p ++ rstrip q /\ rstrip q <> [].
Proof.
  intros Hq. unfold rstrip.
  assert (Hq' : existsb (fun c => negb (is_space c)) (rev q) = true).
  { apply existsb_exists in Hq. destruct Hq as (x & Hx & Hxs).
    apply existsb_exists. exists x. split; [apply in_rev in Hx|]; assumption. }
  rewrite rev_app_distr, (drop_while_app_some _ _ _ Hq'), rev_app_distr,
    rev_involutive.
  split; [reflexivity|].
  intros E. apply (f_equal (@rev _)) in E. rewrite rev_involutive in E.
  exact (drop_while_some _ _ Hq' E).
Qed.

(** The one way [__parse_line] returns an empty record: a line with a line
    feed between two characters that are no whitespace matches no indent
    pattern, and comes back as the empty record, its text dropped. *)
Theorem parse_line_inner_line_feed (unicode_decimal : char -> bool)
    (self : DocstringToText) (u v : str) :
  existsb (fun c => negb (is_space c)) u = true ->
  existsb (fun c => negb (is_space c)) v = true ->
  parse_line unicode_decimal self (u ++ LF :: v)
  = Ok (mkLine 0 true false (-1) [] [] []).
Proof.
  intros Hu Hv. unfold parse_line.
  assert (Hv' : existsb (fun c => negb (is_space c)) (LF :: v) = true)
    by (cbn [existsb]; rewrite Hv; apply orb_true_r).
  destruct (rstrip_app_text u (LF :: v) Hv') as [E _].
  destruct (rstrip_app_text [LF] v Hv) as [E2 Hne].
  cbn [app] in E2. rewrite E, E2.
  rewrite (indent_match_inner_line_feed u (rstrip v) Hu Hne). reflexivity.
Qed.

Lemma parse_line_inner_line_feed_witness :
  parse_line is_ascii_digit default_processor (lit "a" ++ LF :: lit "b")
  = Ok (mkLine 0 true false (-1) [] [] []).
Proof.
  exact (parse_line_inner_line_feed is_ascii_digit default_processor
           (lit "a") (lit "b") eq_refl eq_refl).
Defined.

(* ================================================================== *)
(** ** The configuration of an instance *)


Lemma cleaned_out_no_space (a : Args) (s : str) :
  cleaned_out_bullets a = Some s ->
  truthy s = true /\ existsb is_space s = false.
Proof.
  unfold cleaned_out_bullets. destruct (arg_out_bullets a) as [raw|];
    [|discriminate].
  cbv zeta. destruct (truthy (remove_whitespace (bullets_text raw))) eqn:E;
    [|discriminate].
  intros H. inversion H; subst s. split; [exact E|].
  apply remove_whitespace_no_space.
Qed.

Lemma clean_key_spec (a : Args) :
  ArgsKey.clean_key a
  = Ok (ArgsKey.mk (arg_indent_empty_lines a) (arg_minimize_indents a)
                   (arg_list_with_indent a) (arg_list_no_indent a)
                   (Z.max (arg_tab_size a) 1)
                   (cleaned_in_bullets a) (cleaned_out_bullets a))
  /\ cleaned_in_bullets a <> []
  /\ existsb is_space (cleaned_in_bullets a) = false
  /\ (forall s, cleaned_out_bullets a = Some s ->
                s <> [] /\ existsb is_space s = false).
Proof.
  split; [|split; [|split]].
  - unfold ArgsKey.clean_key.
    change (ArgsKey.cleanup_bullets_attr_to_str (OfStr IN_BULLETS))
      with IN_BULLETS.
    set (inb := if negb (truthy (ArgsKey.cleanup_bullets_attr_to_str
                                   (arg_in_bullets a)))
                then IN_BULLETS
                else ArgsKey.cleanup_bullets_attr_to_str (arg_in_bullets a)).
    assert (Einb : inb = cleaned_in_bullets a).
    { unfold inb, cleaned_in_bullets. cbv zeta. destruct (truthy _);
        reflexivity. }
    cbv zeta. rewrite Einb.
    rewrite cleaned_truthy, (no_space_no_blank _ (cleaned_no_space a)).
    cbn [negb andb].
    unfold cleaned_out_bullets.
    destruct (arg_out_bullets a) as [raw|]; [|reflexivity].
    change (ArgsKey.cleanup_bullets_attr_to_str raw)
      with (remove_whitespace (bullets_text raw)).
    cbv zeta.
    destruct (bullets_truthy raw) eqn:Eraw.
    + destruct (truthy (remove_whitespace (bullets_text raw))) eqn:E;
        cbn [negb]; [|reflexivity].
      rewrite E. cbn [andb].
      rewrite no_space_no_blank by apply remove_whitespace_no_space.
      reflexivity.
    + assert (E : bullets_text raw = []).
      { destruct raw as [s | parts]; cbn in Eraw |- *.
        - destruct s; [reflexivity | discriminate].
        - destruct parts; [reflexivity | discriminate]. }
      rewrite E. reflexivity.
  - pose proof (cleaned_truthy a) as H. intros E. rewrite E in H.
    discriminate.
  - apply cleaned_no_space.
  - intros s Hs. apply cleaned_out_no_space in Hs. destruct Hs as [H1 H2].
    split; [|exact H2]. intros E. rewrite E in H1. discriminate.
Qed.

(** [clean_key] raises nothing, whatever its arguments: its two checks
    cannot fail.  It keeps the four flags, clamps the tab size at 1, takes
    the whitespace out of the two bullet sets, and replaces an input set
    that is left empty by the default and an output set that is left empty
    by [None]. *)
Theorem clean_key_never_raises (a : Args) :
  ArgsKey.clean_key a
  = Ok (ArgsKey.mk (arg_indent_empty_lines a) (arg_minimize_indents a)
                   (arg_list_with_indent a) (arg_list_no_indent a)
                   (Z.max (arg_tab_size a) 1)
                   (cleaned_in_bullets a) (cleaned_out_bullets a))
  /\ cleaned_in_bullets a <> []
  /\ existsb is_space (cleaned_in_bullets a) = false
  /\ (forall s, cleaned_out_bullets a = Some s ->
                s <> [] /\ existsb is_space s = false).
Proof. exact (clean_key_spec a). Qed.

Lemma new_key (a : Args) (self : DocstringToText) :
  DocstringToText_new a = Ok self ->
  self = mkProcessor (arg_indent_empty_lines a) (arg_minimize_indents a)
           (arg_list_with_indent a) (arg_list_no_indent a)
           (Z.max (arg_tab_size a) 1)
           (cleaned_in_bullets a) (cleaned_out_bullets a)
           (match cleaned_out_bullets a with Some s => len s | None => 1 end)
           (bullet_pattern (cleaned_in_bullets a))
           (SpaceToTabsConverter_init (arg_minimize_indents a)
                                      (Z.max (arg_tab_size a) 1)).
Proof.
  unfold DocstringToText_new.
  destruct (clean_key_spec a) as (Hk & _ & _ & Hout).
  rewrite Hk. cbn [Py.bind]. rewrite factory_spec.
  cbn [ArgsKey.in_bullets ArgsKey.out_bullets ArgsKey.minimize_indents
       ArgsKey.tab_size ArgsKey.indent_empty_lines ArgsKey.list_with_indent
       ArgsKey.list_no_indent].
  destruct (invalid_bullet_set (cleaned_in_bullets a)); [discriminate|].
  cbn [Py.bind]. intros H. inversion H; subst self; clear H. f_equal.
  - destruct (cleaned_out_bullets a) as [s|] eqn:E; [|reflexivity].
    destruct (Hout s eq_refl) as [Hs _]. destruct s; [congruence|].
    reflexivity.
  - destruct (arg_minimize_indents a); cbn [andb negb]; [|reflexivity].
    destruct (Z.max (arg_tab_size a) 1 =? TAB_SIZE) eqn:E; cbn [negb];
      [|reflexivity].
    apply Z.eqb_eq in E. rewrite E. reflexivity.
Qed.





(** What the constructor caches agrees with the settings of the instance:
    the converter of Pass 2 is the one for the instance's
    [minimize_indents] and [tab_size] (also when the shared default
    converter is kept), [tab_size] is at least 1, and [_out_bullets_n] is
    the number of output bullets, or 1 without them, never 0. *)
Theorem new_instance_caches (a : Args) (self : DocstringToText) :
  DocstringToText_new a = Ok self ->
  _pass2_change_indents_to_tabs self
  = SpaceToTabsConverter_init (Processor.minimize_indents self)
                              (Processor.tab_size self)
  /\ 1 <= Processor.tab_size self
  /\ _out_bullets_n self
     = match Processor.out_bullets self with
       | Some s => len s
       | None => 1
       end
  /\ 1 <= _out_bullets_n self.
Proof.
  intros Hnew. rewrite (new_key a self Hnew).
  destruct (clean_key_spec a) as (_ & _ & _ & Hout).
  cbn [_pass2_change_indents_to_tabs Processor.minimize_indents
       Processor.tab_size _out_bullets_n Processor.out_bullets].
  repeat split; try lia.
  destruct (cleaned_out_bullets a) as [s|]; [|lia].
  destruct (Hout s eq_refl) as [Hs _]. destruct s; [congruence|].
  rewrite len_cons. pose proof (len_nonneg s). lia.
Qed.

Lemma new_instance_caches_witness :
  _pass2_change_indents_to_tabs default_processor
  = SpaceToTabsConverter_init true 4
  /\ 1 <= _out_bullets_n default_processor.
Proof.
  destruct (new_instance_caches default_args default_processor new_default)
    as (H1 & _ & _ & H4).
  split; [exact H1 | exact H4].
Defined.

(* ================================================================== *)
(** ** The formatting of a line *)

(** In binary64 the tabs are what the exact quotient and sum give, for
    every tab size up to 16 and every indent from -8 to 512. *)
Lemma format_tabs_binary64_agrees (tab_size indent : Z) :
  1 <= tab_size <= 16 -> -8 <= indent <= 512 ->
  format_tabs_binary64 tab_size indent = format_tabs tab_size indent.
Proof.
  intros Ht Hd.
  assert (Hall : forallb (fun ts =>
                    forallb (fun d => format_tabs_binary64 ts (d - 8)
                                      =? format_tabs ts (d - 8))
                            (map Z.of_nat (seq 0 521)))
                         (map Z.of_nat (seq 1 16)) = true)
    by (vm_compute; reflexivity).
  rewrite forallb_forall in Hall.
  specialize (Hall tab_size).
  assert (Hin : In tab_size (map Z.of_nat (seq 1 16))).
  { apply in_map_iff. exists (Z.to_nat tab_size). split; [lia|].
    apply in_seq. lia. }
  specialize (Hall Hin). rewrite forallb_forall in Hall.
  specialize (Hall (indent + 8)).
  replace (indent + 8 - 8) with indent in Hall by lia.
  apply Z.eqb_eq, Hall.
  apply in_map_iff. exists (Z.to_nat (indent + 8)). split; [lia|].
  apply in_seq. lia.
Qed.

(** The tabs [__format_line] writes for an indent: none for an indent that
    is not positive, [k] for [k] times the tab size, and in general the
    whole number nearest to the indent divided by the tab size, with the
    float quotient and sum taken exactly; for a tab size up to 16 and an
    indent from -8 to 512, binary64 gives the same tabs. *)
Theorem format_tabs_nearest (tab_size indent : Z) :
  1 <= tab_size ->
  (indent <= 0 -> format_tabs tab_size indent = 0)
  /\ (forall k, 0 <= k -> format_tabs tab_size (k * tab_size) = k)
  /\ (let n := format_tabs tab_size indent in
      0 <= n
      /\ tab_size * (100000 * n - 50001) <= 100000 * Z.max indent 0
         < tab_size * (100000 * n + 49999))
  /\ (tab_size <= 16 -> -8 <= indent <= 512 ->
      format_tabs_binary64 tab_size indent = format_tabs tab_size indent).
Proof.
  intros Hts.
  assert (Hq : forall i, format_tabs tab_size i
                         = (100000 * Z.max i 0 + 50001 * tab_size)
                           / (100000 * tab_size)).
  { intros i. unfold format_tabs. apply Z.quot_div_nonneg; lia. }
  split; [|split; [|split]].
  4:{ intros Ht Hi. apply format_tabs_binary64_agrees; lia. }
  - intros Hi. rewrite Hq. replace (Z.max indent 0) with 0 by lia.
    apply Z.div_small. lia.
  - intros k Hk. rewrite Hq. replace (Z.max (k * tab_size) 0) with (k * tab_size) by nia.
    apply (div_between _ _ k); nia.
  - cbv zeta. rewrite Hq.
    set (p := 100000 * Z.max indent 0 + 50001 * tab_size).
    set (q := 100000 * tab_size).
    pose proof (Z.div_mod p q ltac:(lia)) as Hdm.
    pose proof (Z.mod_pos_bound p q ltac:(lia)) as Hm.
    assert (0 <= p / q) by (apply Z.div_pos; lia).
    split; [assumption|]. nia.
Qed.

Lemma format_tabs_nearest_witness :
  format_tabs 4 (3 * 4) = 3 /\ format_tabs 4 (-2) = 0.
Proof.
  destruct (format_tabs_nearest 4 (-2) ltac:(lia)) as (H0 & Hk & _ & _).
  split; [apply Hk; lia | apply H0; lia].
Defined.

Lemma index_in_range (s : str) (i : Z) :
  0 <= i < len s ->
  exists c, Fmt.index s i = inl [c]
            /\ nth_error s (Z.to_nat i) = Some c.
Proof.
  intros Hi. unfold Fmt.index. cbv zeta.
  replace (i <? 0) with false by (symmetry; apply Z.ltb_ge; lia).
  replace (0 <=? i) with true by (symmetry; apply Z.leb_le; lia).
  replace (i <? len s) with true by (symmetry; apply Z.ltb_lt; lia).
  cbn [andb]. exists (nth (Z.to_nat i) s 0). split; [reflexivity|].
  apply nth_error_nth'. unfold len in Hi. lia.
Qed.

Lemma out_bullet_get_ok (a : Args) (self : DocstringToText)
    (line : ParsedLine) (bullet_level : Z) :
  DocstringToText_new a = Ok self ->
  match Processor.out_bullets self with
  | None => _out_bullet_get self line bullet_level = inl (bullet line)
  | Some s =>
      (exists c,
         _out_bullet_get self line bullet_level = inl [c]
         /\ nth_error s (Z.to_nat (bullet_level mod len s)) = Some c)
      /\ _out_bullet_get self line (bullet_level + len s)
         = _out_bullet_get self line bullet_level
  end.
Proof.
  intros Hnew. pose proof (new_key a self Hnew) as Hself.
  destruct (clean_key_spec a) as (_ & _ & _ & Hout).
  rewrite Hself.
  unfold _out_bullet_get, out_bullet_get_with_bullet_replacement.
  cbn [Processor.out_bullets _out_bullets_n].
  destruct (cleaned_out_bullets a) as [s|] eqn:Es; [|reflexivity].
  destruct (Hout s eq_refl) as [Hne _].
  rewrite (truthy_true s Hne).
  assert (Hlen : 0 < len s).
  { destruct s; [congruence|]. rewrite len_cons. pose proof (len_nonneg s).
    lia. }
  replace (len s =? 0) with false by (symmetry; apply Z.eqb_neq; lia).
  cbv zeta. split.
  - apply index_in_range. apply Z.mod_pos_bound. exact Hlen.
  - f_equal. rewrite <- (Z.mul_1_l (len s)) at 1.
    apply Z.mod_add. lia.
Qed.

(** The bullet [__format_line] writes, for an instance the constructor has
    built: it is found without an exception.  Without output bullets it is
    the bullet of the line; with output bullets [s] it is the character of
    [s] at the level modulo the length of [s], for a negative level too,
    so that the bullets repeat from level to level with that period. *)
Theorem out_bullet_cycle (a : Args) (self : DocstringToText)
    (line : ParsedLine) (bullet_level : Z) :
  DocstringToText_new a = Ok self ->
  match Processor.out_bullets self with
  | None => _out_bullet_get self line bullet_level = inl (bullet line)
  | Some s =>
      (exists c,
         _out_bullet_get self line bullet_level = inl [c]
         /\ nth_error s (Z.to_nat (bullet_level mod len s)) = Some c)
      /\ _out_bullet_get self line (bullet_level + len s)
         = _out_bullet_get self line bullet_level
  end.
Proof. exact (out_bullet_get_ok a self line bullet_level). Qed.

Lemma out_bullet_cycle_witness :
  (exists c, _out_bullet_get default_processor
               (mkLine 0 false true 0 [45] [] [97]) (-1) = inl [c]
             /\ nth_error OUT_BULLETS 4 = Some c)
  /\ _out_bullet_get default_processor
       (mkLine 0 false true 0 [45] [] [97]) (-1 + 5)
     = _out_bullet_get default_processor
         (mkLine 0 false true 0 [45] [] [97]) (-1).
Proof.
  exact (out_bullet_cycle default_args default_processor
           (mkLine 0 false true 0 [45] [] [97]) (-1) new_default).
Defined.



(* ================================================================== *)
(** ** The records and the stack walk, further on *)

Section StackWalkContracts.

Import StackLevelBlock FirstExtractedSubBlock.

(* ------------------------------------------------------------------ *)
(** *** Offsets of the indent *)

Lemma set_indent_same (l : ParsedLine) : set_indent (indent l) l = l.
Proof. destruct l; reflexivity. Qed.

Lemma offset_indent_map (lines : list ParsedLine) (k : Z) (clamp : bool) :
  offset_indent lines k clamp
  = map (fun l => set_indent (if k =? 0 then indent l
                              else if clamp then Z.max (indent l + k) 0
                              else indent l + k) l) lines.
Proof.
  unfold offset_indent. destruct (k =? 0) eqn:E; cbn [orb].
  - symmetry. erewrite map_ext; [apply map_id|]. apply set_indent_same.
  - destruct lines as [|l lines]; [reflexivity|]. cbn [truthy negb].
    destruct clamp; reflexivity.
Qed.

(** [ParsedLine.offset_indent]: without clamping, offsets add up and the
    opposite offset undoes an offset; with clamping, an offset other than
    0 leaves no negative indent, and going up by [k] and down by [k] gives
    back lines that had no negative indent. *)
Theorem offset_indent_laws (lines : list ParsedLine) (a b : Z) :
  offset_indent (offset_indent lines a false) b false
  = offset_indent lines (a + b) false
  /\ offset_indent (offset_indent lines a false) (- a) false = lines
  /\ (a <> 0 -> Forall (fun l => 0 <= indent l) (offset_indent lines a true))
  /\ (0 <= a -> Forall (fun l => 0 <= indent l) lines ->
      offset_indent (offset_indent lines a true) (- a) true = lines).
Proof.
  rewrite !offset_indent_map, !map_map.
  split; [|split; [|split]].
  - apply map_ext. intros l. cbn.
    destruct (Z.eqb_spec a 0), (Z.eqb_spec b 0), (Z.eqb_spec (a + b) 0);
      unfold set_indent; cbn; f_equal; lia.
  - erewrite map_ext; [apply map_id|]. intros l. cbn.
    destruct (Z.eqb_spec a 0), (Z.eqb_spec (- a) 0);
      destruct l; unfold set_indent; cbn; f_equal; lia.
  - intros Ha. apply Z.eqb_neq in Ha. rewrite Forall_map, Forall_forall.
    intros l _. rewrite Ha. cbn. lia.
  - intros Ha Hall. erewrite map_ext_Forall; [apply map_id|].
    eapply Forall_impl; [|exact Hall]. cbn. intros l Hl.
    destruct (Z.eqb_spec a 0), (Z.eqb_spec (- a) 0);
      destruct l; unfold set_indent; cbn in *; f_equal; lia.
Qed.

Lemma offset_indent_laws_witness :
  Forall (fun l => 0 <= indent l)
         (offset_indent [mkLine 2 false false (-1) [] [] [97];
                         mkLine 0 false false (-1) [] [] [98]] (-1) true)
  /\ offset_indent
       (offset_indent [mkLine 2 false false (-1) [] [] [97];
                       mkLine 0 false false (-1) [] [] [98]] 3 true)
       (- 3) true
     = [mkLine 2 false false (-1) [] [] [97];
        mkLine 0 false false (-1) [] [] [98]].
Proof.
  destruct (offset_indent_laws [mkLine 2 false false (-1) [] [] [97];
                                mkLine 0 false false (-1) [] [] [98]] (-1) 0)
    as (_ & _ & H3 & _).
  destruct (offset_indent_laws [mkLine 2 false false (-1) [] [] [97];
                                mkLine 0 false false (-1) [] [] [98]] 3 0)
    as (_ & _ & _ & H4).
  split; [apply H3; lia | apply H4; [lia | repeat constructor; cbn; lia]].
Defined.

(* ------------------------------------------------------------------ *)
(** *** The first chunk of a pending block *)

Lemma detect_loop_first (pl : lines_chunk) :
  forall i acc,
    match detect_loop i acc pl with
    | None => acc = None /\ Forall (fun tl => is_empty (snd tl) = true) pl
    | Some (m, j) =>
        Forall (fun tl => is_empty (snd tl) = false -> m <= indent (snd tl)) pl
        /\ (acc = Some (m, j)
            \/ ((i <= j)%nat
                /\ (exists tl, nth_error pl (j - i) = Some tl
                               /\ is_empty (snd tl) = false
                               /\ indent (snd tl) = m)
                /\ (forall m0 j0, acc = Some (m0, j0) -> m < m0)
                /\ Forall (fun tl => is_empty (snd tl) = false
                                     -> m < indent (snd tl))
                          (firstn (j - i) pl)))
    end.
Proof.
  induction pl as [|[t l] pl IH]; intros i acc.
  - cbn [detect_loop]. destruct acc as [[m j]|]; auto.
  - cbn [detect_loop].
    assert (Hshift : forall j, (S i <= j)%nat -> (j - i = S (j - S i))%nat)
      by (intros; lia).
    destruct (is_empty l) eqn:He.
    + specialize (IH (S i) acc).
      destruct (detect_loop (S i) acc pl) as [[m j]|].
      * destruct IH as [Hall [Hacc | (Hij & (tl & Hn & Hte & Hti) & Hlt & Hbefore)]].
        -- split; [|left; exact Hacc].
           constructor; [|exact Hall]. cbn. congruence.
        -- split; [constructor; [cbn; congruence | exact Hall]|].
           right. rewrite (Hshift j Hij). cbn [nth_error firstn].
           repeat split; [lia | eauto | exact Hlt |].
           constructor; [cbn; congruence | exact Hbefore].
      * destruct IH as [Hacc Hall]. split; [exact Hacc|].
        constructor; [exact He | exact Hall].
    + assert (Hnew : forall acc0,
                (forall m0 j0, acc0 = Some (m0, j0) -> indent l < m0) ->
                match detect_loop (S i) (Some (indent l, i)) pl with
                | None => acc0 = None
                          /\ Forall (fun tl => is_empty (snd tl) = true)
                                    ((t, l) :: pl)
                | Some (m, j) =>
                    Forall (fun tl => is_empty (snd tl) = false
                                      -> m <= indent (snd tl)) ((t, l) :: pl)
                    /\ (acc0 = Some (m, j)
                        \/ ((i <= j)%nat
                            /\ (exists tl,
                                  nth_error ((t, l) :: pl) (j - i) = Some tl
                                  /\ is_empty (snd tl) = false
                                  /\ indent (snd tl) = m)
                            /\ (forall m0 j0, acc0 = Some (m0, j0) -> m < m0)
                            /\ Forall (fun tl => is_empty (snd tl) = false
                                                 -> m < indent (snd tl))
                                      (firstn (j - i) ((t, l) :: pl))))
                end).
      { intros acc0 Hacc0. specialize (IH (S i) (Some (indent l, i))).
        destruct (detect_loop (S i) (Some (indent l, i)) pl) as [[m j]|].
        - destruct IH as [Hall [Hacc | (Hij & (tl & Hn & Hte & Hti) & Hlt & Hbefore)]].
          + inversion Hacc; subst m j.
            split; [constructor; [cbn; lia | exact Hall]|].
            right. rewrite Nat.sub_diag. cbn [nth_error firstn].
            repeat split; [lia | exists (t, l); auto | exact Hacc0 | constructor].
          + pose proof (Hlt _ _ eq_refl) as Hml.
            split; [constructor; [cbn; lia | exact Hall]|].
            right. rewrite (Hshift j Hij). cbn [nth_error firstn].
            repeat split; [lia | eauto | |].
            * intros m0 j0 E. specialize (Hacc0 m0 j0 E). lia.
            * constructor; [cbn; lia | exact Hbefore].
        - destruct IH as [Hacc _]. discriminate. }
      destruct acc as [[m0 j0]|].
      * destruct (indent l <? m0) eqn:Elt.
        -- apply Hnew. intros m1 j1 E. inversion E; subst.
           apply Z.ltb_lt, Elt.
        -- apply Z.ltb_ge in Elt. specialize (IH (S i) (Some (m0, j0))).
           destruct (detect_loop (S i) (Some (m0, j0)) pl) as [[m j]|].
           ++ destruct IH as [Hall [Hacc | (Hij & (tl & Hn & Hte & Hti) & Hlt & Hbefore)]].
              ** inversion Hacc; subst m j.
                 split; [constructor; [cbn; lia | exact Hall]|]. left.
                 reflexivity.
              ** pose proof (Hlt _ _ eq_refl) as Hml.
                 split; [constructor; [cbn; lia | exact Hall]|].
                 right. rewrite (Hshift j Hij). cbn [nth_error firstn].
                 repeat split; [lia | eauto | exact Hlt |].
                 constructor; [cbn; lia | exact Hbefore].
           ++ destruct IH as [Hacc _]. discriminate.
      * apply Hnew. intros m0 j0 E. discriminate.
Qed.

Lemma detect_first_full (pl : lines_chunk) :
  match detect_first_line_with_min_indent pl with
  | None => Forall (fun tl => is_empty (snd tl) = true) pl
  | Some (m, i) =>
      (exists tl, nth_error pl i = Some tl
                  /\ is_empty (snd tl) = false /\ indent (snd tl) = m)
      /\ Forall (fun tl => is_empty (snd tl) = false -> m <= indent (snd tl))
                pl
      /\ Forall (fun tl => is_empty (snd tl) = false -> m < indent (snd tl))
                (firstn i pl)
  end.
Proof.
  unfold detect_first_line_with_min_indent.
  pose proof (detect_loop_first pl 0 None) as H.
  destruct (detect_loop 0 None pl) as [[m i]|].
  - destruct H as [Hall [E | (_ & Hex & _ & Hbefore)]]; [discriminate|].
    rewrite Nat.sub_0_r in *. auto.
  - apply H.
Qed.

(** [__detect_first_line_with_min_indent]: nothing when every line is
    empty; otherwise the least indent of the lines that are not empty, and
    the position of the first line that is not empty and has it. *)
Theorem detect_first_line_with_min_indent_is_first (pl : lines_chunk) :
  match detect_first_line_with_min_indent pl with
  | None => Forall (fun tl => is_empty (snd tl) = true) pl
  | Some (m, i) =>
      (exists tl, nth_error pl i = Some tl
                  /\ is_empty (snd tl) = false /\ indent (snd tl) = m)
      /\ Forall (fun tl => is_empty (snd tl) = false -> m <= indent (snd tl))
                pl
      /\ Forall (fun tl => is_empty (snd tl) = false -> m < indent (snd tl))
                (firstn i pl)
  end.
Proof. exact (detect_first_full pl). Qed.

Lemma split_first_chunk_spec (t : BlockType) (pl : lines_chunk) :
  Forall (fun tl => is_empty (snd tl) = true
                    \/ (indent (snd tl) = 0 /\ fst tl = t))
         (fst (split_first_chunk t pl))
  /\ match snd (split_first_chunk t pl) with
     | [] => True
     | tl :: _ => is_empty (snd tl) = false
                  /\ (indent (snd tl) <> 0 \/ fst tl <> t)
     end.
Proof.
  induction pl as [|[t' l] pl IH]; [cbn; auto|].
  cbn [split_first_chunk].
  destruct (is_empty l || ((indent l =? 0) && BlockType_eqb t' t)) eqn:E.
  - destruct (split_first_chunk t pl) as [a b]. cbn [fst snd] in *.
    destruct IH as [Ha Hb]. split; [|exact Hb].
    constructor; [|exact Ha]. cbn [fst snd].
    apply orb_prop in E. destruct E as [E | E]; [left; exact E|].
    apply andb_prop in E. destruct E as [E1 E2]. right.
    split; [apply Z.eqb_eq, E1 | apply BlockType_eqb_eq, E2].
  - cbn [fst snd]. split; [constructor|].
    apply orb_false_elim in E. destruct E as [E1 E2].
    split; [exact E1|]. apply andb_false_iff in E2.
    destruct E2 as [E2 | E2].
    + left. apply Z.eqb_neq, E2.
    + right. intros Ht. apply BlockType_eqb_eq in Ht. congruence.
Qed.

Lemma detect_first_min (pl : lines_chunk) :
  min_indent_nonempty (map snd pl)
  = option_map fst (detect_first_line_with_min_indent pl).
Proof.
  pose proof (detect_first_full pl) as H.
  destruct (detect_first_line_with_min_indent pl) as [[m i]|]; cbn [option_map fst].
  - destruct H as ((tl & Hn & He & Hi) & Hall & _).
    destruct (min_indent_nonempty (map snd pl)) as [m'|] eqn:Em.
    + destruct (min_indent_nonempty_spec _ _ Em) as ((l & Hl & Hle & Hli) & Hlow).
      f_equal. apply Z.le_antisymm.
      * rewrite <- Hi. apply Hlow; [|exact He].
        apply in_map. eapply nth_error_In, Hn.
      * apply in_map_iff in Hl. destruct Hl as (tl' & <- & Hin).
        rewrite Forall_forall in Hall. rewrite <- Hli. apply Hall; assumption.
    + exfalso. pose proof (min_indent_nonempty_none _ Em (snd tl)) as Hnone.
      rewrite Hnone in He; [discriminate|].
      apply in_map. eapply nth_error_In, Hn.
  - unfold min_indent_nonempty.
    replace (filter (fun x => negb (is_empty x)) (map snd pl)) with (@nil ParsedLine);
      [reflexivity|].
    symmetry. induction H as [|tl pl' Htl _ IH]; [reflexivity|].
    cbn [map filter]. rewrite Htl. exact IH.
Qed.

(** [extract_from_pending_block] splits a block in two, in place: the
    extracted chunk followed by the pending lines is the block, and the
    extracted chunk of a block that is not empty is not empty.  The common
    indent is the least indent of the lines that are not empty (0 without
    any); when it is not 0 the whole block is extracted, as a chunk that is
    not final.  A final chunk holds empty lines and lines at indent 0 of
    the block type only, and stops before the first other line.  A chunk
    at common indent 0 that is not final holds the lines before the first
    line at indent 0, one of which is not empty. *)
Theorem extract_from_pending_block_contract (pending_lines : lines_chunk) :
  let s := extract_from_pending_block pending_lines in
  extracted s ++ pending s = pending_lines
  /\ (pending_lines <> [] -> extracted s <> [])
  /\ common_indent s
     = match min_indent_nonempty (map snd pending_lines) with
       | Some m => m
       | None => 0
       end
  /\ (common_indent s <> 0 ->
      extracted_is_final s = false /\ extracted s = pending_lines)
  /\ (extracted_is_final s = true ->
      Forall (fun tl => is_empty (snd tl) = true
                        \/ (indent (snd tl) = 0
                            /\ fst tl = FirstExtractedSubBlock.block_type s))
             (extracted s)
      /\ match pending s with
         | [] => True
         | tl :: _ =>
             is_empty (snd tl) = false
             /\ (indent (snd tl) <> 0
                 \/ fst tl <> FirstExtractedSubBlock.block_type s)
         end)
  /\ (extracted_is_final s = false -> common_indent s = 0 ->
      Forall (fun tl => is_empty (snd tl) = false -> 0 < indent (snd tl))
             (extracted s)
      /\ Exists (fun tl => is_empty (snd tl) = false) (extracted s)
      /\ exists tl rest,
           pending s = tl :: rest
           /\ is_empty (snd tl) = false /\ indent (snd tl) = 0
           /\ fst tl = FirstExtractedSubBlock.block_type s).
Proof.
  cbv zeta.
  split; [apply extract_partition|].
  split.
  { intros Hne. pose proof (extract_cases _ Hne) as Hc. cbv zeta in Hc.
    destruct Hc as [(_ & _ & H) | [(_ & _ & H & _) | (_ & _ & H & _)]];
      [exact H | rewrite H; exact Hne | exact H]. }
  split; [rewrite extract_common, detect_first_min;
          destruct (detect_first_line_with_min_indent pending_lines)
            as [[m i]|]; reflexivity|].
  split.
  { intros Hci. rewrite (extract_indented _ Hci). split; reflexivity. }
  pose proof (detect_first_full pending_lines) as Hd.
  unfold extract_from_pending_block.
  destruct pending_lines as [|x pl'] eqn:Epl.
  { cbn. split; [intros _; split; [constructor | exact I] | discriminate]. }
  cbn [truthy negb]. rewrite <- Epl in *.
  destruct (detect_first_line_with_min_indent pending_lines) as [[m i]|].
  2:{ cbn. split; [|discriminate]. intros _. split; [|exact I].
      eapply Forall_impl; [|exact Hd]. cbn. auto. }
  destruct Hd as ((tl & Hn & He & Hi) & Hall & Hbefore).
  destruct (m =? 0) eqn:E0; cbn [negb].
  2:{ cbn. split; [discriminate|]. intros _ E. apply Z.eqb_neq in E0.
      congruence. }
  apply Z.eqb_eq in E0. rewrite E0 in Hi, Hall, Hbefore. clear E0 m.
  assert (Hnth : nth i pending_lines (Indent, mkLine 0 true false (-1) [] [] [])
                 = tl) by (apply nth_error_nth; exact Hn).
  rewrite Hnth.
  destruct ((0 <? i)%nat
            && negb (forallb (fun tl => is_empty (snd tl))
                             (firstn i pending_lines))) eqn:Esplit.
  - cbn. split; [discriminate|]. intros _ _.
    apply andb_prop in Esplit. destruct Esplit as [_ Hsome].
    split; [exact Hbefore|]. split.
    + apply negb_true_iff in Hsome.
      apply Exists_exists.
      destruct (forallb_forall (fun tl => is_empty (snd tl))
                  (firstn i pending_lines)) as [_ Hall'].
      destruct (existsb (fun tl => negb (is_empty (snd tl)))
                  (firstn i pending_lines)) eqn:Eex.
      * apply existsb_exists in Eex. destruct Eex as (y & Hy & Hye).
        exists y. split; [exact Hy|]. apply negb_true_iff, Hye.
      * exfalso. rewrite Hall' in Hsome; [discriminate|].
        intros y Hy.
        destruct (is_empty (snd y)) eqn:Ey; [reflexivity|]. exfalso.
        assert (existsb (fun tl => negb (is_empty (snd tl)))
                  (firstn i pending_lines) = true).
        { apply existsb_exists. exists y. rewrite Ey. auto. }
        congruence.
    + destruct (skipn i pending_lines) as [|y rest] eqn:Esk.
      * exfalso. pose proof (nth_error_skipn i pending_lines 0) as Hsk.
        rewrite Esk, Nat.add_0_r, Hn in Hsk. discriminate.
      * pose proof (nth_error_skipn i pending_lines 0) as Hsk.
        rewrite Esk, Nat.add_0_r, Hn in Hsk. cbn in Hsk.
        inversion Hsk; subst y. exists tl, rest. auto.
  - pose proof (split_first_chunk_spec (fst tl) pending_lines) as Hs.
    destruct (split_first_chunk (fst tl) pending_lines) as [a b].
    cbn in *. split; [|discriminate]. intros _. exact Hs.
Qed.

(* ------------------------------------------------------------------ *)
(** *** The assertions of the walk *)



(** With a child indent that is not negative, no assertion of
    [__detect_sub_block_list_level] fails. *)
Lemma detect_with_assertions (parent : _StackLevelBlock)
    (child_type : BlockType) (d : Z) :
  0 <= d ->
  detect_sub_block_list_level true parent child_type d
  = detect_sub_block_list_level false parent child_type d.
Proof.
  intros Hd. unfold detect_sub_block_list_level, assert.
  replace (-1 <? d) with true by (symmetry; apply Z.ltb_lt; lia).
  destruct child_type, (in_list parent); reflexivity.
Qed.

Lemma iteration_assert_spec (self : SpaceToTabsConverter)
    (output : list ParsedLine) (active_block : _StackLevelBlock)
    (stack : list _StackLevelBlock) :
  let split := extract_from_pending_block (pending_lines active_block) in
  iteration true self output active_block stack
  = if extracted_is_final split && truthy (pending split)
    then Raise AssertionError
    else iteration false self output active_block stack.
Proof.
  cbv zeta. unfold iteration.
  destruct (pending_lines active_block) as [|x pl'] eqn:Epl; [reflexivity|].
  cbn [truthy negb]. rewrite <- Epl.
  assert (Hne : pending_lines active_block <> []) by (rewrite Epl; discriminate).
  pose proof (extract_cases _ Hne) as Hc. cbv zeta in Hc.
  pose proof (extract_common (pending_lines active_block)) as Hcom.
  set (s := extract_from_pending_block (pending_lines active_block)) in *.
  rewrite !assert_off. cbn [Py.bind].
  destruct Hc as [(Hf & Hci & Hex) | [(Hf & Hci & Hex & Hp) | (Hf & Hci & Hex & Hp)]];
    rewrite Hf; cbn [andb].
  - (* final *)
    rewrite Hci. cbn [Z.eqb andb].
    destruct (pending s) as [|y p] eqn:Ep; cbn [truthy negb].
    + reflexivity.
    + reflexivity.
  - (* a common indent *)
    rewrite Hp, Hex. rewrite (truthy_true _ Hne).
    replace (common_indent s =? 0) with false
      by (symmetry; apply Z.eqb_neq; exact Hci).
    cbn [negb truthy andb]. rewrite Nat.eqb_refl.
    unfold assert at 1 2. cbn [andb negb Py.bind].
    rewrite detect_with_assertions by apply common_spaces_to_tabs_nonneg.
    reflexivity.
  - (* lines under a sub-indent before a line at indent zero *)
    rewrite (truthy_true _ Hex), (truthy_true _ Hp).
    rewrite Hci. cbn [Z.eqb negb].
    unfold assert at 1 2. cbn [andb negb Py.bind].
    destruct (pending s) as [|[bt fpl] rest] eqn:Ep; [congruence|].
    assert (Hfirst : indent fpl = 0 /\ is_empty fpl = false).
    { revert Ep Hf. unfold s, extract_from_pending_block.
      rewrite (truthy_true _ Hne). cbn [negb].
      destruct (detect_first_line_with_min_indent (pending_lines active_block))
        as [[m i]|] eqn:Ed; [|discriminate].
      destruct (detect_first_spec _ m i Ed) as (Hi & (tl & Hn & He & Hm) & _).
      destruct (negb (m =? 0)) eqn:E0; [discriminate|].
      apply negb_false_iff, Z.eqb_eq in E0.
      destruct (_ && _).
      - cbn [pending]. intros Ep _.
        pose proof (nth_error_skipn i (pending_lines active_block) 0) as Hsk.
        rewrite Ep in Hsk. cbn [nth_error] in Hsk. rewrite Nat.add_0_r in Hsk.
        rewrite Hn in Hsk. inversion Hsk; subst tl. cbn [snd] in *.
        split; [lia | exact He].
      - destruct (split_first_chunk _ _). cbn. discriminate. }
    destruct Hfirst as [Hi0 He0]. rewrite Hi0, He0.
    unfold assert at 1. cbn [Z.eqb andb negb Py.bind].
    rewrite ?assert_off. cbn [Py.bind].
    rewrite detect_with_assertions by lia.
    destruct (detect_sub_block_list_level false active_block bt 0)
      as [[ll il]| |]; cbn [Py.bind]; try reflexivity.
    rewrite detect_with_assertions by lia. reflexivity.
Qed.

(** Of the assertions in the loop of [convert], only the one before the
    flush can fail: an iteration with assertions on raises
    [AssertionError] when the extracted chunk is final and leaves lines
    pending, and does otherwise what it does with assertions off. *)
Theorem iteration_assertion_before_flush (self : SpaceToTabsConverter)
    (output : list ParsedLine) (active_block : _StackLevelBlock)
    (stack : list _StackLevelBlock) :
  let split := extract_from_pending_block (pending_lines active_block) in
  iteration true self output active_block stack
  = if extracted_is_final split && truthy (pending split)
    then Raise AssertionError
    else iteration false self output active_block stack.
Proof. exact (iteration_assert_spec self output active_block stack). Qed.





(* ------------------------------------------------------------------ *)
(** *** A block of one kind *)









End StackWalkContracts.

(* ================================================================== *)
(** ** From the text to Pass 2 *)

(* ------------------------------------------------------------------ *)
(** *** Pass 1 on the records of the line parser *)




Lemma parsed_block_type (l : ParsedLine) :
  parsed_ok l = true ->
  exists t, Line.block_type true l = Ok t
            /\ Line.block_type false l = Ok t
            /\ block_id l
               = (indent l, false,
                  match t with Indent => false | _ => true end,
                  match t with Bullet => true | _ => false end,
                  match t with Number => true | _ => false end).
Proof.
  unfold parsed_ok, Line.block_type, block_id, assert. intros H.
  apply andb_prop in H. destruct H as [H H3].
  apply andb_prop in H. destruct H as [H1 H2].
  apply negb_true_iff in H1. apply eqb_prop in H2. rewrite H1, H2.
  destruct (truthy (bullet l)), (truthy (number l)); cbn in *;
    try discriminate; eexists; repeat split.
Qed.

Lemma parsed_block_id (l : ParsedLine) (t : BlockType) :
  parsed_ok l = true -> Line.block_type true l = Ok t ->
  block_id l
  = (indent l, false,
     match t with Indent => false | _ => true end,
     match t with Bullet => true | _ => false end,
     match t with Number => true | _ => false end).
Proof.
  intros H Ht. destruct (parsed_block_type l H) as (t' & Ht' & _ & Hid).
  rewrite Ht in Ht'. inversion Ht'; subst t'. exact Hid.
Qed.

Lemma flush_parsed (dbg : bool) (st : pass1_state) :
  pass1_parsed_inv st ->
  exists joined,
    flush_raw_active_block dbg (pending_block st) (joined_blocks st)
    = Ok joined
    /\ flush_raw_active_block false (pending_block st) (joined_blocks st)
       = Ok joined.
Proof.
  intros [_ H]. destruct (pending_block st) as [|first rest];
    [eexists; split; reflexivity|].
  unfold flush_raw_active_block.
  assert (Hall : forallb (fun x => block_id_eqb (block_id x) (block_id first))
                         rest = true).
  { inversion H as [|? ? (Hf1 & Hf2 & Hf3) Hr]; subst.
    apply forallb_forall. intros x Hx. rewrite Forall_forall in Hr.
    destruct (Hr x Hx) as (Hx1 & Hx2 & Hx3).
    rewrite (parsed_block_id x _ Hx1 Hx3), (parsed_block_id first _ Hf1 Hf3).
    rewrite Hx2, Hf2. apply block_id_eqb_refl. }
  rewrite Hall. unfold assert. rewrite andb_false_r. cbn [negb andb Py.bind].
  destruct (is_list first || is_empty first); eexists; split; reflexivity.
Qed.

Lemma pass1_body_parsed (dbg : bool) (st : pass1_state) (line : ParsedLine) :
  pass1_parsed_inv st -> parsed_ok line = true ->
  exists st',
    pass1_body dbg st line = Ok st'
    /\ pass1_body false st line = Ok st'
    /\ pass1_parsed_inv st'.
Proof.
  intros Hinv Hline.
  destruct (flush_parsed dbg st Hinv) as (joined & Hfl & Hfl0).
  destruct Hinv as [Hafter Hpend].
  destruct (parsed_block_type line Hline) as (t & Ht & Ht0 & _).
  assert (Ht' : Line.block_type dbg line = Ok t) by (destruct dbg; assumption).
  assert (He : is_empty line = false).
  { unfold parsed_ok in Hline. apply andb_prop in Hline.
    destruct Hline as [Hline _]. apply andb_prop in Hline.
    destruct Hline as [Hline _]. apply negb_true_iff, Hline. }
  unfold pass1_body. rewrite He, Hafter. cbn [Py.bind].
  rewrite Ht', Ht0. cbn [Py.bind].
  destruct ((indent line =? active_indent st)
            && BlockType_eqb t (active_block st)) eqn:Esame; cbn [negb Py.bind].
  - apply andb_prop in Esame. destruct Esame as [Ei Eb].
    apply Z.eqb_eq in Ei. apply BlockType_eqb_eq in Eb. subst t.
    eexists. split; [reflexivity|]. split; [reflexivity|].
    split; [exact Hafter|]. cbn [pending_block active_indent active_block].
    apply Forall_app. split; [exact Hpend|]. constructor; [|constructor].
    auto.
  - rewrite Hfl, Hfl0. cbn [Py.bind].
    eexists. split; [reflexivity|]. split; [reflexivity|].
    split; [exact Hafter|]. cbn [pending_block active_indent active_block app].
    constructor; [|constructor]. auto.
Qed.



Lemma join_characters (parts : list str) :
  remove_whitespace (join [SP] parts) = concat (map remove_whitespace parts).
Proof.
  induction parts as [|p parts IH]; [reflexivity|].
  destruct parts as [|q parts].
  - cbn. rewrite app_nil_r. reflexivity.
  - change (join [SP] (p :: q :: parts))
      with (p ++ [SP] ++ join [SP] (q :: parts)).
    rewrite !remove_whitespace_app, IH. reflexivity.
Qed.

Lemma parsed_text_characters (l : ParsedLine) :
  parsed_ok l = true -> is_list l = false ->
  characters l = remove_whitespace (text l).
Proof.
  unfold parsed_ok, characters. intros H Hl.
  apply andb_prop in H. destruct H as [H _].
  apply andb_prop in H. destruct H as [_ H]. apply eqb_prop in H.
  rewrite Hl in H. symmetry in H. apply orb_false_elim in H.
  destruct H as [Hb Hn].
  destruct (bullet l); [|discriminate]. destruct (number l); [|discriminate].
  reflexivity.
Qed.

Lemma flush_parsed_characters (st : pass1_state) :
  pass1_parsed_inv st ->
  exists joined,
    flush_raw_active_block true (pending_block st) (joined_blocks st)
    = Ok joined
    /\ concat (map characters joined)
       = concat (map characters (joined_blocks st))
         ++ concat (map characters (pending_block st)).
Proof.
  intros Hinv. destruct (flush_parsed true st Hinv) as (joined & Hfl & _).
  exists joined. split; [exact Hfl|].
  destruct Hinv as [_ H].
  destruct (pending_block st) as [|first rest] eqn:Ep.
  - cbn in Hfl. inversion Hfl. cbn. rewrite app_nil_r. reflexivity.
  - unfold flush_raw_active_block in Hfl.
    destruct (assert true _) as [[]| |]; cbn [Py.bind] in Hfl;
      try discriminate Hfl.
    destruct (is_list first || is_empty first) eqn:Ekind.
    + inversion Hfl. rewrite map_app, concat_app. reflexivity.
    + injection Hfl as <-. rewrite map_app, concat_app. f_equal.
      remember (first :: rest) as pend eqn:Epend.
      unfold map at 1, concat at 1. rewrite app_nil_r.
      unfold characters at 1, ParsedLine_init.
      cbn [bullet number text app].
      change (match map text rest with
              | [] => text first
              | _ :: _ => text first ++ SP :: join [SP] (map text rest)
              end) with (join [SP] (map text (first :: rest))).
      rewrite <- Epend, join_characters, map_map. f_equal.
      apply orb_false_elim in Ekind. destruct Ekind as [Hlist _].
      assert (Hfirst : parsed_ok first = true
                       /\ Line.block_type true first = Ok (active_block st)).
      { rewrite Epend in H. inversion H as [|? ? (Hf1 & Hf2 & Hf3) Hr]. auto. }
      destruct Hfirst as [Hf1 Hf3].
      assert (Ht : active_block st = Indent).
      { unfold Line.block_type in Hf3. rewrite Hlist in Hf3. cbn in Hf3.
        inversion Hf3. reflexivity. }
      apply map_ext_Forall. eapply Forall_impl; [|exact H].
      cbn. intros l (Hl1 & Hl2 & Hl3). symmetry.
      apply parsed_text_characters; [exact Hl1|].
      rewrite Ht in Hl3. unfold Line.block_type in Hl3.
      destruct (is_list l); [|reflexivity]. cbn in Hl3.
      destruct (truthy (bullet l)); [discriminate|].
      destruct (assert true _); discriminate.
Qed.

Lemma pass1_body_characters (st : pass1_state) (line : ParsedLine) :
  pass1_parsed_inv st -> parsed_ok line = true ->
  exists st',
    pass1_body true st line = Ok st'
    /\ pass1_parsed_inv st'
    /\ concat (map characters (joined_blocks st'))
       ++ concat (map characters (pending_block st'))
       = (concat (map characters (joined_blocks st))
          ++ concat (map characters (pending_block st)))
         ++ characters line
    /\ exists flushed, joined_blocks st' = joined_blocks st ++ flushed
       /\ exists kept, pending_block st ++ [line]
                       = kept ++ pending_block st'
                       /\ pending_block st' <> [].
Proof.
  intros Hinv Hline.
  destruct (flush_parsed_characters st Hinv) as (joined & Hfl & Hch).
  assert (Hflx : exists flushed, joined = joined_blocks st ++ flushed).
  { revert Hfl. unfold flush_raw_active_block.
    destruct (pending_block st) as [|first rest].
    - intros H. inversion H. exists []. rewrite app_nil_r. reflexivity.
    - destruct (assert true _) as [[]| |]; cbn [Py.bind]; try discriminate.
      destruct (_ || _); intros H; inversion H; eauto. }
  destruct (pass1_body_parsed true st line Hinv Hline) as (st' & H1 & _ & Hinv').
  exists st'. split; [exact H1|]. split; [exact Hinv'|].
  destruct Hinv as [Hafter Hpend].
  destruct (parsed_block_type line Hline) as (t & Ht & _ & _).
  assert (He : is_empty line = false).
  { unfold parsed_ok in Hline. apply andb_prop in Hline.
    destruct Hline as [Hline _]. apply andb_prop in Hline.
    destruct Hline as [Hline _]. apply negb_true_iff, Hline. }
  revert H1. unfold pass1_body. rewrite He, Hafter. cbn [Py.bind].
  rewrite Ht. cbn [Py.bind].
  destruct ((indent line =? active_indent st)
            && BlockType_eqb t (active_block st)); cbn [negb Py.bind].
  - intros H1. inversion H1; subst st'; clear H1.
    cbn [joined_blocks pending_block]. split.
    + rewrite map_app, concat_app. cbn [map concat].
      rewrite app_nil_r, app_assoc. reflexivity.
    + exists []. rewrite app_nil_r. split; [reflexivity|].
      exists []. split; [reflexivity|]. destruct (pending_block st); discriminate.
  - rewrite Hfl. cbn [Py.bind]. intros H1. inversion H1; subst st'; clear H1.
    cbn [joined_blocks pending_block app]. split.
    + cbn [map concat]. rewrite app_nil_r, Hch. reflexivity.
    + destruct Hflx as (flushed & Hflushed). exists flushed.
      split; [exact Hflushed|]. exists (pending_block st).
      split; [reflexivity | discriminate].
Qed.

Lemma pass1_loop_characters (lines : list ParsedLine) :
  forall st,
    pass1_parsed_inv st ->
    Forall (fun l => parsed_ok l = true) lines ->
    exists st',
      pass1_loop true st lines = Ok st'
      /\ concat (map characters (joined_blocks st'))
         ++ concat (map characters (pending_block st'))
         = (concat (map characters (joined_blocks st))
            ++ concat (map characters (pending_block st)))
           ++ concat (map characters lines)
      /\ (exists kept, pending_block st ++ lines = kept ++ pending_block st')
      /\ (lines <> [] -> pending_block st' <> []).
Proof.
  induction lines as [|l lines IH]; intros st Hinv Hall.
  - exists st. split; [reflexivity|]. split; [cbn; rewrite app_nil_r; reflexivity|].
    split; [exists []; rewrite app_nil_r; reflexivity | congruence].
  - inversion Hall as [|? ? Hl Hrest]; subst.
    destruct (pass1_body_characters st l Hinv Hl)
      as (st1 & H1 & Hinv1 & Hch1 & flushed & _ & kept1 & Hk1 & Hne1).
    destruct (IH st1 Hinv1 Hrest) as (st' & H' & Hch' & (kept & Hk) & Hne').
    exists st'. cbn [pass1_loop]. rewrite H1. cbn [Py.bind].
    split; [exact H'|]. split.
    + rewrite Hch', Hch1. cbn [map concat]. rewrite <- !app_assoc.
      reflexivity.
    + split.
      * exists (kept1 ++ kept).
        change (l :: lines) with ([l] ++ lines).
        rewrite app_assoc, Hk1, <- !app_assoc, Hk. reflexivity.
      * intros _. destruct lines as [|l2 lines'].
        -- assert (Est : st1 = st') by (cbn in H'; congruence).
           rewrite <- Est. exact Hne1.
        -- apply Hne'. discriminate.
Qed.

(** What Pass 1 does with the characters, on records as the line parser
    builds them: it returns, no assertion fails, and every character of
    the records is in the joined blocks it returns or in the block that is
    pending when its loop ends, which it drops.  That block holds the last
    records, at least one. *)
Theorem pass1_keeps_characters_but_last_block (parsed_text : list ParsedLine) :
  Forall (fun l => parsed_ok l = true) parsed_text ->
  exists common_indent joined_blocks kept dropped,
    pass1_join_raw_blocks true parsed_text = Ok (common_indent, joined_blocks)
    /\ snd (unindent parsed_text 0 true) = kept ++ dropped
    /\ (parsed_text <> [] -> dropped <> [])
    /\ concat (map characters joined_blocks)
       ++ concat (map characters dropped)
       = concat (map characters parsed_text).
Proof.
  intros Hall. unfold pass1_join_raw_blocks.
  destruct (unindent_map parsed_text true) as (f & Hf).
  destruct (unindent parsed_text 0 true) as [common lines'] eqn:Eu.
  cbn [snd] in Hf |- *.
  assert (Hall' : Forall (fun l => parsed_ok l = true) lines').
  { rewrite Hf, Forall_map. eapply Forall_impl; [|exact Hall].
    intros l Hl. exact Hl. }
  assert (Hchars : concat (map characters lines')
                   = concat (map characters parsed_text)).
  { rewrite Hf, map_map. reflexivity. }
  destruct (pass1_loop_characters lines' (mkPass1 [] [] 0 Indent false))
    as (st' & H1 & Hch & (kept & Hk) & Hne).
  - split; [reflexivity | constructor].
  - exact Hall'.
  - exists common, (Processor.joined_blocks st'), kept, (pending_block st').
    rewrite H1. cbn [Py.bind]. split; [reflexivity|].
    split; [exact Hk|]. split.
    + intros Hp. apply Hne. rewrite Hf. destruct parsed_text; [congruence|].
      discriminate.
    + rewrite Hch, <- Hchars. reflexivity.
Qed.

Lemma pass1_keeps_characters_but_last_block_witness :
  exists common_indent joined_blocks dropped,
    pass1_join_raw_blocks true
      [mkLine 0 false false (-1) [] [] (lit "two words");
       mkLine 0 false false (-1) [] [] (lit "more");
       mkLine 2 false true (-1) [45] [] (lit "item")]
    = Ok (common_indent, joined_blocks)
    /\ concat (map characters joined_blocks)
       ++ concat (map characters dropped)
       = lit "twowordsmore-item".
Proof.
  destruct (pass1_keeps_characters_but_last_block
              [mkLine 0 false false (-1) [] [] (lit "two words");
               mkLine 0 false false (-1) [] [] (lit "more");
               mkLine 2 false true (-1) [45] [] (lit "item")])
    as (c & j & k & d & H1 & _ & _ & H4).
  - repeat constructor.
  - exists c, j, d. split; [exact H1 | exact H4].
Defined.

(* ------------------------------------------------------------------ *)
(** *** [__parse_to_blocks] *)

Section PipelineTheorems.

Variable unicode_decimal : char -> bool.




End PipelineTheorems.


